(** * Secure file wiping: the 35-pass overwrite of [secure_file_erasing.c]

    A shallow embedding of [write_data], [random_pass], [pattern_pass] and
    [spc_fd_wipe].  The C functions talk to the kernel through [fstat],
    [lseek], [write] and [fsync] and draw bytes from [spc_rand]; here the
    kernel is an explicit [world] that is threaded through every call and
    that records each call in a trace.  The outcome of every call is dictated
    by an oracle indexed by the number of system calls issued so far, so that
    short writes, interrupted writes, failing seeks and failing flushes are
    all representable.

    Machine integers are [Z]: a [size_t] lives in [0, 2^64) and its
    wrap-around is written with [size_t]; [int], [ssize_t] and [off_t] values
    stay in range in every computation of the file (LP64). *)

From Stdlib Require Import ZArith List Lia Bool.
From Stdlib Require Import Strings.Byte.
Import ListNotations.
Open Scope Z_scope.

(** ** Constants *)

Definition SPC_WIPE_BUFSIZE : Z := 4096.
Definition SSIZE_MAX : Z := Eval cbv in 2 ^ 63 - 1.
Definition SIZE_MOD : Z := Eval cbv in 2 ^ 64.
Definition EINTR : Z := 4.

(** Conversion to [size_t], also the wrap-around of [size_t] arithmetic. *)
Definition size_t (z : Z) : Z := z mod SIZE_MOD.

(** ** The kernel seen from the file descriptor *)

(** What one [write] call does: accept at most [k] bytes, or fail with an
    [errno]. *)
Inductive wres : Type :=
| WOk (k : Z)
| WFail (errno : Z).

(** The oracle.  [e_ext t] is what other processes do to the file just
    before the system call number [t]; [e_append] tells whether the
    descriptor was opened with [O_APPEND], in which case every write lands
    at the end of the file, wherever [lseek] has put the offset. *)
Record env : Type := {
  e_stat : nat -> bool;
  e_seek : nat -> Z;
  e_write : nat -> wres;
  e_sync : nat -> bool;
  e_rand : nat -> byte;
  e_ext : nat -> list byte -> list byte;
  e_append : bool
}.

Inductive event : Type :=
| EvFstat (ret st_size : Z)
| EvLseek (offset ret : Z)
| EvWrite (boff count : Z) (data : list byte) (ret errno : Z)
| EvFsync (ret : Z)
| EvRand (data : list byte).

Record world : Type := {
  w_env : env;
  w_file : list byte;
  w_pos : Z;
  w_clock : nat;
  w_rng : nat;
  w_trace : list event
}.

(** The bytes [buf[off .. off+n)]. *)
Definition slice (buf : list byte) (off n : Z) : list byte :=
  firstn (Z.to_nat n) (skipn (Z.to_nat off) buf).

(** Writing [data] at offset [pos]; a gap past the end of file reads as
    zeros, and writing no bytes changes nothing. *)
Definition overwrite (file : list byte) (pos : nat) (data : list byte) : list byte :=
  match data with
  | [] => file
  | _ :: _ =>
      firstn pos file ++ repeat x00 (pos - length file) ++ data
        ++ skipn (pos + length data) file
  end.

(** The file as the system call number [w_clock w] finds it. *)
Definition file_now (w : world) : list byte :=
  e_ext (w_env w) (w_clock w) (w_file w).

Definition sys_fstat (w : world) : Z * Z * world :=
  let t := w_clock w in
  let file := file_now w in
  let ret := if e_stat (w_env w) t then 0 else -1 in
  let st_size := if e_stat (w_env w) t then Z.of_nat (length file) else 0 in
  (ret, st_size,
   {| w_env := w_env w; w_file := file; w_pos := w_pos w;
      w_clock := S t; w_rng := w_rng w;
      w_trace := w_trace w ++ [EvFstat ret st_size] |}).

(** [lseek(fd, offset, SEEK_SET)]. *)
Definition sys_lseek (w : world) (offset : Z) : Z * world :=
  let t := w_clock w in
  let ret := e_seek (w_env w) t in
  (ret,
   {| w_env := w_env w; w_file := file_now w;
      w_pos := if 0 <=? ret then ret else w_pos w;
      w_clock := S t; w_rng := w_rng w;
      w_trace := w_trace w ++ [EvLseek offset ret] |}).

(** Where a write that takes [ret] bytes lands: at the end of the file on
    a descriptor opened with [O_APPEND], at the offset of the descriptor
    otherwise; a write that takes no byte moves nothing. *)
Definition landing (w : world) (file : list byte) (ret : Z) : Z :=
  if e_append (w_env w) && (0 <? ret) then Z.of_nat (length file)
  else w_pos w.

(** [write(fd, buf + boff, count)], where [data] is [buf[boff .. boff+count)].
    The kernel never takes more than [count] bytes; the bytes it takes go
    to the file where the write lands, and the offset is left behind
    them. *)
Definition sys_write (w : world) (boff count : Z) (data : list byte)
  : Z * Z * world :=
  let t := w_clock w in
  let file := file_now w in
  match e_write (w_env w) t with
  | WOk k =>
      let ret := Z.max 0 (Z.min k count) in
      let off := landing w file ret in
      (ret, 0,
       {| w_env := w_env w;
          w_file := overwrite file (Z.to_nat off) (firstn (Z.to_nat ret) data);
          w_pos := off + ret;
          w_clock := S t; w_rng := w_rng w;
          w_trace := w_trace w ++ [EvWrite boff count data ret 0] |})
  | WFail errno =>
      (-1, errno,
       {| w_env := w_env w; w_file := file; w_pos := w_pos w;
          w_clock := S t; w_rng := w_rng w;
          w_trace := w_trace w ++ [EvWrite boff count data (-1) errno] |})
  end.

Definition sys_fsync (w : world) : Z * world :=
  let t := w_clock w in
  let ret := if e_sync (w_env w) t then 0 else -1 in
  (ret,
   {| w_env := w_env w; w_file := file_now w; w_pos := w_pos w;
      w_clock := S t; w_rng := w_rng w;
      w_trace := w_trace w ++ [EvFsync ret] |}).

(** Modelled from the spec: [spc_rand(buf, n)] is not defined in the file; it
    is the random-byte capability, which fills [buf[0 .. n)] with the next
    [n] bytes of the random source. *)
Definition spc_rand (w : world) (n : Z) : list byte * world :=
  let data := map (fun i => e_rand (w_env w) (w_rng w + i)%nat) (seq 0 (Z.to_nat n)) in
  (data,
   {| w_env := w_env w; w_file := w_file w; w_pos := w_pos w;
      w_clock := w_clock w; w_rng := (w_rng w + Z.to_nat n)%nat;
      w_trace := w_trace w ++ [EvRand data] |}).

(** ** Outcomes *)

(** A loop that may spin forever is bounded by a fuel; running out of it is
    reported together with the loop that ran out. *)
Inductive loop_id : Type := InWriteData | InChunkLoop.

Inductive outcome (A : Type) : Type :=
| Ret (a : A) (w : world)
| OutOfFuel (l : loop_id).
Arguments Ret {A} a w.
Arguments OutOfFuel {A} l.

(** ** [write_data] *)

(** The [do ... while (written < nbytes)] loop, entered with [written]. *)
Fixpoint write_data_loop (fuel : nat) (buf : list byte) (nbytes written : Z)
  (w : world) : outcome Z :=
  match fuel with
  | O => OutOfFuel InWriteData
  | S fuel' =>
      let towrite :=
        if SSIZE_MAX <? size_t (nbytes - written) then SSIZE_MAX
        else size_t (nbytes - written) in
      let '(result, errno, w1) :=
        sys_write w written towrite (slice buf written towrite) in
      if 0 <=? result then
        let written' := size_t (written + result) in
        if written' <? nbytes then write_data_loop fuel' buf nbytes written' w1
        else Ret 1 w1
      else if negb (errno =? EINTR) then Ret 0 w1
      else if written <? nbytes then write_data_loop fuel' buf nbytes written w1
      else Ret 1 w1
  end.

Definition write_data (fuel : nat) (buf : list byte) (nbytes : Z) (w : world)
  : outcome Z :=
  write_data_loop fuel buf nbytes 0 w.

(** ** [random_pass] *)

(** The [while (nbytes > 0)] loop; the result is [-1] when the body returned
    [-1] and [0] when the loop ran to its end.  The local buffer holds the
    bytes [spc_rand] has just put there; nothing else of it is read. *)
Fixpoint random_loop (fuel : nat) (wfuel : nat) (nbytes : Z) (w : world)
  : outcome Z :=
  match fuel with
  | O => OutOfFuel InChunkLoop
  | S fuel' =>
      if 0 <? nbytes then
        let towrite :=
          if SPC_WIPE_BUFSIZE <? nbytes then SPC_WIPE_BUFSIZE else nbytes in
        let '(buf, w1) := spc_rand w towrite in
        match write_data wfuel buf towrite w1 with
        | Ret r w2 =>
            if r =? 0 then Ret (-1) w2
            else random_loop fuel' wfuel (size_t (nbytes - towrite)) w2
        | OutOfFuel l => OutOfFuel l
        end
      else Ret 0 w
  end.

Definition random_pass (fuel : nat) (nbytes : Z) (w : world) : outcome Z :=
  let '(off, w1) := sys_lseek w 0 in
  if negb (off =? 0) then Ret (-1) w1
  else
    match random_loop fuel fuel nbytes w1 with
    | Ret r w2 =>
        if r =? -1 then Ret (-1) w2
        else let '(_, w3) := sys_fsync w2 in Ret 0 w3
    | OutOfFuel l => OutOfFuel l
    end.

(** ** [pattern_pass] *)

Fixpoint pattern_loop (fuel : nat) (wfuel : nat) (buf : list byte)
  (bufsz filesz : Z) (w : world) : outcome Z :=
  match fuel with
  | O => OutOfFuel InChunkLoop
  | S fuel' =>
      if 0 <? filesz then
        let towrite := if bufsz <? filesz then bufsz else filesz in
        match write_data wfuel buf towrite w with
        | Ret r w1 =>
            if r =? 0 then Ret (-1) w1
            else pattern_loop fuel' wfuel buf bufsz (size_t (filesz - towrite)) w1
        | OutOfFuel l => OutOfFuel l
        end
      else Ret 0 w
  end.

Definition pattern_pass (fuel : nat) (buf : list byte) (bufsz filesz : Z)
  (w : world) : outcome Z :=
  if bufsz =? 0 then Ret (-1) w
  else
    let '(off, w1) := sys_lseek w 0 in
    if negb (off =? 0) then Ret (-1) w1
    else
      match pattern_loop fuel fuel buf bufsz filesz w1 with
      | Ret r w2 =>
          if r =? -1 then Ret (-1) w2
          else let '(_, w3) := sys_fsync w2 in Ret 0 w3
      | OutOfFuel l => OutOfFuel l
      end.

(** ** [spc_fd_wipe] *)

Definition single_pats : list byte :=
  [x00; x11; x22; x33; x44; x55; x66; x77;
   x88; x99; xaa; xbb; xcc; xdd; xee; xff].

Definition triple_pats : list (list byte) :=
  [[x92; x49; x24]; [x49; x24; x92]; [x24; x92; x49];
   [x6d; xb6; xdb]; [xb6; xdb; x6d]; [xdb; x6d; xb6]].

(** [memset(buf, c, n)] and [memcpy(buf + off, src, n)] on a buffer held as
    a list. *)
Definition memset (buf : list byte) (c : byte) (n : Z) : list byte :=
  repeat c (Z.to_nat n) ++ skipn (Z.to_nat n) buf.

Definition memcpy (buf : list byte) (off : Z) (src : list byte) (n : Z)
  : list byte :=
  firstn (Z.to_nat off) buf ++ firstn (Z.to_nat n) src
    ++ skipn (Z.to_nat (off + n)) buf.

(** [for (i = 0; i < count; i++) memcpy(buf + (i * patternsz), pattern, patternsz);] *)
Definition tile_buf (buf pattern : list byte) (patternsz count : Z) : list byte :=
  fold_left (fun b i => memcpy b (Z.of_nat i * patternsz) pattern patternsz)
    (seq 0 (Z.to_nat count)) buf.

(** A statement of [spc_fd_wipe] yields the value that is compared with
    [-1] and the scratch buffer as it leaves it. *)
Definition with_buf (buf : list byte) (m : outcome Z) : outcome (Z * list byte) :=
  match m with
  | Ret r w => Ret (r, buf) w
  | OutOfFuel l => OutOfFuel l
  end.

(** [if (m == -1) return -1; k] *)
Definition and_then (m : outcome (Z * list byte))
  (k : list byte -> world -> outcome Z) : outcome Z :=
  match m with
  | Ret (r, buf) w => if r =? -1 then Ret (-1) w else k buf w
  | OutOfFuel l => OutOfFuel l
  end.

Notation "'check' buf ',' w '<-' m ';;' k" :=
  (and_then m (fun buf w => k))
  (at level 10, buf name, w name, m at level 100, k at level 200).

(** [for (pass = ...; pass < ...; pass++) body], with [n] iterations to go;
    a body that yields [-1] ends the function. *)
Fixpoint for_pass (n : nat) (pass : Z)
  (body : Z -> list byte -> world -> outcome (Z * list byte))
  (buf : list byte) (w : world) : outcome (Z * list byte) :=
  match n with
  | O => Ret (0, buf) w
  | S n' =>
      match body pass buf w with
      | Ret (r, buf') w' =>
          if r =? -1 then Ret (-1, buf') w'
          else for_pass n' (pass + 1) body buf' w'
      | OutOfFuel l => OutOfFuel l
      end
  end.

Definition random_body (fuel : nat) (nbytes : Z)
  : Z -> list byte -> world -> outcome (Z * list byte) :=
  fun _ buf w => with_buf buf (random_pass fuel nbytes w).

Definition single_body (fuel : nat) (nbytes : Z)
  : Z -> list byte -> world -> outcome (Z * list byte) :=
  fun pass buf w =>
    let buf := memset buf (nth (Z.to_nat pass) single_pats x00) SPC_WIPE_BUFSIZE in
    with_buf buf (pattern_pass fuel buf SPC_WIPE_BUFSIZE nbytes w).

Definition triple_body (fuel : nat) (nbytes patternsz : Z)
  : Z -> list byte -> world -> outcome (Z * list byte) :=
  fun pass buf w =>
    let pattern := nth (Z.to_nat pass) triple_pats [] in
    let count := SPC_WIPE_BUFSIZE / patternsz in
    let buf := tile_buf buf pattern patternsz count in
    with_buf buf (pattern_pass fuel buf (patternsz * count) nbytes w).

(** The scratch buffer is not initialised; its first use is a [memset] of
    all its [SPC_WIPE_BUFSIZE] bytes. *)
Definition spc_fd_wipe (fuel : nat) (w : world) : outcome Z :=
  let buf := repeat x00 (Z.to_nat SPC_WIPE_BUFSIZE) in
  let '(rc, st_size, w) := sys_fstat w in
  if rc =? -1 then Ret (-1) w
  else if st_size =? 0 then Ret 0 w
  else
    let nbytes := size_t st_size in
    check buf, w <- for_pass 4 0 (random_body fuel nbytes) buf w ;;
    check buf, w <- single_body fuel nbytes 5 buf w ;;
    check buf, w <- single_body fuel nbytes 10 buf w ;;
    let patternsz := Z.of_nat (length (nth 0 triple_pats [])) in
    check buf, w <- for_pass 3 0 (triple_body fuel nbytes patternsz) buf w ;;
    check buf, w <-
      for_pass (length single_pats) 0 (single_body fuel nbytes) buf w ;;
    check buf, w <-
      for_pass (Z.to_nat (Z.of_nat (length (concat triple_pats)) / patternsz)) 0
        (triple_body fuel nbytes patternsz) buf w ;;
    check buf, w <- for_pass 4 0 (random_body fuel nbytes) buf w ;;
    Ret 0 w.

(** ** What a trace shows *)

(** The events a run has added to the trace. *)
Definition new_events (w w' : world) : list event :=
  skipn (length (w_trace w)) (w_trace w').

(** Bytes the kernel reports as written. *)
Definition nwritten (evs : list event) : Z :=
  fold_right (fun ev acc =>
    match ev with
    | EvWrite _ _ _ ret _ => Z.max 0 ret + acc
    | _ => acc
    end) 0 evs.

(** The bytes the kernel took, in the order it took them. *)
Definition transferred (evs : list event) : list byte :=
  flat_map (fun ev =>
    match ev with
    | EvWrite _ _ data ret _ => firstn (Z.to_nat ret) data
    | _ => []
    end) evs.

(** The bytes the random source handed out. *)
Definition drawn (evs : list event) : list byte :=
  flat_map (fun ev => match ev with EvRand data => data | _ => [] end) evs.

Definition is_write (ev : event) : bool :=
  match ev with EvWrite _ _ _ _ _ => true | _ => false end.

Definition is_io (ev : event) : bool :=
  match ev with EvWrite _ _ _ _ _ | EvRand _ => true | _ => false end.

Definition is_seek (ev : event) : bool :=
  match ev with EvLseek _ _ => true | _ => false end.

Definition is_fsync (ev : event) : bool :=
  match ev with EvFsync _ => true | _ => false end.

Definition is_fstat (ev : event) : bool :=
  match ev with EvFstat _ _ => true | _ => false end.

(** A trace cut in front of every [lseek]: the events before the first one,
    and the passes. *)
Fixpoint cut (evs : list event) : list event * list (list event) :=
  match evs with
  | [] => ([], [])
  | ev :: rest =>
      let '(pre, segs) := cut rest in
      if is_seek ev then ([], (ev :: pre) :: segs) else (ev :: pre, segs)
  end.

Definition passes_of (evs : list event) : list (list event) := snd (cut evs).

(** The pattern [p] repeated over [n] bytes. *)
Definition tile (p : list byte) (n : Z) : list byte :=
  map (fun i => nth (i mod length p) p x00) (seq 0 (Z.to_nat n)).

(** The first [bufsz] bytes of [buf] repeated over [n] bytes. *)
Definition cycle (buf : list byte) (bufsz n : Z) : list byte :=
  map (fun i => nth (i mod Z.to_nat bufsz) buf x00) (seq 0 (Z.to_nat n)).

(** ** The protocol of [write_data] *)

(** The count of the next [write] when [written] bytes are out. *)
Definition chunk (nbytes written : Z) : Z := Z.min (nbytes - written) SSIZE_MAX.

Definition write_at (buf : list byte) (nbytes written ret errno : Z) : event :=
  EvWrite written (chunk nbytes written)
    (slice buf written (chunk nbytes written)) ret errno.

(** [wd_run buf nbytes written evs r]: from buffer offset [written] the
    loop issues the writes [evs] and returns [r]. *)
Inductive wd_run (buf : list byte) (nbytes : Z) : Z -> list event -> Z -> Prop :=
| wd_full written ret errno :
    0 <= ret <= chunk nbytes written ->
    nbytes <= written + ret ->
    wd_run buf nbytes written [write_at buf nbytes written ret errno] 1
| wd_short written ret errno evs r :
    0 <= ret <= chunk nbytes written ->
    written + ret < nbytes ->
    wd_run buf nbytes (written + ret) evs r ->
    wd_run buf nbytes written (write_at buf nbytes written ret errno :: evs) r
| wd_error written errno :
    errno <> EINTR ->
    wd_run buf nbytes written [write_at buf nbytes written (-1) errno] 0
| wd_retry written evs r :
    written < nbytes ->
    wd_run buf nbytes written evs r ->
    wd_run buf nbytes written (write_at buf nbytes written (-1) EINTR :: evs) r
| wd_intr_end written :
    nbytes <= written ->
    wd_run buf nbytes written [write_at buf nbytes written (-1) EINTR] 1.


(** A trace that ends in a write that failed for good. *)
Definition ends_in_write_error (evs : list event) : Prop :=
  exists pre boff count data errno,
    evs = pre ++ [EvWrite boff count data (-1) errno] /\ errno <> EINTR.

(** ** Passes and plans *)

Inductive pass_desc : Type :=
| Random
| Pattern (p : list byte).

(** A pass that ran to its end over [S] bytes. *)
Definition complete_pass (S : Z) (d : pass_desc) (seg : list event) : Prop :=
  exists body fr,
    seg = EvLseek 0 0 :: body ++ [EvFsync fr] /\
    nwritten body = S /\
    match d with
    | Random => forallb is_io body = true /\ transferred body = drawn body
    | Pattern p => forallb is_write body = true /\ transferred body = tile p S
    end.

(** A pass that stopped at a seek or at a write. *)
Definition failed_pass (seg : list event) : Prop :=
  (exists ret, ret <> 0 /\ seg = [EvLseek 0 ret]) \/
  (exists body,
     seg = EvLseek 0 0 :: body /\ forallb is_io body = true /\
     ends_in_write_error body).

(** The plan in the words of the specification, pass 1 first. *)
Definition gutmann_plan : list pass_desc :=
  [ Random; Random; Random; Random;
    Pattern [x55]; Pattern [xaa];
    Pattern [x92; x49; x24]; Pattern [x49; x24; x92]; Pattern [x24; x92; x49];
    Pattern [x00]; Pattern [x11]; Pattern [x22]; Pattern [x33];
    Pattern [x44]; Pattern [x55]; Pattern [x66]; Pattern [x77];
    Pattern [x88]; Pattern [x99]; Pattern [xaa]; Pattern [xbb];
    Pattern [xcc]; Pattern [xdd]; Pattern [xee]; Pattern [xff];
    Pattern [x92; x49; x24]; Pattern [x49; x24; x92]; Pattern [x24; x92; x49];
    Pattern [x6d; xb6; xdb]; Pattern [xb6; xdb; x6d]; Pattern [xdb; x6d; xb6];
    Random; Random; Random; Random ].

(** [plan_trace S ds evs r]: running the passes [ds] in order left the
    events [evs] and ended with [r], [0] after the last pass and [-1] at the
    first pass that failed. *)
Inductive plan_trace (S : Z) : list pass_desc -> list event -> Z -> Prop :=
| pt_end : plan_trace S [] [] 0
| pt_pass d ds seg evs r :
    complete_pass S d seg -> plan_trace S ds evs r ->
    plan_trace S (d :: ds) (seg ++ evs) r
| pt_fail d ds seg :
    failed_pass seg -> plan_trace S (d :: ds) seg (-1).

(** The size [spc_fd_wipe] works with: [st.st_size] as [fstat] reports it,
    converted to [size_t]. *)
Definition snapshot (w : world) : Z := size_t (Z.of_nat (length (file_now w))).

Definition stat_ok (w : world) : bool := e_stat (w_env w) (w_clock w).

(** The kernel makes progress: a write takes at least one byte or fails for
    good. *)
Definition progress (e : env) : Prop :=
  forall t, match e_write e t with
            | WOk k => 0 < k
            | WFail errno => errno <> EINTR
            end.


(** ** Stages of [spc_fd_wipe] against a plan *)

(** The values of [pass] in [n] rounds of a loop that starts at [pass]. *)
Definition zrange (pass : Z) (n : nat) : list Z :=
  map (fun k => pass + Z.of_nat k) (seq 0 n).

(** A stage that hands the buffer on runs the passes [ds]. *)
Definition runs_plan (S : Z) (ds : list pass_desc)
  (stage : list byte -> world -> outcome (Z * list byte)) : Prop :=
  forall buf w r buf' w',
    Z.of_nat (length buf) = SPC_WIPE_BUFSIZE ->
    stage buf w = Ret (r, buf') w' ->
    Z.of_nat (length buf') = SPC_WIPE_BUFSIZE /\
    exists evs, w_trace w' = w_trace w ++ evs /\ plan_trace S ds evs r.

(** The rest of the function runs the passes [ds]. *)
Definition ends_plan (S : Z) (ds : list pass_desc)
  (k : list byte -> world -> outcome Z) : Prop :=
  forall buf w r w',
    Z.of_nat (length buf) = SPC_WIPE_BUFSIZE ->
    k buf w = Ret r w' ->
    exists evs, w_trace w' = w_trace w ++ evs /\ plan_trace S ds evs r.

(** ** Counting in a trace *)

Definition no_seek (evs : list event) : bool :=
  forallb (fun ev => negb (is_seek ev)) evs.

Definition count_ev (f : event -> bool) (evs : list event) : nat :=
  length (filter f evs).

(** ** Kinds of failure *)

Inductive error_kind : Type := StatError | SeekError | WriteError.

(** The failure a system call reports, if it reports one that ends the
    wipe. *)
Definition failure_kind (ev : event) : option error_kind :=
  match ev with
  | EvFstat ret _ => if ret =? -1 then Some StatError else None
  | EvLseek _ ret => if ret =? 0 then None else Some SeekError
  | EvWrite _ _ _ ret errno =>
      if (ret <? 0) && negb (errno =? EINTR) then Some WriteError else None
  | _ => None
  end.

(** The last system call of a trace. *)
Definition last_event (evs : list event) : event := last evs (EvRand []).

(** ** Sample worlds *)

(** A kernel that does all it is asked. *)
Definition calm_env : env :=
  {| e_stat := fun _ => true;
     e_seek := fun _ => 0;
     e_write := fun _ => WOk SSIZE_MAX;
     e_sync := fun _ => true;
     e_rand := fun i => if Nat.even i then x3c else xc3;
     e_ext := fun _ file => file;
     e_append := false |}.

(** A kernel that interrupts every third system call when it is a write,
    takes two bytes at a time otherwise, cannot flush, and a neighbour that
    cuts the file to one byte before the system call number 20. *)
Definition rough_env : env :=
  {| e_stat := fun _ => true;
     e_seek := fun _ => 0;
     e_write := fun t => if (t mod 3 =? 0)%nat then WFail EINTR else WOk 2;
     e_sync := fun _ => false;
     e_rand := fun i => if Nat.even i then x3c else xc3;
     e_ext := fun t file => if (t =? 20)%nat then firstn 1 file else file;
     e_append := false |}.

Definition boot (e : env) (file : list byte) : world :=
  {| w_env := e; w_file := file; w_pos := 0; w_clock := 0; w_rng := 0;
     w_trace := [] |}.

(** The world a call leaves behind, and the value it returns. *)
Definition world_of {A} (o : outcome A) (w0 : world) : world :=
  match o with Ret _ w => w | OutOfFuel _ => w0 end.

Definition value_of {A} (o : outcome A) : option A :=
  match o with Ret a _ => Some a | OutOfFuel _ => None end.

Definition w_calm3 : world := boot calm_env [x41; x42; x43].
Definition w_rough3 : world := boot rough_env [x41; x42; x43].
Definition w_empty : world := boot calm_env [].



Definition EIO : Z := 5.

Definition badwrite_env : env :=
  {| e_stat := e_stat calm_env; e_seek := e_seek calm_env;
     e_write := fun t => if (t =? 6)%nat then WFail EIO else WOk 2;
     e_sync := e_sync calm_env; e_rand := e_rand calm_env;
     e_ext := e_ext calm_env; e_append := e_append calm_env |}.

Definition w_badwrite : world := boot badwrite_env [x41; x42; x43].

(** A kernel whose every write fails for good. *)
Definition deaf_env : env :=
  {| e_stat := e_stat calm_env; e_seek := e_seek calm_env;
     e_write := fun _ => WFail EIO;
     e_sync := e_sync calm_env; e_rand := e_rand calm_env;
     e_ext := e_ext calm_env; e_append := e_append calm_env |}.

Definition w_deaf : world := boot deaf_env [x41; x42; x43].

(** The scratch buffer before its first use. *)
Definition scratch0 : list byte := repeat x00 (Z.to_nat SPC_WIPE_BUFSIZE).

(** A kernel that takes a thousand bytes at a time and interrupts one write
    in four. *)
Definition thousand_env : env :=
  {| e_stat := e_stat calm_env; e_seek := e_seek calm_env;
     e_write := fun t => if (t mod 4 =? 2)%nat then WFail EINTR else WOk 1000;
     e_sync := e_sync calm_env; e_rand := e_rand calm_env;
     e_ext := e_ext calm_env; e_append := e_append calm_env |}.

Definition w_thousand : world := boot thousand_env [x41; x42; x43].

(** ** Runs side by side *)

(** Two outcomes agree up to a relation on the worlds they leave. *)
Definition sim_outcome {A} (R : world -> world -> Prop) (o1 o2 : outcome A)
  : Prop :=
  match o1, o2 with
  | Ret a1 w1, Ret a2 w2 => a1 = a2 /\ R w1 w2
  | OutOfFuel l1, OutOfFuel l2 => l1 = l2
  | _, _ => False
  end.

(** The same kernel with another answer to every [fsync]. *)
Definition with_sync (s : nat -> bool) (w : world) : world :=
  {| w_env := {| e_stat := e_stat (w_env w); e_seek := e_seek (w_env w);
                 e_write := e_write (w_env w); e_sync := s;
                 e_rand := e_rand (w_env w); e_ext := e_ext (w_env w);
                 e_append := e_append (w_env w) |};
     w_file := w_file w; w_pos := w_pos w; w_clock := w_clock w;
     w_rng := w_rng w; w_trace := w_trace w |}.

Definition forget_sync (ev : event) : event :=
  match ev with EvFsync _ => EvFsync 0 | _ => ev end.

(** Worlds that differ in what [fsync] answers, and so in the answers the
    trace has recorded, and in nothing else. *)
Definition same_but_sync (w1 w2 : world) : Prop :=
  e_stat (w_env w1) = e_stat (w_env w2) /\
  e_seek (w_env w1) = e_seek (w_env w2) /\
  e_write (w_env w1) = e_write (w_env w2) /\
  e_rand (w_env w1) = e_rand (w_env w2) /\
  e_ext (w_env w1) = e_ext (w_env w2) /\
  e_append (w_env w1) = e_append (w_env w2) /\
  w_file w1 = w_file w2 /\ w_pos w1 = w_pos w2 /\
  w_clock w1 = w_clock w2 /\ w_rng w1 = w_rng w2 /\
  map forget_sync (w_trace w1) = map forget_sync (w_trace w2).

(** Worlds that differ in the bytes of the file and in nothing else.  On
    a descriptor opened with [O_APPEND] the offset follows the end of the
    file, and is left out. *)
Definition same_but_file (w1 w2 : world) : Prop :=
  w_env w1 = w_env w2 /\
  (e_append (w_env w1) = false -> w_pos w1 = w_pos w2) /\
  w_clock w1 = w_clock w2 /\ w_rng w1 = w_rng w2 /\
  w_trace w1 = w_trace w2.

(** ** Fuel *)

(** Rounds of a chunk loop over [nbytes] bytes, [bufsz] at a time. *)
Definition chunks (bufsz nbytes : Z) : Z := (nbytes + bufsz - 1) / bufsz.

Definition w_calm3' : world := boot calm_env [xff; xfe; xfd].

(** Fuel that lets a wipe over [S] bytes return when the kernel makes
    progress: one round per chunk and one more, and a round per byte of a
    full buffer. *)
Definition enough_fuel (S : Z) (fuel : nat) : Prop :=
  chunks 4095 S < Z.of_nat fuel /\ SPC_WIPE_BUFSIZE <= Z.of_nat fuel.

(** A kernel that never fails: [fstat] and [lseek] succeed and every write
    takes at least one byte.  Nothing is asked of [fsync]. *)
Definition healthy (e : env) : Prop :=
  (forall t, e_stat e t = true) /\ (forall t, e_seek e t = 0) /\
  (forall t, exists k, e_write e t = WOk k /\ 0 < k).

(** A stage that returns, whatever the buffer, when the kernel makes
    progress, and that does not fail when the kernel never fails. *)
Definition stage_returns
  (stage : list byte -> world -> outcome (Z * list byte)) : Prop :=
  forall buf w,
    progress (w_env w) ->
    exists r buf' w',
      stage buf w = Ret (r, buf') w' /\ w_env w' = w_env w /\
      (healthy (w_env w) -> r = 0).

(** The same for the rest of the function. *)
Definition rest_returns (k : list byte -> world -> outcome Z) : Prop :=
  forall buf w,
    progress (w_env w) ->
    exists r w', k buf w = Ret r w' /\ (healthy (w_env w) -> r = 0).
(** ** Buffers, offsets and the random source in a trace *)

(** A call that stays inside a buffer of [size] bytes: a write reads
    [buf[boff .. boff+count)] within it and is answered by no more than
    [count]; [spc_rand] fills no more than [size] bytes. *)
Definition inside (size : Z) (ev : event) : bool :=
  match ev with
  | EvWrite boff count data ret _ =>
      (0 <=? boff) && (0 <=? count) && (boff + count <=? size)
      && (Z.of_nat (length data) =? count) && (ret <=? count)
  | EvRand data => Z.of_nat (length data) <=? size
  | _ => true
  end.

(** The scratch buffers of [random_pass] and [spc_fd_wipe] hold
    [SPC_WIPE_BUFSIZE] bytes. *)
Definition in_buffer (ev : event) : bool := inside SPC_WIPE_BUFSIZE ev.

(** A write whose record holds the bytes the kernel says it took. *)
Definition covers (ev : event) : bool :=
  match ev with
  | EvWrite _ _ data ret _ => ret <=? Z.of_nat (length data)
  | _ => true
  end.

(** What follows the seek in a pass. *)
Definition is_pass_call (ev : event) : bool := is_io ev || is_fsync ev.

(** A pass, complete or not, that has stayed inside its buffer and has
    written no more than [S] bytes, and nothing when its seek did not
    answer 0. *)
Definition bounded_pass (S : Z) (seg : list event) : Prop :=
  exists off rest,
    seg = EvLseek 0 off :: rest /\
    forallb is_pass_call rest = true /\
    forallb in_buffer rest = true /\
    nwritten rest <= S /\
    (off <> 0 -> rest = []).

(** A stage of [spc_fd_wipe] whose passes are bounded. *)
Definition bounded_stage (S : Z)
  (stage : list byte -> world -> outcome (Z * list byte)) : Prop :=
  forall buf w r buf' w',
    Z.of_nat (length buf) = SPC_WIPE_BUFSIZE ->
    stage buf w = Ret (r, buf') w' ->
    Z.of_nat (length buf') = SPC_WIPE_BUFSIZE /\
    exists segs,
      w_trace w' = w_trace w ++ concat segs /\ Forall (bounded_pass S) segs.

Definition bounded_rest (S : Z) (k : list byte -> world -> outcome Z) : Prop :=
  forall buf w r w',
    Z.of_nat (length buf) = SPC_WIPE_BUFSIZE ->
    k buf w = Ret r w' ->
    exists segs,
      w_trace w' = w_trace w ++ concat segs /\ Forall (bounded_pass S) segs.

(** A kernel that never gets a byte out: every write is interrupted or
    takes nothing. *)
Definition stalled (e : env) : Prop :=
  forall t, match e_write e t with
            | WOk k => k <= 0
            | WFail errno => errno = EINTR
            end.

(** ** The file behind a trace *)

(** What one system call does to the file and to the offset of a
    descriptor that is not in append mode, as far as its record in the
    trace tells. *)
Definition apply_event (st : list byte * Z) (ev : event) : list byte * Z :=
  match ev with
  | EvLseek _ ret => (fst st, if 0 <=? ret then ret else snd st)
  | EvWrite _ _ data ret _ =>
      if 0 <=? ret
      then (overwrite (fst st) (Z.to_nat (snd st)) (firstn (Z.to_nat ret) data),
            snd st + ret)
      else st
  | _ => st
  end.

Definition replay (st : list byte * Z) (evs : list event) : list byte * Z :=
  fold_left apply_event evs st.

(** No other process touches the file. *)
Definition quiet (e : env) : Prop := forall t file, e_ext e t file = file.

(** The file and the offset of [w] are what the events since [w0] make of
    those of [w0]. *)
Definition replayed (w0 w : world) : Prop :=
  quiet (w_env w) /\ e_append (w_env w) = false /\
  (length (w_trace w0) <= length (w_trace w))%nat /\
  (w_file w, w_pos w) = replay (w_file w0, w_pos w0) (new_events w0 w).

(** One run, watched from [w0] on. *)
Definition watched (w0 w1 w2 : world) : Prop := w1 = w2 /\ replayed w0 w1.

(** On a descriptor in append mode the file of [w] is the file of [w0]
    followed by every byte the kernel has taken since. *)
Definition appended (w0 w : world) : Prop :=
  quiet (w_env w) /\ e_append (w_env w) = true /\
  (length (w_trace w0) <= length (w_trace w))%nat /\
  w_file w = w_file w0 ++ transferred (new_events w0 w).

Definition trailed (w0 w1 w2 : world) : Prop := w1 = w2 /\ appended w0 w1.


(** ** The random source behind a trace *)

(** The [n] bytes of the random source from number [from] on. *)
Definition stream (e : env) (from n : nat) : list byte :=
  map (e_rand e) (seq from n).

(** The bytes drawn since [w0] are the next bytes of the source, none
    skipped and none drawn twice. *)
Definition metered (w0 w : world) : Prop :=
  w_env w = w_env w0 /\
  (w_rng w0 <= w_rng w)%nat /\
  (length (w_trace w0) <= length (w_trace w))%nat /\
  drawn (new_events w0 w) = stream (w_env w0) (w_rng w0) (w_rng w - w_rng w0).

Definition gauged (w0 w1 w2 : world) : Prop := w1 = w2 /\ metered w0 w1.

(** The passes of a plan that draw from the random source. *)
Definition is_random (d : pass_desc) : bool :=
  match d with Random => true | Pattern _ => false end.

(** More sample worlds: a kernel that interrupts every write, and one that
    fails the write number 4. *)
Definition eintr_env : env :=
  {| e_stat := e_stat calm_env; e_seek := e_seek calm_env;
     e_write := fun _ => WFail EINTR;
     e_sync := e_sync calm_env; e_rand := e_rand calm_env;
     e_ext := e_ext calm_env; e_append := e_append calm_env |}.

Definition w_eintr : world := boot eintr_env [x41; x42; x43].

(** A file of seven bytes on the kernel that takes two bytes at a time. *)
Definition w_seven : world :=
  boot badwrite_env [x41; x42; x43; x44; x45; x46; x47].

(** The kernel that does all it is asked, behind a descriptor opened with
    [O_APPEND]. *)
Definition append_env : env :=
  {| e_stat := e_stat calm_env; e_seek := e_seek calm_env;
     e_write := e_write calm_env;
     e_sync := e_sync calm_env; e_rand := e_rand calm_env;
     e_ext := e_ext calm_env; e_append := true |}.

Definition w_append3 : world := boot append_env [x41; x42; x43].
(** * Proofs *)

(** ** Arithmetic and lists *)

Lemma size_t_small z : 0 <= z < SIZE_MOD -> size_t z = z.
Proof. intros H. unfold size_t. apply Z.mod_small. exact H. Qed.

Lemma size_t_range z : 0 <= size_t z < SIZE_MOD.
Proof. unfold size_t. apply Z.mod_pos_bound. reflexivity. Qed.

Lemma towrite_chunk nbytes written :
  0 <= written <= nbytes -> nbytes < SIZE_MOD ->
  (if SSIZE_MAX <? size_t (nbytes - written) then SSIZE_MAX
   else size_t (nbytes - written)) = chunk nbytes written.
Proof.
  intros H1 H2. rewrite size_t_small by lia. unfold chunk.
  destruct (Z.ltb_spec SSIZE_MAX (nbytes - written)); lia.
Qed.

Lemma new_events_app w w' evs :
  w_trace w' = w_trace w ++ evs -> new_events w w' = evs.
Proof.
  intros H. unfold new_events. rewrite H, skipn_app, skipn_all, Nat.sub_diag.
  reflexivity.
Qed.

Lemma nwritten_app a b : nwritten (a ++ b) = nwritten a + nwritten b.
Proof.
  induction a as [|ev a IH]; cbn [app nwritten fold_right]; [reflexivity|].
  fold (nwritten (a ++ b)). fold (nwritten a). rewrite IH.
  destruct ev; lia.
Qed.

Lemma transferred_app a b : transferred (a ++ b) = transferred a ++ transferred b.
Proof. unfold transferred. apply flat_map_app. Qed.

Lemma drawn_app a b : drawn (a ++ b) = drawn a ++ drawn b.
Proof. unfold drawn. apply flat_map_app. Qed.

Lemma nwritten_nonneg evs : 0 <= nwritten evs.
Proof.
  induction evs as [|ev evs IH]; cbn [nwritten fold_right]; [lia|].
  fold (nwritten evs). destruct ev; lia.
Qed.

Lemma slice_slice buf off n m :
  0 <= off -> 0 <= m <= n -> firstn (Z.to_nat m) (slice buf off n) = slice buf off m.
Proof.
  intros Ho Hm. unfold slice. rewrite firstn_firstn.
  f_equal. lia.
Qed.

Lemma firstn_add_split {A} (n m : nat) (l : list A) :
  firstn (n + m) l = firstn n l ++ firstn m (skipn n l).
Proof.
  revert l. induction n as [|n IH]; intros l; [reflexivity|].
  destruct l as [|x l]; cbn [Nat.add firstn skipn app].
  - rewrite firstn_nil. reflexivity.
  - rewrite IH. reflexivity.
Qed.

Lemma slice_app buf off n m :
  0 <= off -> 0 <= n -> 0 <= m ->
  slice buf off n ++ slice buf (off + n) m = slice buf off (n + m).
Proof.
  intros Ho Hn Hm. unfold slice.
  replace (Z.to_nat (off + n)) with (Z.to_nat n + Z.to_nat off)%nat by lia.
  rewrite <- skipn_skipn.
  replace (Z.to_nat (n + m)) with (Z.to_nat n + Z.to_nat m)%nat by lia.
  symmetry. apply firstn_add_split.
Qed.

(** ** [write_data] follows its protocol *)

Lemma sys_write_trace w boff count data :
  0 <= count ->
  exists ret errno,
    fst (fst (sys_write w boff count data)) = ret /\
    snd (fst (sys_write w boff count data)) = errno /\
    w_trace (snd (sys_write w boff count data))
      = w_trace w ++ [EvWrite boff count data ret errno] /\
    (0 <= ret <= count \/ ret = -1).
Proof.
  intros Hc. unfold sys_write.
  destruct (e_write (w_env w) (w_clock w)) as [k|e]; cbn [fst snd w_trace];
    eexists; eexists; repeat split; lia.
Qed.

Lemma chunk_nonneg nbytes written : written <= nbytes -> 0 <= chunk nbytes written.
Proof. unfold chunk, SSIZE_MAX. lia. Qed.

Lemma write_data_loop_run fuel buf nbytes :
  forall written w r w',
    0 <= written <= nbytes -> nbytes < SIZE_MOD ->
    write_data_loop fuel buf nbytes written w = Ret r w' ->
    exists evs, w_trace w' = w_trace w ++ evs /\ wd_run buf nbytes written evs r.
Proof.
  induction fuel as [|fuel IH]; intros written w r w' Hr Hn H; [discriminate|].
  cbn [write_data_loop] in H.
  rewrite (towrite_chunk nbytes written Hr Hn) in H.
  pose proof (chunk_nonneg nbytes written (proj2 Hr)) as Hc.
  destruct (sys_write_trace w written (chunk nbytes written)
              (slice buf written (chunk nbytes written)) Hc)
    as (ret & errno & Hret & Herr & Htr & Hrange).
  destruct (sys_write w written (chunk nbytes written)
              (slice buf written (chunk nbytes written))) as [[ret' errno'] w1].
  cbn [fst snd] in Hret, Herr, Htr. subst ret' errno'.
  fold (write_at buf nbytes written ret errno) in Htr.
  assert (Hck : chunk nbytes written <= nbytes - written) by (unfold chunk; lia).
  destruct Hrange as [Hrange | ->].
  - replace (0 <=? ret) with true in H by (symmetry; apply Z.leb_le; lia).
    rewrite size_t_small in H by lia.
    destruct (Z.ltb_spec (written + ret) nbytes) as [Hlt|Hge].
    + apply IH in H; [|lia|lia]. destruct H as (evs & Hevs & Hrun).
      exists (write_at buf nbytes written ret errno :: evs). split.
      * rewrite Hevs, Htr, <- app_assoc. reflexivity.
      * apply wd_short; assumption.
    + injection H as <- <-. eexists. split; [exact Htr|].
      apply wd_full; assumption.
  - change (0 <=? -1) with false in H. cbv iota in H.
    destruct (Z.eqb_spec errno EINTR) as [He|Hne]; cbn [negb] in H.
    + rewrite He in Htr. clear He.
      destruct (Z.ltb_spec written nbytes) as [Hlt|Hge].
      * apply IH in H; [|lia|lia]. destruct H as (evs & Hevs & Hrun).
        exists (write_at buf nbytes written (-1) EINTR :: evs). split.
        -- rewrite Hevs, Htr, <- app_assoc. reflexivity.
        -- apply wd_retry; assumption.
      * injection H as <- <-. eexists. split; [exact Htr|].
        apply wd_intr_end; assumption.
    + injection H as <- <-. eexists. split; [exact Htr|].
      apply wd_error; assumption.
Qed.

Lemma wd_run_result buf nbytes written evs r :
  wd_run buf nbytes written evs r -> r = 1 \/ r = 0.
Proof. induction 1; auto. Qed.

Lemma wd_run_writes buf nbytes written evs r :
  wd_run buf nbytes written evs r -> forallb is_write evs = true.
Proof. induction 1; cbn [forallb is_write write_at andb]; auto. Qed.

Lemma nwritten_cons_write boff count data ret errno evs :
  nwritten (EvWrite boff count data ret errno :: evs) = Z.max 0 ret + nwritten evs.
Proof. reflexivity. Qed.

(** Success: every byte from [written] on went out. *)
Lemma wd_run_success buf nbytes written evs :
  written <= nbytes ->
  wd_run buf nbytes written evs 1 -> written + nwritten evs = nbytes.
Proof.
  intros Hle H. remember 1 as r eqn:Hr1.
  induction H as [written ret errno Hret Hge | written ret errno evs r Hret Hlt Hrun IH
                 | written errno Hne | written evs r Hlt Hrun IH | written Hge];
    unfold write_at; rewrite ?nwritten_cons_write.
  - change (nwritten []) with 0. unfold chunk in Hret. lia.
  - specialize (IH ltac:(lia) Hr1). lia.
  - discriminate.
  - specialize (IH ltac:(lia) Hr1). lia.
  - change (nwritten []) with 0. lia.
Qed.

(** Failure: some byte did not go out, unless there was none to write. *)
Lemma wd_run_failure buf nbytes written evs :
  written < nbytes ->
  wd_run buf nbytes written evs 0 -> written + nwritten evs < nbytes.
Proof.
  intros Hlt0 H. remember 0 as r eqn:Hr0.
  induction H as [written ret errno Hret Hge | written ret errno evs r Hret Hlt Hrun IH
                 | written errno Hne | written evs r Hlt Hrun IH | written Hge];
    unfold write_at; rewrite ?nwritten_cons_write.
  - discriminate.
  - specialize (IH ltac:(lia) Hr0). lia.
  - change (nwritten []) with 0. lia.
  - specialize (IH ltac:(lia) Hr0). lia.
  - discriminate.
Qed.

Lemma wd_run_ends_in_error buf nbytes written evs :
  wd_run buf nbytes written evs 0 -> ends_in_write_error evs.
Proof.
  intros H. remember 0 as r eqn:Hr0.
  induction H as [written ret errno Hret Hge | written ret errno evs r Hret Hlt Hrun IH
                 | written errno Hne | written evs r Hlt Hrun IH | written Hge].
  - discriminate.
  - destruct (IH Hr0) as (pre & b & c & d & e & -> & He).
    exists (write_at buf nbytes written ret errno :: pre), b, c, d, e. split; auto.
  - exists [], written, (chunk nbytes written),
      (slice buf written (chunk nbytes written)), errno. split; auto.
  - destruct (IH Hr0) as (pre & b & c & d & e & -> & He).
    exists (write_at buf nbytes written (-1) EINTR :: pre), b, c, d, e. split; auto.
  - discriminate.
Qed.

Lemma transferred_cons_write boff count data ret errno evs :
  transferred (EvWrite boff count data ret errno :: evs)
  = firstn (Z.to_nat ret) data ++ transferred evs.
Proof. reflexivity. Qed.

(** The bytes that went out are the bytes of the buffer, in order. *)
Lemma wd_run_transferred buf nbytes written evs r :
  0 <= written ->
  wd_run buf nbytes written evs r ->
  transferred evs = slice buf written (nwritten evs).
Proof.
  intros Hw H.
  induction H as [written ret errno Hret Hge | written ret errno evs r Hret Hlt Hrun IH
                 | written errno Hne | written evs r Hlt Hrun IH | written Hge];
    unfold write_at; rewrite nwritten_cons_write, transferred_cons_write;
    change (nwritten []) with 0; change (transferred []) with (@nil byte);
    rewrite ?app_nil_r.
  - rewrite slice_slice by lia. f_equal. lia.
  - rewrite slice_slice by lia. rewrite IH by lia.
    replace (Z.max 0 ret) with ret by lia.
    apply slice_app; try lia. apply nwritten_nonneg.
  - reflexivity.
  - rewrite IH by lia. cbn [Z.to_nat firstn app]. f_equal.
  - reflexivity.
Qed.


(** ** The chunk loops *)

Lemma forallb_write_io evs : forallb is_write evs = true -> forallb is_io evs = true.
Proof.
  induction evs as [|ev evs IH]; cbn [forallb]; [reflexivity|].
  intros H. apply andb_true_iff in H. destruct H as [H1 H2].
  rewrite (IH H2). destruct ev; try discriminate. reflexivity.
Qed.

Lemma drawn_writes evs : forallb is_write evs = true -> drawn evs = [].
Proof.
  induction evs as [|ev evs IH]; cbn [forallb]; [reflexivity|].
  intros H. apply andb_true_iff in H. destruct H as [H1 H2].
  destruct ev; try discriminate. cbn [drawn flat_map app]. apply IH, H2.
Qed.

Lemma ends_in_write_error_app pre evs :
  ends_in_write_error evs -> ends_in_write_error (pre ++ evs).
Proof.
  intros (p & b & c & d & e & -> & He). exists (pre ++ p), b, c, d, e.
  split; [apply app_assoc|exact He].
Qed.

Lemma spc_rand_spec w n :
  0 <= n ->
  let data := fst (spc_rand w n) in
  Z.of_nat (length data) = n /\
  w_trace (snd (spc_rand w n)) = w_trace w ++ [EvRand data].
Proof.
  intros Hn. unfold spc_rand. cbn [fst snd w_trace]. split; [|reflexivity].
  rewrite length_map, length_seq. lia.
Qed.

Lemma slice_all buf n : Z.of_nat (length buf) = n -> slice buf 0 n = buf.
Proof.
  intros H. unfold slice. change (Z.to_nat 0) with 0%nat. cbn [skipn].
  apply firstn_all2. lia.
Qed.

Lemma write_data_run fuel buf nbytes w r w' :
  0 <= nbytes < SIZE_MOD ->
  write_data fuel buf nbytes w = Ret r w' ->
  exists evs, w_trace w' = w_trace w ++ evs /\ wd_run buf nbytes 0 evs r.
Proof.
  intros Hn H. unfold write_data in H.
  apply write_data_loop_run in H; [exact H|lia|lia].
Qed.

Lemma random_loop_spec fuel wfuel :
  forall nbytes w r w',
    0 <= nbytes < SIZE_MOD ->
    random_loop fuel wfuel nbytes w = Ret r w' ->
    exists evs,
      w_trace w' = w_trace w ++ evs /\ forallb is_io evs = true /\
      ((r = 0 /\ nwritten evs = nbytes /\ transferred evs = drawn evs) \/
       (r = -1 /\ ends_in_write_error evs)).
Proof.
  induction fuel as [|fuel IH]; intros nbytes w r w' Hn H; [discriminate|].
  cbn [random_loop] in H.
  destruct (Z.ltb_spec 0 nbytes) as [Hpos|Hz].
  2:{ injection H as <- <-. exists []. rewrite app_nil_r.
      repeat split. left. repeat split. cbn. lia. }
  set (towrite := if SPC_WIPE_BUFSIZE <? nbytes then SPC_WIPE_BUFSIZE else nbytes) in H.
  assert (Htw : 0 < towrite <= nbytes).
  { subst towrite. unfold SPC_WIPE_BUFSIZE.
    destruct (Z.ltb_spec 4096 nbytes); lia. }
  destruct (spc_rand_spec w towrite ltac:(lia)) as [Hlen Htr1].
  destruct (spc_rand w towrite) as [buf w1]. cbn [fst snd] in Hlen, Htr1.
  destruct (write_data wfuel buf towrite w1) as [rr w2|l] eqn:Hwd; [|discriminate].
  apply write_data_run in Hwd; [|lia].
  destruct Hwd as (evs1 & Htr2 & Hrun).
  pose proof (wd_run_writes _ _ _ _ _ Hrun) as Hwr.
  destruct (wd_run_result _ _ _ _ _ Hrun) as [-> | ->].
  - change (1 =? 0) with false in H. cbv iota in H.
    apply IH in H; [|rewrite size_t_small by lia; lia].
    rewrite size_t_small in H by lia.
    destruct H as (evs2 & Htr3 & Hio & Hres).
    exists (EvRand buf :: evs1 ++ evs2). split; [|split].
    + rewrite Htr3, Htr2, Htr1, <- !app_assoc. reflexivity.
    + cbn [forallb is_io andb]. rewrite forallb_app, (forallb_write_io _ Hwr), Hio.
      reflexivity.
    + destruct Hres as [(-> & Hnw & Htd) | (-> & Herr)].
      * left. split; [reflexivity|]. split.
        -- change (nwritten (EvRand buf :: evs1 ++ evs2)) with (nwritten (evs1 ++ evs2)).
           rewrite nwritten_app, Hnw.
           pose proof (wd_run_success _ towrite 0 _ ltac:(lia) Hrun). lia.
        -- change (transferred (EvRand buf :: evs1 ++ evs2))
             with (transferred (evs1 ++ evs2)).
           change (drawn (EvRand buf :: evs1 ++ evs2))
             with (buf ++ drawn (evs1 ++ evs2)).
           rewrite transferred_app, drawn_app, (drawn_writes _ Hwr), Htd.
           rewrite (wd_run_transferred _ _ 0 _ _ ltac:(lia) Hrun).
           pose proof (wd_run_success _ towrite 0 _ ltac:(lia) Hrun) as Hs.
           replace (nwritten evs1) with towrite by lia.
           rewrite slice_all by exact Hlen. reflexivity.
      * right. split; [reflexivity|].
        apply (ends_in_write_error_app (EvRand buf :: evs1)), Herr.
  - change (0 =? 0) with true in H. cbv iota in H. injection H as <- <-.
    exists (EvRand buf :: evs1). split; [|split].
    + rewrite Htr2, Htr1, <- !app_assoc. reflexivity.
    + cbn [forallb is_io andb]. apply forallb_write_io, Hwr.
    + right. split; [reflexivity|].
      apply (ends_in_write_error_app [EvRand buf]).
      apply (wd_run_ends_in_error _ _ _ _ Hrun).
Qed.

(** *** The pattern buffer, cycled *)

Lemma firstn_as_map (buf : list byte) (n : nat) :
  (n <= length buf)%nat ->
  firstn n buf = map (fun i => nth i buf x00) (seq 0 n).
Proof.
  intros Hn. apply (nth_ext _ _ x00 x00).
  - rewrite length_firstn, length_map, length_seq. lia.
  - intros i Hi. rewrite length_firstn in Hi.
    rewrite nth_firstn.
    replace (i <? n)%nat with true by (symmetry; apply Nat.ltb_lt; lia).
    rewrite (nth_indep (map (fun i => nth i buf x00) (seq 0 n)) x00 (nth 0%nat buf x00))
      by (rewrite length_map, length_seq; lia).
    rewrite (map_nth (fun i => nth i buf x00)).
    rewrite seq_nth by lia. reflexivity.
Qed.

Lemma cycle_small buf bufsz n :
  0 <= n <= bufsz -> bufsz <= Z.of_nat (length buf) ->
  cycle buf bufsz n = slice buf 0 n.
Proof.
  intros Hn Hb. unfold slice, cycle. change (Z.to_nat 0) with 0%nat. cbn [skipn].
  rewrite firstn_as_map by lia. apply map_ext_in.
  intros i Hi. apply in_seq in Hi. rewrite Nat.mod_small by lia. reflexivity.
Qed.

Lemma seq_shift_add (b m : nat) : seq b m = map (fun i => (i + b)%nat) (seq 0 m).
Proof.
  revert b. induction m as [|m IH]; intros b; [reflexivity|].
  cbn [seq map Nat.add]. f_equal.
  rewrite <- (seq_shift m 0), map_map.
  rewrite (IH (S b)). apply map_ext. intros i. lia.
Qed.

Lemma cycle_step buf bufsz m :
  0 < bufsz -> 0 <= m ->
  cycle buf bufsz (bufsz + m) = cycle buf bufsz bufsz ++ cycle buf bufsz m.
Proof.
  intros Hb Hm. unfold cycle.
  replace (Z.to_nat (bufsz + m)) with (Z.to_nat bufsz + Z.to_nat m)%nat by lia.
  rewrite seq_app, map_app. f_equal. cbn [Nat.add].
  rewrite (seq_shift_add (Z.to_nat bufsz)), map_map. apply map_ext.
  intros i. f_equal.
  replace (i + Z.to_nat bufsz)%nat with (i + 1 * Z.to_nat bufsz)%nat by lia.
  apply Nat.Div0.mod_add.
Qed.

Lemma pattern_loop_spec fuel wfuel buf bufsz :
  forall filesz w r w',
    0 < bufsz < SIZE_MOD -> bufsz <= Z.of_nat (length buf) ->
    0 <= filesz < SIZE_MOD ->
    pattern_loop fuel wfuel buf bufsz filesz w = Ret r w' ->
    exists evs,
      w_trace w' = w_trace w ++ evs /\ forallb is_write evs = true /\
      ((r = 0 /\ nwritten evs = filesz /\ transferred evs = cycle buf bufsz filesz) \/
       (r = -1 /\ ends_in_write_error evs)).
Proof.
  induction fuel as [|fuel IH]; intros filesz w r w' Hb Hlen Hn H; [discriminate|].
  cbn [pattern_loop] in H.
  destruct (Z.ltb_spec 0 filesz) as [Hpos|Hz].
  2:{ injection H as <- <-. exists []. rewrite app_nil_r.
      repeat split. left. repeat split; [cbn; lia|].
      replace filesz with 0 by lia. reflexivity. }
  set (towrite := if bufsz <? filesz then bufsz else filesz) in H.
  assert (Htw : 0 < towrite <= filesz /\ towrite <= bufsz /\
                (towrite < filesz -> towrite = bufsz)).
  { subst towrite. destruct (Z.ltb_spec bufsz filesz); lia. }
  destruct (write_data wfuel buf towrite w) as [rr w1|l] eqn:Hwd; [|discriminate].
  apply write_data_run in Hwd; [|lia].
  destruct Hwd as (evs1 & Htr1 & Hrun).
  pose proof (wd_run_writes _ _ _ _ _ Hrun) as Hwr.
  destruct (wd_run_result _ _ _ _ _ Hrun) as [-> | ->].
  - change (1 =? 0) with false in H. cbv iota in H.
    apply IH in H; [|lia|lia|rewrite size_t_small by lia; lia].
    rewrite size_t_small in H by lia.
    destruct H as (evs2 & Htr2 & Hw2 & Hres).
    pose proof (wd_run_success _ towrite 0 _ ltac:(lia) Hrun) as Hs.
    exists (evs1 ++ evs2). split; [|split].
    + rewrite Htr2, Htr1, <- !app_assoc. reflexivity.
    + rewrite forallb_app, Hwr, Hw2. reflexivity.
    + destruct Hres as [(-> & Hnw & Htd) | (-> & Herr)].
      * left. split; [reflexivity|]. split.
        -- rewrite nwritten_app, Hnw. lia.
        -- rewrite transferred_app, Htd.
           rewrite (wd_run_transferred _ _ 0 _ _ ltac:(lia) Hrun).
           replace (nwritten evs1) with towrite by lia.
           rewrite <- (cycle_small buf bufsz towrite) by lia.
           destruct (Z.eq_dec towrite filesz) as [He|Hne].
           ++ rewrite He, Z.sub_diag. unfold cycle at 2.
              cbn [Z.to_nat seq map]. apply app_nil_r.
           ++ replace towrite with bufsz by lia.
              replace filesz with (bufsz + (filesz - bufsz)) at 2 by lia.
              symmetry. apply cycle_step; lia.
      * right. split; [reflexivity|]. apply ends_in_write_error_app, Herr.
  - change (0 =? 0) with true in H. cbv iota in H. injection H as <- <-.
    exists evs1. split; [exact Htr1|]. split; [exact Hwr|].
    right. split; [reflexivity|]. apply (wd_run_ends_in_error _ _ _ _ Hrun).
Qed.

(** ** The two passes *)

Lemma sys_lseek_trace w off :
  w_trace (snd (sys_lseek w off)) = w_trace w ++ [EvLseek off (fst (sys_lseek w off))].
Proof. reflexivity. Qed.

Lemma sys_fsync_trace w :
  w_trace (snd (sys_fsync w)) = w_trace w ++ [EvFsync (fst (sys_fsync w))].
Proof. reflexivity. Qed.

Lemma random_pass_spec fuel nbytes w r w' :
  0 <= nbytes < SIZE_MOD ->
  random_pass fuel nbytes w = Ret r w' ->
  exists seg,
    w_trace w' = w_trace w ++ seg /\
    ((r = 0 /\ complete_pass nbytes Random seg) \/ (r = -1 /\ failed_pass seg)).
Proof.
  intros Hn H. unfold random_pass in H.
  pose proof (sys_lseek_trace w 0) as Hs.
  destruct (sys_lseek w 0) as [off w1]. cbn [fst snd] in Hs.
  destruct (Z.eqb_spec off 0) as [->|Hoff]; cbn [negb] in H.
  2:{ injection H as <- <-. exists [EvLseek 0 off]. split; [exact Hs|].
      right. split; [reflexivity|]. left. exists off. auto. }
  destruct (random_loop fuel fuel nbytes w1) as [rl w2|l] eqn:Hl; [|discriminate].
  apply random_loop_spec in Hl; [|exact Hn].
  destruct Hl as (body & Htr & Hio & [(-> & Hnw & Htd) | (-> & Herr)]).
  - change (0 =? -1) with false in H. cbv iota in H.
    pose proof (sys_fsync_trace w2) as Hf.
    destruct (sys_fsync w2) as [fr w3]. cbn [fst snd] in Hf.
    injection H as <- <-.
    exists (EvLseek 0 0 :: body ++ [EvFsync fr]). split.
    + rewrite Hf, Htr, Hs, <- !app_assoc. reflexivity.
    + left. split; [reflexivity|]. exists body, fr. auto.
  - change (-1 =? -1) with true in H. cbv iota in H. injection H as <- <-.
    exists (EvLseek 0 0 :: body). split.
    + rewrite Htr, Hs, <- !app_assoc. reflexivity.
    + right. split; [reflexivity|]. right. exists body. auto.
Qed.

Lemma pattern_pass_spec fuel buf bufsz filesz w r w' :
  0 < bufsz < SIZE_MOD -> bufsz <= Z.of_nat (length buf) ->
  0 <= filesz < SIZE_MOD ->
  pattern_pass fuel buf bufsz filesz w = Ret r w' ->
  exists seg,
    w_trace w' = w_trace w ++ seg /\
    ((r = 0 /\
      exists body fr,
        seg = EvLseek 0 0 :: body ++ [EvFsync fr] /\ nwritten body = filesz /\
        forallb is_write body = true /\
        transferred body = cycle buf bufsz filesz) \/
     (r = -1 /\ failed_pass seg)).
Proof.
  intros Hb Hlen Hn H. unfold pattern_pass in H.
  destruct (Z.eqb_spec bufsz 0) as [Hz|_]; [lia|].
  pose proof (sys_lseek_trace w 0) as Hs.
  destruct (sys_lseek w 0) as [off w1]. cbn [fst snd] in Hs.
  destruct (Z.eqb_spec off 0) as [->|Hoff]; cbn [negb] in H.
  2:{ injection H as <- <-. exists [EvLseek 0 off]. split; [exact Hs|].
      right. split; [reflexivity|]. left. exists off. auto. }
  destruct (pattern_loop fuel fuel buf bufsz filesz w1) as [rl w2|l] eqn:Hl;
    [|discriminate].
  apply pattern_loop_spec in Hl; [|exact Hb|exact Hlen|exact Hn].
  destruct Hl as (body & Htr & Hwr & [(-> & Hnw & Htd) | (-> & Herr)]).
  - change (0 =? -1) with false in H. cbv iota in H.
    pose proof (sys_fsync_trace w2) as Hf.
    destruct (sys_fsync w2) as [fr w3]. cbn [fst snd] in Hf.
    injection H as <- <-.
    exists (EvLseek 0 0 :: body ++ [EvFsync fr]). split.
    + rewrite Hf, Htr, Hs, <- !app_assoc. reflexivity.
    + left. split; [reflexivity|]. exists body, fr. auto.
  - change (-1 =? -1) with true in H. cbv iota in H. injection H as <- <-.
    exists (EvLseek 0 0 :: body). split.
    + rewrite Htr, Hs, <- !app_assoc. reflexivity.
    + right. split; [reflexivity|]. right. exists body.
      split; [reflexivity|]. split; [apply forallb_write_io, Hwr|exact Herr].
Qed.

(** ** Filling the scratch buffer *)

Lemma cycle_tile buf bufsz p n k :
  (0 < length p)%nat -> Z.to_nat bufsz = (length p * k)%nat -> (0 < k)%nat ->
  (forall i, (i < Z.to_nat bufsz)%nat -> nth i buf x00 = nth (i mod length p) p x00) ->
  cycle buf bufsz n = tile p n.
Proof.
  intros Hp Hk Hk0 Hnth. unfold cycle, tile. apply map_ext. intros i.
  rewrite Hnth by (apply Nat.mod_upper_bound; lia).
  f_equal. rewrite Hk, Nat.Div0.mod_mul_r.
  rewrite Nat.mul_comm, Nat.Div0.mod_add. apply Nat.Div0.mod_mod.
Qed.

Lemma memset_length buf c n :
  0 <= n <= Z.of_nat (length buf) -> length (memset buf c n) = length buf.
Proof.
  intros Hn. unfold memset. rewrite length_app, repeat_length, length_skipn. lia.
Qed.

Lemma memset_nth buf c n i :
  (i < Z.to_nat n)%nat -> nth i (memset buf c n) x00 = c.
Proof.
  intros Hi. unfold memset. rewrite app_nth1 by (rewrite repeat_length; exact Hi).
  apply nth_repeat_lt, Hi.
Qed.

Lemma memcpy_length buf off src n :
  0 <= off -> 0 <= n -> off + n <= Z.of_nat (length buf) ->
  n <= Z.of_nat (length src) ->
  length (memcpy buf off src n) = length buf.
Proof.
  intros Ho Hn Hb Hs. unfold memcpy.
  rewrite !length_app, !length_firstn, length_skipn. lia.
Qed.

Lemma memcpy_nth buf off src n i :
  0 <= off -> 0 <= n -> off + n <= Z.of_nat (length buf) ->
  n <= Z.of_nat (length src) ->
  nth i (memcpy buf off src n) x00 =
  if (i <? Z.to_nat off)%nat then nth i buf x00
  else if (i <? Z.to_nat (off + n))%nat then nth (i - Z.to_nat off) src x00
  else nth i buf x00.
Proof.
  intros Ho Hn Hb Hs. unfold memcpy.
  destruct (Nat.ltb_spec i (Z.to_nat off)) as [H1|H1].
  - rewrite app_nth1 by (rewrite length_firstn; lia).
    rewrite nth_firstn.
    replace (i <? Z.to_nat off)%nat with true by (symmetry; apply Nat.ltb_lt; lia).
    reflexivity.
  - rewrite app_nth2 by (rewrite length_firstn; lia).
    rewrite length_firstn.
    replace (Nat.min (Z.to_nat off) (length buf)) with (Z.to_nat off) by lia.
    destruct (Nat.ltb_spec i (Z.to_nat (off + n))) as [H2|H2].
    + rewrite app_nth1 by (rewrite length_firstn; lia).
      rewrite nth_firstn.
      replace (i - Z.to_nat off <? Z.to_nat n)%nat with true
        by (symmetry; apply Nat.ltb_lt; lia).
      reflexivity.
    + rewrite app_nth2 by (rewrite length_firstn; lia).
      rewrite length_firstn, nth_skipn. f_equal. lia.
Qed.

(** After [k] rounds of the tiling loop the first [k * patternsz] bytes
    repeat the pattern and the buffer has kept its length. *)
Lemma tile_rounds buf pattern patternsz (k : nat) :
  0 < patternsz -> Z.of_nat (length pattern) = patternsz ->
  Z.of_nat k * patternsz <= Z.of_nat (length buf) ->
  let b := fold_left
             (fun b i => memcpy b (Z.of_nat i * patternsz) pattern patternsz)
             (seq 0 k) buf in
  length b = length buf /\
  forall i, (i < k * length pattern)%nat ->
            nth i b x00 = nth (i mod length pattern) pattern x00.
Proof.
  intros Hp Hlen. induction k as [|k IH]; intros Hk b.
  - subst b. cbn [seq fold_left]. split; [reflexivity|]. intros i Hi. lia.
  - subst b. rewrite seq_S, fold_left_app. cbn [fold_left Nat.add].
    destruct IH as [IHl IHn]; [lia|].
    set (b0 := fold_left _ (seq 0 k) buf) in *.
    split.
    + rewrite memcpy_length; lia.
    + intros i Hi. rewrite memcpy_nth by lia.
      destruct (Nat.ltb_spec i (Z.to_nat (Z.of_nat k * patternsz))) as [H1|H1].
      * apply IHn. nia.
      * replace (i <? Z.to_nat (Z.of_nat k * patternsz + patternsz))%nat with true
          by (symmetry; apply Nat.ltb_lt; nia).
        f_equal.
        replace (Z.to_nat (Z.of_nat k * patternsz)) with (k * length pattern)%nat
          in * by nia.
        replace i with ((i - k * length pattern) + k * length pattern)%nat at 2 by lia.
        rewrite Nat.Div0.mod_add. symmetry. apply Nat.mod_small. lia.
Qed.

Lemma tile_buf_spec buf pattern patternsz count :
  0 < patternsz -> Z.of_nat (length pattern) = patternsz -> 0 <= count ->
  count * patternsz <= Z.of_nat (length buf) ->
  length (tile_buf buf pattern patternsz count) = length buf /\
  forall i, (i < Z.to_nat (patternsz * count))%nat ->
            nth i (tile_buf buf pattern patternsz count) x00
            = nth (i mod length pattern) pattern x00.
Proof.
  intros Hp Hlen Hc Hb. unfold tile_buf.
  destruct (tile_rounds buf pattern patternsz (Z.to_nat count) Hp Hlen) as [H1 H2];
    [lia|].
  split; [exact H1|]. intros i Hi. apply H2. nia.
Qed.

(** ** Plans *)

Lemma plan_trace_result S ds evs r : plan_trace S ds evs r -> r = 0 \/ r = -1.
Proof. induction 1; auto. Qed.

Lemma plan_trace_app_ok S ds1 e1 ds2 e2 r :
  plan_trace S ds1 e1 0 -> plan_trace S ds2 e2 r ->
  plan_trace S (ds1 ++ ds2) (e1 ++ e2) r.
Proof.
  intros H1 H2. remember 0 as r0 eqn:Hr0.
  induction H1 as [|d ds seg evs r1 Hc Hp IH|d ds seg Hf]; cbn [app].
  - exact H2.
  - rewrite <- app_assoc. apply pt_pass; [exact Hc|]. apply IH, Hr0.
  - discriminate.
Qed.

Lemma plan_trace_app_fail S ds1 e1 ds2 :
  plan_trace S ds1 e1 (-1) -> plan_trace S (ds1 ++ ds2) e1 (-1).
Proof.
  intros H1. remember (-1) as r0 eqn:Hr0.
  induction H1 as [|d ds seg evs r1 Hc Hp IH|d ds seg Hf]; cbn [app].
  - discriminate.
  - apply pt_pass; [exact Hc|]. apply IH, Hr0.
  - apply pt_fail, Hf.
Qed.

Lemma plan_one S d seg r :
  (r = 0 /\ complete_pass S d seg) \/ (r = -1 /\ failed_pass seg) ->
  plan_trace S [d] seg r.
Proof.
  intros [(-> & Hc) | (-> & Hf)].
  - rewrite <- (app_nil_r seg). apply pt_pass; [exact Hc|apply pt_end].
  - apply pt_fail, Hf.
Qed.

Lemma zrange_S pass n : zrange pass (S n) = pass :: zrange (pass + 1) n.
Proof.
  unfold zrange. cbn [seq map]. f_equal; [lia|].
  rewrite <- seq_shift, map_map. apply map_ext. intros k. lia.
Qed.

Lemma for_pass_runs S body (d : Z -> pass_desc) n :
  forall pass,
    (forall i, pass <= i < pass + Z.of_nat n -> runs_plan S [d i] (body i)) ->
    runs_plan S (map d (zrange pass n)) (for_pass n pass body).
Proof.
  induction n as [|n IH]; intros pass Hbody buf w r buf' w' Hlen H.
  - cbn [for_pass] in H. injection H as <- <- <-. split; [exact Hlen|].
    exists []. rewrite app_nil_r. split; [reflexivity|apply pt_end].
  - cbn [for_pass] in H. rewrite zrange_S. cbn [map].
    destruct (body pass buf w) as [[r1 buf1] w1|l] eqn:Hb; [|discriminate].
    apply (Hbody pass ltac:(lia)) in Hb; [|exact Hlen].
    destruct Hb as (Hlen1 & evs1 & Htr1 & Hp1).
    destruct (plan_trace_result _ _ _ _ Hp1) as [-> | ->].
    + change (0 =? -1) with false in H. cbv iota in H.
      apply IH in H; [|intros i Hi; apply Hbody; lia|exact Hlen1].
      destruct H as (Hlen' & evs2 & Htr2 & Hp2). split; [exact Hlen'|].
      exists (evs1 ++ evs2). split.
      * rewrite Htr2, Htr1, <- app_assoc. reflexivity.
      * apply (plan_trace_app_ok S [d pass]); assumption.
    + change (-1 =? -1) with true in H. cbv iota in H. injection H as <- <- <-.
      split; [exact Hlen1|]. exists evs1. split; [exact Htr1|].
      apply (plan_trace_app_fail S [d pass]), Hp1.
Qed.

Lemma and_then_ends S ds1 ds2 stage k :
  runs_plan S ds1 stage -> ends_plan S ds2 k ->
  ends_plan S (ds1 ++ ds2) (fun buf w => and_then (stage buf w) k).
Proof.
  intros Hs Hk buf w r w' Hlen H. unfold and_then in H.
  destruct (stage buf w) as [[r1 buf1] w1|l] eqn:Hst; [|discriminate].
  apply Hs in Hst; [|exact Hlen].
  destruct Hst as (Hlen1 & evs1 & Htr1 & Hp1).
  destruct (plan_trace_result _ _ _ _ Hp1) as [-> | ->].
  - change (0 =? -1) with false in H. cbv iota in H.
    apply Hk in H; [|exact Hlen1]. destruct H as (evs2 & Htr2 & Hp2).
    exists (evs1 ++ evs2). split.
    + rewrite Htr2, Htr1, <- app_assoc. reflexivity.
    + apply plan_trace_app_ok; assumption.
  - change (-1 =? -1) with true in H. cbv iota in H. injection H as <- <-.
    exists evs1. split; [exact Htr1|]. apply plan_trace_app_fail, Hp1.
Qed.

(** ** The stages of [spc_fd_wipe] *)

Lemma random_body_runs fuel nbytes pass :
  0 <= nbytes < SIZE_MOD ->
  runs_plan nbytes [Random] (random_body fuel nbytes pass).
Proof.
  intros Hn buf w r buf' w' Hlen H. unfold random_body, with_buf in H.
  destruct (random_pass fuel nbytes w) as [r1 w1|l] eqn:Hp; [|discriminate].
  injection H as <- <- <-. split; [exact Hlen|].
  apply random_pass_spec in Hp; [|exact Hn]. destruct Hp as (seg & Htr & Hres).
  exists seg. split; [exact Htr|]. apply plan_one, Hres.
Qed.

Lemma single_body_runs fuel nbytes pass :
  0 <= nbytes < SIZE_MOD ->
  runs_plan nbytes [Pattern [nth (Z.to_nat pass) single_pats x00]]
    (single_body fuel nbytes pass).
Proof.
  intros Hn buf w r buf' w' Hlen H. unfold single_body, with_buf in H.
  remember (nth (Z.to_nat pass) single_pats x00) as c eqn:Hc.
  assert (Hb : length (memset buf c SPC_WIPE_BUFSIZE) = length buf)
    by (apply memset_length; unfold SPC_WIPE_BUFSIZE in *; lia).
  assert (Hnth : forall i, (i < Z.to_nat SPC_WIPE_BUFSIZE)%nat ->
                           nth i (memset buf c SPC_WIPE_BUFSIZE) x00 = c)
    by (intros i Hi; apply memset_nth, Hi).
  remember (memset buf c SPC_WIPE_BUFSIZE) as b eqn:Hb0. clear Hb0.
  destruct (pattern_pass fuel b SPC_WIPE_BUFSIZE nbytes w) as [r1 w1|l] eqn:Hp;
    [|discriminate].
  injection H as <- <- <-. split; [lia|].
  apply pattern_pass_spec in Hp;
    [|unfold SPC_WIPE_BUFSIZE, SIZE_MOD; lia|lia|exact Hn].
  destruct Hp as (seg & Htr & Hres).
  exists seg. split; [exact Htr|]. apply plan_one.
  destruct Hres as [(-> & body & fr & Hseg & Hnw & Hwr & Htd) | Hf]; [left|right; exact Hf].
  split; [reflexivity|]. exists body, fr. split; [exact Hseg|]. split; [exact Hnw|].
  split; [exact Hwr|]. rewrite Htd.
  apply (cycle_tile b SPC_WIPE_BUFSIZE [c] nbytes (Z.to_nat SPC_WIPE_BUFSIZE)).
  - cbn [length]. lia.
  - cbn [length]. lia.
  - unfold SPC_WIPE_BUFSIZE. lia.
  - intros i Hi. cbn [length]. rewrite Nat.mod_1_r. cbn [nth].
    apply Hnth, Hi.
Qed.

Lemma triple_body_runs fuel nbytes pass p :
  0 <= nbytes < SIZE_MOD ->
  nth (Z.to_nat pass) triple_pats [] = p -> length p = 3%nat ->
  runs_plan nbytes [Pattern p] (triple_body fuel nbytes 3 pass).
Proof.
  intros Hn Hp Hp3 buf w r buf' w' Hlen H. unfold triple_body, with_buf in H.
  rewrite Hp in H. change (SPC_WIPE_BUFSIZE / 3) with 1365 in H.
  change (3 * 1365) with 4095 in H.
  destruct (tile_buf_spec buf p 3 1365) as [Hb Hnth];
    [lia|lia|lia|unfold SPC_WIPE_BUFSIZE in Hlen; lia|].
  remember (tile_buf buf p 3 1365) as b eqn:Hb0. clear Hb0.
  destruct (pattern_pass fuel b 4095 nbytes w) as [r1 w1|l] eqn:Hpp; [|discriminate].
  injection H as <- <- <-. split; [lia|].
  apply pattern_pass_spec in Hpp;
    [|unfold SIZE_MOD; lia|unfold SPC_WIPE_BUFSIZE in Hlen; lia|exact Hn].
  destruct Hpp as (seg & Htr & Hres).
  exists seg. split; [exact Htr|]. apply plan_one.
  destruct Hres as [(-> & body & fr & Hseg & Hnw & Hwr & Htd) | Hf]; [left|right; exact Hf].
  split; [reflexivity|]. exists body, fr. split; [exact Hseg|]. split; [exact Hnw|].
  split; [exact Hwr|]. rewrite Htd.
  apply (cycle_tile b 4095 p nbytes 1365).
  - lia.
  - rewrite Hp3. reflexivity.
  - lia.
  - intros i Hi. apply Hnth. change (3 * 1365) with 4095. exact Hi.
Qed.

(** ** The whole of [spc_fd_wipe] *)

Lemma triple_pats_length i :
  0 <= i < 6 -> length (nth (Z.to_nat i) triple_pats []) = 3%nat.
Proof.
  intros Hi.
  assert (H : i = 0 \/ i = 1 \/ i = 2 \/ i = 3 \/ i = 4 \/ i = 5) by lia.
  destruct H as [-> | [-> | [-> | [-> | [-> | ->]]]]]; reflexivity.
Qed.

(** What follows the two tests on [fstat]'s result runs the whole plan. *)
Lemma wipe_tail_ends fuel nbytes :
  0 <= nbytes < SIZE_MOD ->
  ends_plan nbytes gutmann_plan
    (fun buf w =>
       check buf, w <- for_pass 4 0 (random_body fuel nbytes) buf w ;;
       check buf, w <- single_body fuel nbytes 5 buf w ;;
       check buf, w <- single_body fuel nbytes 10 buf w ;;
       check buf, w <- for_pass 3 0 (triple_body fuel nbytes 3) buf w ;;
       check buf, w <- for_pass 16 0 (single_body fuel nbytes) buf w ;;
       check buf, w <- for_pass 6 0 (triple_body fuel nbytes 3) buf w ;;
       check buf, w <- for_pass 4 0 (random_body fuel nbytes) buf w ;;
       Ret 0 w).
Proof.
  intros Hn.
  pose (d1 := fun i : Z => Pattern [nth (Z.to_nat i) single_pats x00]).
  pose (d3 := fun i : Z => Pattern (nth (Z.to_nat i) triple_pats [])).
  pose (dr := fun _ : Z => Random).
  change gutmann_plan with
    (map dr (zrange 0 4) ++ [d1 5] ++ [d1 10] ++ map d3 (zrange 0 3)
       ++ map d1 (zrange 0 16) ++ map d3 (zrange 0 6) ++ map dr (zrange 0 4) ++ []).
  assert (Hr : forall n, runs_plan nbytes (map dr (zrange 0 n))
                           (for_pass n 0 (random_body fuel nbytes))).
  { intros n. apply for_pass_runs. intros i _. apply random_body_runs, Hn. }
  assert (H1 : forall i, runs_plan nbytes [d1 i] (single_body fuel nbytes i)).
  { intros i. apply single_body_runs, Hn. }
  assert (H3 : forall n, (n <= 6)%nat ->
                         runs_plan nbytes (map d3 (zrange 0 n))
                           (for_pass n 0 (triple_body fuel nbytes 3))).
  { intros n Hle. apply for_pass_runs. intros i Hi.
    apply triple_body_runs; [exact Hn|reflexivity|]. apply triple_pats_length. lia. }
  apply and_then_ends; [apply Hr|].
  apply and_then_ends; [apply H1|].
  apply and_then_ends; [apply H1|].
  apply and_then_ends; [apply H3; lia|].
  apply and_then_ends; [apply for_pass_runs; intros i _; apply H1|].
  apply and_then_ends; [apply H3; lia|].
  apply and_then_ends; [apply Hr|].
  intros buf w r w' _ H. injection H as <- <-.
  exists []. rewrite app_nil_r. split; [reflexivity|apply pt_end].
Qed.

Lemma repeat_buf_length :
  Z.of_nat (length (repeat x00 (Z.to_nat SPC_WIPE_BUFSIZE))) = SPC_WIPE_BUFSIZE.
Proof. rewrite repeat_length. unfold SPC_WIPE_BUFSIZE. lia. Qed.

Lemma spc_fd_wipe_run fuel w r w' :
  spc_fd_wipe fuel w = Ret r w' ->
  (stat_ok w = false /\ r = -1 /\ new_events w w' = [EvFstat (-1) 0]) \/
  (stat_ok w = true /\ file_now w = [] /\ r = 0 /\
   new_events w w' = [EvFstat 0 0]) \/
  (stat_ok w = true /\ file_now w <> [] /\
   exists evs,
     new_events w w' = EvFstat 0 (Z.of_nat (length (file_now w))) :: evs /\
     plan_trace (snapshot w) gutmann_plan evs r).
Proof.
  intros H. unfold spc_fd_wipe, sys_fstat in H. unfold stat_ok.
  destruct (e_stat (w_env w) (w_clock w)).
  - right. change (0 =? -1) with false in H. cbv beta iota zeta in H.
    destruct (file_now w) as [|b file] eqn:Hfile.
    + left. change (Z.of_nat (length [])) with 0 in H.
      change (0 =? 0) with true in H. cbv iota in H. injection H as <- <-.
      repeat split. apply new_events_app. reflexivity.
    + right. split; [reflexivity|]. split; [discriminate|].
      destruct (Z.eqb_spec (Z.of_nat (length (b :: file))) 0) as [Hz|_];
        [cbn [length] in Hz; lia|].
      pose proof (wipe_tail_ends fuel (snapshot w) (size_t_range _)) as Hends.
      unfold snapshot in Hends. rewrite Hfile in Hends.
      apply Hends in H; [|apply repeat_buf_length].
      destruct H as (evs & Htr & Hplan). cbn [w_trace] in Htr.
      exists evs. split.
      * apply new_events_app. rewrite Htr, <- app_assoc. reflexivity.
      * unfold snapshot. rewrite Hfile. exact Hplan.
  - left. change (-1 =? -1) with true in H. cbv beta iota zeta in H.
    injection H as <- <-. repeat split. apply new_events_app. reflexivity.
Qed.

(** ** Cutting a trace into passes *)

Lemma cut_concat evs : evs = fst (cut evs) ++ concat (snd (cut evs)).
Proof.
  induction evs as [|ev evs IH]; [reflexivity|].
  cbn [cut]. destruct (cut evs) as [pre segs]. cbn [fst snd] in IH.
  destruct (is_seek ev); cbn [fst snd concat app]; rewrite IH at 1; reflexivity.
Qed.

Lemma cut_app_no_seek pre evs :
  no_seek pre = true ->
  cut (pre ++ evs) = (pre ++ fst (cut evs), snd (cut evs)).
Proof.
  induction pre as [|ev pre IH]; intros H.
  - cbn [app]. destruct (cut evs); reflexivity.
  - unfold no_seek in H. cbn [forallb] in H. apply andb_true_iff in H.
    destruct H as [H1 H2]. cbn [app cut]. rewrite (IH H2).
    destruct (is_seek ev); [discriminate|reflexivity].
Qed.

Lemma cut_pass ev body evs :
  is_seek ev = true -> no_seek body = true -> fst (cut evs) = [] ->
  cut ((ev :: body) ++ evs) = ([], (ev :: body) :: snd (cut evs)).
Proof.
  intros Hs Hb He. cbn [app cut]. rewrite (cut_app_no_seek _ _ Hb), Hs, He.
  rewrite app_nil_r. reflexivity.
Qed.

Lemma no_seek_io body : forallb is_io body = true -> no_seek body = true.
Proof.
  unfold no_seek. induction body as [|ev body IH]; cbn [forallb]; [reflexivity|].
  intros H. apply andb_true_iff in H. destruct H as [H1 H2]. rewrite (IH H2).
  destruct ev; try discriminate; reflexivity.
Qed.

Lemma no_seek_app a b : no_seek (a ++ b) = no_seek a && no_seek b.
Proof. unfold no_seek. apply forallb_app. Qed.

Lemma complete_pass_io S d seg :
  complete_pass S d seg ->
  exists body fr,
    seg = EvLseek 0 0 :: body ++ [EvFsync fr] /\ forallb is_io body = true /\
    nwritten body = S.
Proof.
  intros (body & fr & Hseg & Hnw & Hd). exists body, fr.
  split; [exact Hseg|]. split; [|exact Hnw].
  destruct d; [apply Hd|apply forallb_write_io, Hd].
Qed.

Lemma complete_pass_shape S d seg :
  complete_pass S d seg ->
  exists rest, seg = EvLseek 0 0 :: rest /\ no_seek rest = true.
Proof.
  intros H. destruct (complete_pass_io _ _ _ H) as (body & fr & -> & Hio & _).
  exists (body ++ [EvFsync fr]). split; [reflexivity|].
  rewrite no_seek_app, (no_seek_io _ Hio). reflexivity.
Qed.

Lemma failed_pass_shape seg :
  failed_pass seg ->
  exists ret rest, seg = EvLseek 0 ret :: rest /\ no_seek rest = true.
Proof.
  intros [(ret & _ & ->) | (body & -> & Hio & _)].
  - exists ret, []. split; reflexivity.
  - exists 0, body. split; [reflexivity|apply no_seek_io, Hio].
Qed.

(** The passes of a plan's trace are the passes the plan ran. *)
Lemma plan_trace_cut S ds evs r :
  plan_trace S ds evs r ->
  fst (cut evs) = [] /\
  ((r = 0 /\ Forall2 (complete_pass S) ds (passes_of evs)) \/
   (r = -1 /\
    exists done seg,
      passes_of evs = done ++ [seg] /\ (length done < length ds)%nat /\
      Forall2 (complete_pass S) (firstn (length done) ds) done /\
      failed_pass seg)).
Proof.
  induction 1 as [|d ds seg evs r Hc Hp IH|d ds seg Hf].
  - split; [reflexivity|]. left. split; [reflexivity|constructor].
  - destruct IH as [Hpre IH].
    destruct (complete_pass_shape _ _ _ Hc) as (rest & Hseg & Hns).
    assert (Hcut : cut (seg ++ evs) = ([], seg :: snd (cut evs))).
    { rewrite Hseg. apply cut_pass; [reflexivity|exact Hns|exact Hpre]. }
    unfold passes_of. rewrite Hcut. cbn [fst snd]. split; [reflexivity|].
    destruct IH as [(-> & Hall) | (-> & done & sg & Hpo & Hlen & Hall & Hf)].
    + left. split; [reflexivity|]. constructor; assumption.
    + right. split; [reflexivity|]. exists (seg :: done), sg.
      unfold passes_of in Hpo. rewrite Hpo. cbn [length firstn app].
      split; [reflexivity|]. split; [lia|]. split; [|exact Hf].
      constructor; assumption.
  - destruct (failed_pass_shape _ Hf) as (ret & rest & Hseg & Hns).
    assert (Hcut : cut seg = ([], [seg])).
    { rewrite <- (app_nil_r seg) at 1. rewrite Hseg.
      apply cut_pass; [reflexivity|exact Hns|reflexivity]. }
    unfold passes_of. rewrite Hcut. cbn [fst snd]. split; [reflexivity|].
    right. split; [reflexivity|]. exists [], seg. cbn [length firstn app].
    split; [reflexivity|]. split; [lia|]. split; [constructor|exact Hf].
Qed.

Lemma passes_of_fstat rc sz evs :
  passes_of (EvFstat rc sz :: evs) = passes_of evs.
Proof. unfold passes_of. cbn [cut]. destruct (cut evs). reflexivity. Qed.

Lemma gutmann_plan_length : length gutmann_plan = 35%nat.
Proof. reflexivity. Qed.

(** A wipe that returns, seen through the passes of its trace. *)
Lemma spc_fd_wipe_passes fuel w r w' :
  spc_fd_wipe fuel w = Ret r w' -> file_now w <> [] -> stat_ok w = true ->
  exists evs,
    new_events w w' = EvFstat 0 (Z.of_nat (length (file_now w))) :: evs /\
    evs = concat (passes_of (new_events w w')) /\
    ((r = 0 /\
      Forall2 (complete_pass (snapshot w)) gutmann_plan
        (passes_of (new_events w w'))) \/
     (r = -1 /\
      exists done seg,
        passes_of (new_events w w') = done ++ [seg] /\
        (length done < 35)%nat /\
        Forall2 (complete_pass (snapshot w)) (firstn (length done) gutmann_plan)
          done /\
        failed_pass seg)).
Proof.
  intros H Hne Hok.
  destruct (spc_fd_wipe_run _ _ _ _ H) as [(Hs & _) | [(_ & He & _) | (_ & _ & evs & Hev & Hp)]].
  - rewrite Hok in Hs. discriminate.
  - contradiction.
  - exists evs. rewrite Hev, passes_of_fstat.
    destruct (plan_trace_cut _ _ _ _ Hp) as [Hpre Hres].
    split; [reflexivity|]. split.
    + rewrite (cut_concat evs) at 1. rewrite Hpre. reflexivity.
    + exact Hres.
Qed.

Lemma wipe_success_stat fuel w w' :
  spc_fd_wipe fuel w = Ret 0 w' -> stat_ok w = true.
Proof.
  intros H.
  destruct (spc_fd_wipe_run _ _ _ _ H) as [(_ & Hr & _) | [(Hs & _) | (Hs & _)]];
    [discriminate|exact Hs|exact Hs].
Qed.

(** ** Counting the system calls of a pass *)

Lemma filter_io_none (f : event -> bool) body :
  (forall ev, is_io ev = true -> f ev = false) ->
  forallb is_io body = true -> filter f body = [].
Proof.
  intros Hf. induction body as [|ev body IH]; cbn [forallb filter]; [reflexivity|].
  intros H. apply andb_true_iff in H. destruct H as [H1 H2].
  rewrite (Hf ev H1). apply IH, H2.
Qed.

Lemma count_ev_app f a b : count_ev f (a ++ b) = (count_ev f a + count_ev f b)%nat.
Proof. unfold count_ev. rewrite filter_app, length_app. reflexivity. Qed.

Lemma complete_pass_counts S d seg :
  complete_pass S d seg ->
  count_ev is_seek seg = 1%nat /\ count_ev is_fsync seg = 1%nat /\
  count_ev is_fstat seg = 0%nat.
Proof.
  intros H. destruct (complete_pass_io _ _ _ H) as (body & fr & -> & Hio & _).
  unfold count_ev. cbn [filter is_seek is_fsync is_fstat].
  rewrite !filter_app. cbn [filter is_seek is_fsync is_fstat].
  rewrite !(filter_io_none _ body) by
    (try exact Hio; intros [] Hev; try discriminate; reflexivity).
  repeat split.
Qed.

Lemma complete_passes_counts S ds segs :
  Forall2 (complete_pass S) ds segs ->
  length segs = length ds /\
  count_ev is_seek (concat segs) = length ds /\
  count_ev is_fsync (concat segs) = length ds /\
  count_ev is_fstat (concat segs) = 0%nat.
Proof.
  induction 1 as [|d seg ds segs Hc Hall IH]; [repeat split|].
  destruct IH as (I0 & I1 & I2 & I3).
  destruct (complete_pass_counts _ _ _ Hc) as (C1 & C2 & C3).
  cbn [concat length]. rewrite !count_ev_app, I0, I1, I2, I3, C1, C2, C3.
  repeat split.
Qed.

Lemma count_ev_zero f evs : count_ev f evs = 0%nat -> filter f evs = [].
Proof. unfold count_ev. apply length_zero_iff_nil. Qed.

(** ** Two sample runs *)

Lemma rough3_run :
  spc_fd_wipe 6 w_rough3 = Ret 0 (world_of (spc_fd_wipe 6 w_rough3) w_rough3).
Proof. vm_compute. reflexivity. Qed.

Lemma calm3_run :
  spc_fd_wipe 2 w_calm3 = Ret 0 (world_of (spc_fd_wipe 2 w_calm3) w_calm3).
Proof. vm_compute. reflexivity. Qed.

Lemma rough3_not_empty : file_now w_rough3 <> [].
Proof. vm_compute. discriminate. Qed.

Lemma calm3_not_empty : file_now w_calm3 <> [].
Proof. vm_compute. discriminate. Qed.


(** ** Failure *)

Lemma last_event_app a b : b <> [] -> last_event (a ++ b) = last_event b.
Proof.
  intros Hb. unfold last_event. induction a as [|x a IH]; [reflexivity|].
  cbn [app]. destruct (a ++ b) eqn:Hab.
  - destruct a; [cbn in Hab; contradiction|discriminate].
  - rewrite <- IH. reflexivity.
Qed.

Lemma last_event_cons ev evs : evs <> [] -> last_event (ev :: evs) = last_event evs.
Proof. intros H. apply (last_event_app [ev]), H. Qed.

Lemma failed_pass_not_nil seg : failed_pass seg -> seg <> [].
Proof. intros [(ret & _ & ->) | (body & -> & _)]; discriminate. Qed.

(** A pass that failed ends at the system call that failed. *)
Lemma failed_pass_last seg :
  failed_pass seg ->
  failure_kind (last_event seg) = Some SeekError \/
  failure_kind (last_event seg) = Some WriteError.
Proof.
  intros [(ret & Hret & ->) | (body & -> & _ & pre & b & c & d & e & -> & He)].
  - left. unfold last_event. cbn [last failure_kind].
    destruct (Z.eqb_spec ret 0); [contradiction|reflexivity].
  - right. rewrite last_event_cons by (destruct pre; discriminate).
    unfold last_event. rewrite last_last. cbn [failure_kind].
    change (-1 <? 0) with true. destruct (Z.eqb_spec e EINTR); [contradiction|reflexivity].
Qed.


(** ** The reliable writer *)

Lemma wd_run_not_nil buf nbytes written evs r :
  wd_run buf nbytes written evs r -> evs <> [].
Proof. destruct 1; discriminate. Qed.


(** ** What a pattern pass writes *)

Lemma plan_trace_one S d evs :
  plan_trace S [d] evs 0 -> complete_pass S d evs.
Proof.
  intros H. inversion H as [|d0 ds seg evs0 r Hc Hp|]; subst.
  inversion Hp; subst. rewrite app_nil_r. exact Hc.
Qed.

Lemma transferred_pass body fr :
  transferred (EvLseek 0 0 :: body ++ [EvFsync fr]) = transferred body.
Proof.
  change (transferred (EvLseek 0 0 :: body ++ [EvFsync fr]))
    with (transferred (body ++ [EvFsync fr])).
  rewrite transferred_app. apply app_nil_r.
Qed.

Lemma tile_length p n : 0 <= n -> Z.of_nat (length (tile p n)) = n.
Proof. intros Hn. unfold tile. rewrite length_map, length_seq. lia. Qed.

Lemma tile_nth p n i :
  (i < Z.to_nat n)%nat -> nth i (tile p n) x00 = nth (i mod length p) p x00.
Proof.
  intros Hi. unfold tile.
  rewrite (nth_indep _ x00 ((fun i => nth (i mod length p) p x00) 0%nat))
    by (rewrite length_map, length_seq; exact Hi).
  rewrite (map_nth (fun i => nth (i mod length p) p x00)).
  rewrite seq_nth by exact Hi. reflexivity.
Qed.

Lemma pattern_stage_output S p stage buf w buf' w' :
  runs_plan S [Pattern p] stage ->
  Z.of_nat (length buf) = SPC_WIPE_BUFSIZE ->
  stage buf w = Ret (0, buf') w' ->
  transferred (new_events w w') = tile p S /\ nwritten (new_events w w') = S.
Proof.
  intros Hs Hlen H. apply Hs in H; [|exact Hlen].
  destruct H as (_ & evs & Htr & Hp). rewrite (new_events_app _ _ _ Htr).
  apply plan_trace_one in Hp. destruct Hp as (body & fr & -> & Hnw & _ & Htd).
  rewrite transferred_pass. split; [exact Htd|].
  change (nwritten (EvLseek 0 0 :: body ++ [EvFsync fr]))
    with (nwritten (body ++ [EvFsync fr])).
  rewrite nwritten_app. cbn [nwritten fold_right]. lia.
Qed.

Lemma scratch0_length : Z.of_nat (length scratch0) = SPC_WIPE_BUFSIZE.
Proof. unfold scratch0. rewrite repeat_length. unfold SPC_WIPE_BUFSIZE. lia. Qed.


(** ** Two runs side by side *)

Section Simulation.

Variable R : world -> world -> Prop.

Hypothesis R_lseek : forall w1 w2 off,
  R w1 w2 ->
  fst (sys_lseek w1 off) = fst (sys_lseek w2 off) /\
  R (snd (sys_lseek w1 off)) (snd (sys_lseek w2 off)).

Hypothesis R_write : forall w1 w2 boff count data,
  R w1 w2 ->
  fst (sys_write w1 boff count data) = fst (sys_write w2 boff count data) /\
  R (snd (sys_write w1 boff count data)) (snd (sys_write w2 boff count data)).

(** Nothing is asked of what [fsync] returns. *)
Hypothesis R_fsync : forall w1 w2,
  R w1 w2 -> R (snd (sys_fsync w1)) (snd (sys_fsync w2)).

Hypothesis R_rand : forall w1 w2 n,
  R w1 w2 ->
  fst (spc_rand w1 n) = fst (spc_rand w2 n) /\
  R (snd (spc_rand w1 n)) (snd (spc_rand w2 n)).

Lemma write_data_loop_sim fuel buf nbytes :
  forall written w1 w2,
    R w1 w2 ->
    sim_outcome R (write_data_loop fuel buf nbytes written w1)
      (write_data_loop fuel buf nbytes written w2).
Proof.
  induction fuel as [|fuel IH]; intros written w1 w2 HR; [reflexivity|].
  cbn [write_data_loop].
  set (towrite := if SSIZE_MAX <? size_t (nbytes - written) then SSIZE_MAX
                  else size_t (nbytes - written)).
  destruct (R_write w1 w2 written towrite (slice buf written towrite) HR)
    as [Hres HR'].
  destruct (sys_write w1 written towrite (slice buf written towrite))
    as [[ret1 err1] w1'].
  destruct (sys_write w2 written towrite (slice buf written towrite))
    as [[ret2 err2] w2'].
  cbn [fst snd] in Hres, HR'. injection Hres as -> ->.
  destruct (0 <=? ret2).
  - destruct (size_t (written + ret2) <? nbytes); [apply IH, HR'|].
    split; [reflexivity|exact HR'].
  - destruct (negb (err2 =? EINTR)); [split; [reflexivity|exact HR']|].
    destruct (written <? nbytes); [apply IH, HR'|].
    split; [reflexivity|exact HR'].
Qed.

Lemma write_data_sim fuel buf nbytes w1 w2 :
  R w1 w2 ->
  sim_outcome R (write_data fuel buf nbytes w1) (write_data fuel buf nbytes w2).
Proof. apply write_data_loop_sim. Qed.

Lemma random_loop_sim fuel wfuel :
  forall nbytes w1 w2,
    R w1 w2 ->
    sim_outcome R (random_loop fuel wfuel nbytes w1)
      (random_loop fuel wfuel nbytes w2).
Proof.
  induction fuel as [|fuel IH]; intros nbytes w1 w2 HR; [reflexivity|].
  cbn [random_loop].
  destruct (0 <? nbytes); [|split; [reflexivity|exact HR]].
  set (towrite := if SPC_WIPE_BUFSIZE <? nbytes then SPC_WIPE_BUFSIZE else nbytes).
  destruct (R_rand w1 w2 towrite HR) as [Hbuf HR1].
  destruct (spc_rand w1 towrite) as [buf1 w1a].
  destruct (spc_rand w2 towrite) as [buf2 w2a].
  cbn [fst snd] in Hbuf, HR1. subst buf2.
  pose proof (write_data_sim wfuel buf1 towrite w1a w2a HR1) as Hwd.
  destruct (write_data wfuel buf1 towrite w1a) as [r1 w1b|l1];
    destruct (write_data wfuel buf1 towrite w2a) as [r2 w2b|l2];
    cbn [sim_outcome] in Hwd; try contradiction; [|exact Hwd].
  destruct Hwd as [-> HR2].
  destruct (r2 =? 0); [split; [reflexivity|exact HR2]|apply IH, HR2].
Qed.

Lemma pattern_loop_sim fuel wfuel buf bufsz :
  forall filesz w1 w2,
    R w1 w2 ->
    sim_outcome R (pattern_loop fuel wfuel buf bufsz filesz w1)
      (pattern_loop fuel wfuel buf bufsz filesz w2).
Proof.
  induction fuel as [|fuel IH]; intros filesz w1 w2 HR; [reflexivity|].
  cbn [pattern_loop].
  destruct (0 <? filesz); [|split; [reflexivity|exact HR]].
  set (towrite := if bufsz <? filesz then bufsz else filesz).
  pose proof (write_data_sim wfuel buf towrite w1 w2 HR) as Hwd.
  destruct (write_data wfuel buf towrite w1) as [r1 w1b|l1];
    destruct (write_data wfuel buf towrite w2) as [r2 w2b|l2];
    cbn [sim_outcome] in Hwd; try contradiction; [|exact Hwd].
  destruct Hwd as [-> HR2].
  destruct (r2 =? 0); [split; [reflexivity|exact HR2]|apply IH, HR2].
Qed.

Lemma random_pass_sim fuel nbytes w1 w2 :
  R w1 w2 ->
  sim_outcome R (random_pass fuel nbytes w1) (random_pass fuel nbytes w2).
Proof.
  intros HR. unfold random_pass.
  destruct (R_lseek w1 w2 0 HR) as [Hoff HR1].
  destruct (sys_lseek w1 0) as [off1 w1a]. destruct (sys_lseek w2 0) as [off2 w2a].
  cbn [fst snd] in Hoff, HR1. subst off2.
  destruct (negb (off1 =? 0)); [split; [reflexivity|exact HR1]|].
  pose proof (random_loop_sim fuel fuel nbytes w1a w2a HR1) as Hl.
  destruct (random_loop fuel fuel nbytes w1a) as [r1 w1b|l1];
    destruct (random_loop fuel fuel nbytes w2a) as [r2 w2b|l2];
    cbn [sim_outcome] in Hl; try contradiction; [|exact Hl].
  destruct Hl as [-> HR2].
  destruct (r2 =? -1); [split; [reflexivity|exact HR2]|].
  pose proof (R_fsync w1b w2b HR2) as HR3.
  destruct (sys_fsync w1b) as [f1 w1c]. destruct (sys_fsync w2b) as [f2 w2c].
  split; [reflexivity|exact HR3].
Qed.

Lemma pattern_pass_sim fuel buf bufsz filesz w1 w2 :
  R w1 w2 ->
  sim_outcome R (pattern_pass fuel buf bufsz filesz w1)
    (pattern_pass fuel buf bufsz filesz w2).
Proof.
  intros HR. unfold pattern_pass.
  destruct (bufsz =? 0); [split; [reflexivity|exact HR]|].
  destruct (R_lseek w1 w2 0 HR) as [Hoff HR1].
  destruct (sys_lseek w1 0) as [off1 w1a]. destruct (sys_lseek w2 0) as [off2 w2a].
  cbn [fst snd] in Hoff, HR1. subst off2.
  destruct (negb (off1 =? 0)); [split; [reflexivity|exact HR1]|].
  pose proof (pattern_loop_sim fuel fuel buf bufsz filesz w1a w2a HR1) as Hl.
  destruct (pattern_loop fuel fuel buf bufsz filesz w1a) as [r1 w1b|l1];
    destruct (pattern_loop fuel fuel buf bufsz filesz w2a) as [r2 w2b|l2];
    cbn [sim_outcome] in Hl; try contradiction; [|exact Hl].
  destruct Hl as [-> HR2].
  destruct (r2 =? -1); [split; [reflexivity|exact HR2]|].
  pose proof (R_fsync w1b w2b HR2) as HR3.
  destruct (sys_fsync w1b) as [f1 w1c]. destruct (sys_fsync w2b) as [f2 w2c].
  split; [reflexivity|exact HR3].
Qed.

Lemma with_buf_sim buf (o1 o2 : outcome Z) :
  sim_outcome R o1 o2 -> sim_outcome R (with_buf buf o1) (with_buf buf o2).
Proof.
  destruct o1 as [r1 w1|l1]; destruct o2 as [r2 w2|l2]; cbn [sim_outcome with_buf];
    try contradiction; try exact (fun H => H).
  intros [-> HR]. split; [reflexivity|exact HR].
Qed.

Lemma for_pass_sim body n :
  (forall pass buf w1 w2,
     R w1 w2 -> sim_outcome R (body pass buf w1) (body pass buf w2)) ->
  forall pass buf w1 w2,
    R w1 w2 ->
    sim_outcome R (for_pass n pass body buf w1) (for_pass n pass body buf w2).
Proof.
  intros Hbody. induction n as [|n IH]; intros pass buf w1 w2 HR.
  - split; [reflexivity|exact HR].
  - cbn [for_pass]. pose proof (Hbody pass buf w1 w2 HR) as Hb.
    destruct (body pass buf w1) as [[r1 b1] w1a|l1];
      destruct (body pass buf w2) as [[r2 b2] w2a|l2];
      cbn [sim_outcome] in Hb; try contradiction; [|exact Hb].
    destruct Hb as [Heq HR1]. injection Heq as -> ->.
    destruct (r2 =? -1); [split; [reflexivity|exact HR1]|apply IH, HR1].
Qed.

Lemma and_then_sim (o1 o2 : outcome (Z * list byte)) k :
  sim_outcome R o1 o2 ->
  (forall buf w1 w2, R w1 w2 -> sim_outcome R (k buf w1) (k buf w2)) ->
  sim_outcome R (and_then o1 k) (and_then o2 k).
Proof.
  intros Ho Hk. unfold and_then.
  destruct o1 as [[r1 b1] w1|l1]; destruct o2 as [[r2 b2] w2|l2];
    cbn [sim_outcome] in Ho; try contradiction; [|exact Ho].
  destruct Ho as [Heq HR]. injection Heq as -> ->.
  destruct (r2 =? -1); [split; [reflexivity|exact HR]|apply Hk, HR].
Qed.

Lemma random_body_sim fuel nbytes pass buf w1 w2 :
  R w1 w2 ->
  sim_outcome R (random_body fuel nbytes pass buf w1)
    (random_body fuel nbytes pass buf w2).
Proof. intros HR. apply with_buf_sim, random_pass_sim, HR. Qed.

Lemma single_body_sim fuel nbytes pass buf w1 w2 :
  R w1 w2 ->
  sim_outcome R (single_body fuel nbytes pass buf w1)
    (single_body fuel nbytes pass buf w2).
Proof. intros HR. apply with_buf_sim, pattern_pass_sim, HR. Qed.

Lemma triple_body_sim fuel nbytes patternsz pass buf w1 w2 :
  R w1 w2 ->
  sim_outcome R (triple_body fuel nbytes patternsz pass buf w1)
    (triple_body fuel nbytes patternsz pass buf w2).
Proof. intros HR. apply with_buf_sim, pattern_pass_sim, HR. Qed.

(** Two wipes that get the same answer from [fstat] stay side by side. *)
Lemma spc_fd_wipe_sim fuel w1 w2 :
  fst (sys_fstat w1) = fst (sys_fstat w2) ->
  R (snd (sys_fstat w1)) (snd (sys_fstat w2)) ->
  sim_outcome R (spc_fd_wipe fuel w1) (spc_fd_wipe fuel w2).
Proof.
  intros Hst HR. unfold spc_fd_wipe.
  destruct (sys_fstat w1) as [[rc1 sz1] w1a].
  destruct (sys_fstat w2) as [[rc2 sz2] w2a].
  cbn [fst snd] in Hst, HR. injection Hst as -> ->.
  destruct (rc2 =? -1); [split; [reflexivity|exact HR]|].
  destruct (sz2 =? 0); [split; [reflexivity|exact HR]|].
  cbv zeta.
  apply and_then_sim;
    [apply for_pass_sim; [intros; apply random_body_sim; assumption|exact HR]|].
  intros b1 u1 u2 H1. apply and_then_sim; [apply single_body_sim, H1|].
  intros b2 v1 v2 H2. apply and_then_sim; [apply single_body_sim, H2|].
  intros b3 x1 x2 H3. apply and_then_sim;
    [apply for_pass_sim; [intros; apply triple_body_sim; assumption|exact H3]|].
  intros b4 y1 y2 H4. apply and_then_sim;
    [apply for_pass_sim; [intros; apply single_body_sim; assumption|exact H4]|].
  intros b5 z1 z2 H5. apply and_then_sim;
    [apply for_pass_sim; [intros; apply triple_body_sim; assumption|exact H5]|].
  intros b6 s1 s2 H6. apply and_then_sim;
    [apply for_pass_sim; [intros; apply random_body_sim; assumption|exact H6]|].
  intros b7 t1 t2 H7. split; [reflexivity|exact H7].
Qed.

End Simulation.

(** ** The flush and the file *)

Lemma sim_value {A} R (o1 o2 : outcome A) :
  sim_outcome R o1 o2 -> value_of o1 = value_of o2.
Proof.
  destruct o1, o2; cbn [sim_outcome value_of]; try contradiction; try reflexivity.
  intros [-> _]. reflexivity.
Qed.

Lemma sync_lseek w1 w2 off :
  same_but_sync w1 w2 ->
  fst (sys_lseek w1 off) = fst (sys_lseek w2 off) /\
  same_but_sync (snd (sys_lseek w1 off)) (snd (sys_lseek w2 off)).
Proof.
  intros (H1 & H2 & H3 & H4 & H5 & Ha & H6 & H7 & H8 & H9 & H10).
  unfold sys_lseek, same_but_sync, file_now.
  cbn [fst snd w_env w_file w_pos w_clock w_rng w_trace].
  rewrite !map_app, H2, H5, H6, H7, H8, H9, H10. repeat split; assumption.
Qed.

Lemma sync_write w1 w2 boff count data :
  same_but_sync w1 w2 ->
  fst (sys_write w1 boff count data) = fst (sys_write w2 boff count data) /\
  same_but_sync (snd (sys_write w1 boff count data))
    (snd (sys_write w2 boff count data)).
Proof.
  intros (H1 & H2 & H3 & H4 & H5 & Ha & H6 & H7 & H8 & H9 & H10).
  unfold sys_write, same_but_sync, file_now, landing.
  rewrite H3, H5, Ha, H6, H7, H8.
  destruct (e_write (w_env w2) (w_clock w2));
    cbn [fst snd w_env w_file w_pos w_clock w_rng w_trace];
    rewrite !map_app, H9, H10; repeat split; assumption.
Qed.

Lemma sync_fsync w1 w2 :
  same_but_sync w1 w2 ->
  same_but_sync (snd (sys_fsync w1)) (snd (sys_fsync w2)).
Proof.
  intros (H1 & H2 & H3 & H4 & H5 & Ha & H6 & H7 & H8 & H9 & H10).
  unfold sys_fsync, same_but_sync, file_now.
  cbn [fst snd w_env w_file w_pos w_clock w_rng w_trace].
  rewrite !map_app, H5, H6, H7, H8, H9, H10. repeat split; assumption.
Qed.

Lemma sync_rand w1 w2 n :
  same_but_sync w1 w2 ->
  fst (spc_rand w1 n) = fst (spc_rand w2 n) /\
  same_but_sync (snd (spc_rand w1 n)) (snd (spc_rand w2 n)).
Proof.
  intros (H1 & H2 & H3 & H4 & H5 & Ha & H6 & H7 & H8 & H9 & H10).
  unfold spc_rand, same_but_sync.
  cbn [fst snd w_env w_file w_pos w_clock w_rng w_trace].
  rewrite !map_app, H4, H6, H7, H8, H9, H10. repeat split; assumption.
Qed.

Lemma sync_fstat w1 w2 :
  same_but_sync w1 w2 ->
  fst (sys_fstat w1) = fst (sys_fstat w2) /\
  same_but_sync (snd (sys_fstat w1)) (snd (sys_fstat w2)).
Proof.
  intros (H1 & H2 & H3 & H4 & H5 & Ha & H6 & H7 & H8 & H9 & H10).
  unfold sys_fstat, same_but_sync, file_now.
  cbn [fst snd w_env w_file w_pos w_clock w_rng w_trace].
  rewrite !map_app, H1, H5, H6, H7, H8, H9, H10. repeat split; assumption.
Qed.

Lemma with_sync_same s w : same_but_sync (with_sync s w) w.
Proof. unfold same_but_sync, with_sync. cbn [w_env w_file w_pos w_clock w_rng w_trace e_stat e_seek e_write e_rand e_ext e_append]. repeat split. Qed.

Lemma failed_pass_not_flushed seg :
  failed_pass seg -> is_fsync (last_event seg) = false.
Proof.
  intros Hf. destruct (failed_pass_last _ Hf) as [H|H];
    destruct (last_event seg); try discriminate; reflexivity.
Qed.

Lemma file_lseek w1 w2 off :
  same_but_file w1 w2 ->
  fst (sys_lseek w1 off) = fst (sys_lseek w2 off) /\
  same_but_file (snd (sys_lseek w1 off)) (snd (sys_lseek w2 off)).
Proof.
  intros (H1 & H2 & H3 & H4 & H5). unfold sys_lseek, same_but_file.
  cbn [fst snd w_env w_file w_pos w_clock w_rng w_trace].
  rewrite H1 in H2 |- *. rewrite H3, H4, H5. repeat split.
  intros Ha. rewrite (H2 Ha). reflexivity.
Qed.

Lemma file_write w1 w2 boff count data :
  same_but_file w1 w2 ->
  fst (sys_write w1 boff count data) = fst (sys_write w2 boff count data) /\
  same_but_file (snd (sys_write w1 boff count data))
    (snd (sys_write w2 boff count data)).
Proof.
  intros (H1 & H2 & H3 & H4 & H5). unfold sys_write, same_but_file, landing.
  rewrite H1 in H2 |- *. rewrite H3.
  destruct (e_write (w_env w2) (w_clock w2));
    cbn [fst snd w_env w_file w_pos w_clock w_rng w_trace];
    rewrite ?H3, H4, H5; repeat split;
    intros Ha; rewrite ?Ha, (H2 Ha); reflexivity.
Qed.

Lemma file_fsync w1 w2 :
  same_but_file w1 w2 ->
  same_but_file (snd (sys_fsync w1)) (snd (sys_fsync w2)).
Proof.
  intros (H1 & H2 & H3 & H4 & H5). unfold sys_fsync, same_but_file.
  cbn [fst snd w_env w_file w_pos w_clock w_rng w_trace].
  rewrite H1 in H2 |- *. rewrite H3, H4, H5. repeat split. exact H2.
Qed.

Lemma file_rand w1 w2 n :
  same_but_file w1 w2 ->
  fst (spc_rand w1 n) = fst (spc_rand w2 n) /\
  same_but_file (snd (spc_rand w1 n)) (snd (spc_rand w2 n)).
Proof.
  intros (H1 & H2 & H3 & H4 & H5). unfold spc_rand, same_but_file.
  cbn [fst snd w_env w_file w_pos w_clock w_rng w_trace].
  rewrite H1 in H2 |- *. rewrite H4, H5. repeat split; assumption.
Qed.

Lemma file_fstat w1 w2 :
  same_but_file w1 w2 -> length (file_now w1) = length (file_now w2) ->
  fst (sys_fstat w1) = fst (sys_fstat w2) /\
  same_but_file (snd (sys_fstat w1)) (snd (sys_fstat w2)).
Proof.
  intros (H1 & H2 & H3 & H4 & H5) Hlen. unfold sys_fstat, same_but_file.
  cbn [fst snd w_env w_file w_pos w_clock w_rng w_trace].
  rewrite H1 in H2 |- *. rewrite Hlen, H3, H4, H5. repeat split. exact H2.
Qed.

Lemma sim_file_trace {A} (o1 o2 : outcome A) w1 w2 :
  same_but_file w1 w2 -> sim_outcome same_but_file o1 o2 ->
  w_trace (world_of o1 w1) = w_trace (world_of o2 w2).
Proof.
  intros Hw. destruct o1, o2; cbn [sim_outcome world_of]; try contradiction.
  - intros [_ H]. apply H.
  - intros _. apply Hw.
Qed.


(** ** Termination *)

Lemma chunks_nonneg b n : 0 < b -> 0 <= n -> 0 <= chunks b n.
Proof. intros Hb Hn. unfold chunks. apply Z.div_pos; lia. Qed.

Lemma chunks_step b n :
  0 < b -> 0 < n -> chunks b (n - Z.min b n) = chunks b n - 1.
Proof.
  intros Hb Hn. unfold chunks.
  destruct (Z.le_gt_cases b n) as [Hle|Hgt].
  - replace (Z.min b n) with b by lia.
    replace (n + b - 1) with ((n - b + b - 1) + 1 * b) by lia.
    rewrite Z.div_add by lia. lia.
  - replace (Z.min b n) with n by lia.
    replace (n - n + b - 1) with (b - 1) by lia.
    rewrite (Z.div_small (b - 1) b) by lia.
    replace (n + b - 1) with ((n - 1) + 1 * b) by lia.
    rewrite Z.div_add by lia. rewrite Z.div_small by lia. lia.
Qed.

Lemma write_data_loop_fuel_id fuel buf nbytes :
  forall written w l,
    write_data_loop fuel buf nbytes written w = OutOfFuel l -> l = InWriteData.
Proof.
  induction fuel as [|fuel IH]; intros written w l H.
  - injection H as <-. reflexivity.
  - cbn [write_data_loop] in H.
    destruct (sys_write w written _ _) as [[ret errno] w1].
    destruct (0 <=? ret).
    + destruct (size_t (written + ret) <? nbytes); [apply IH in H; exact H|discriminate].
    + destruct (negb (errno =? EINTR)); [discriminate|].
      destruct (written <? nbytes); [apply IH in H; exact H|discriminate].
Qed.

(** With a round for every chunk and one more, the loop of [random_pass]
    does not run out of rounds. *)
Lemma random_loop_fuel fuel wfuel :
  forall nbytes w,
    0 <= nbytes < SIZE_MOD ->
    chunks SPC_WIPE_BUFSIZE nbytes < Z.of_nat fuel ->
    random_loop fuel wfuel nbytes w <> OutOfFuel InChunkLoop.
Proof.
  induction fuel as [|fuel IH]; intros nbytes w Hn Hf.
  - pose proof (chunks_nonneg SPC_WIPE_BUFSIZE nbytes ltac:(reflexivity) (proj1 Hn)).
    lia.
  - cbn [random_loop]. destruct (Z.ltb_spec 0 nbytes) as [Hpos|_]; [|discriminate].
    assert (Htw : (if SPC_WIPE_BUFSIZE <? nbytes then SPC_WIPE_BUFSIZE else nbytes)
                  = Z.min SPC_WIPE_BUFSIZE nbytes)
      by (destruct (Z.ltb_spec SPC_WIPE_BUFSIZE nbytes); lia).
    rewrite Htw.
    destruct (spc_rand w (Z.min SPC_WIPE_BUFSIZE nbytes)) as [buf w1].
    destruct (write_data wfuel buf (Z.min SPC_WIPE_BUFSIZE nbytes) w1)
      as [r w2|l] eqn:Hwd.
    + destruct (r =? 0); [discriminate|].
      assert (H4 : 0 < SPC_WIPE_BUFSIZE) by reflexivity.
      rewrite size_t_small by lia. apply IH; [lia|].
      rewrite chunks_step by lia. lia.
    + apply write_data_loop_fuel_id in Hwd. subst l. discriminate.
Qed.

Lemma pattern_loop_fuel fuel wfuel buf bufsz :
  forall filesz w,
    0 < bufsz -> 0 <= filesz < SIZE_MOD ->
    chunks bufsz filesz < Z.of_nat fuel ->
    pattern_loop fuel wfuel buf bufsz filesz w <> OutOfFuel InChunkLoop.
Proof.
  induction fuel as [|fuel IH]; intros filesz w Hb Hn Hf.
  - pose proof (chunks_nonneg bufsz filesz Hb (proj1 Hn)). lia.
  - cbn [pattern_loop]. destruct (Z.ltb_spec 0 filesz) as [Hpos|_]; [|discriminate].
    assert (Htw : (if bufsz <? filesz then bufsz else filesz) = Z.min bufsz filesz)
      by (destruct (Z.ltb_spec bufsz filesz); lia).
    rewrite Htw.
    destruct (write_data wfuel buf (Z.min bufsz filesz) w) as [r w1|l] eqn:Hwd.
    + destruct (r =? 0); [discriminate|].
      rewrite size_t_small by lia. apply IH; [exact Hb|lia|].
      rewrite chunks_step by lia. lia.
    + apply write_data_loop_fuel_id in Hwd. subst l. discriminate.
Qed.

(** Without the test on [bufsz] the loop of [pattern_pass] would spin on a
    kernel that accepts every write. *)
Lemma zero_buffer_would_spin fuel wfuel buf filesz :
  forall w,
    0 < filesz < SIZE_MOD -> (0 < wfuel)%nat ->
    (forall t, exists k, e_write (w_env w) t = WOk k) ->
    pattern_loop fuel wfuel buf 0 filesz w = OutOfFuel InChunkLoop.
Proof.
  induction fuel as [|fuel IH]; intros w Hn Hw Hk; [reflexivity|].
  cbn [pattern_loop]. destruct (Z.ltb_spec 0 filesz) as [_|]; [|lia].
  destruct (Z.ltb_spec 0 filesz) as [_|]; [|lia].
  destruct wfuel as [|wfuel]; [lia|].
  unfold write_data. cbn [write_data_loop].
  change (size_t (0 - 0)) with 0. change (SSIZE_MAX <? 0) with false. cbv iota.
  unfold sys_write. destruct (Hk (w_clock w)) as [k ->].
  replace (Z.max 0 (Z.min k 0)) with 0 by lia.
  change (0 <=? 0) with true. cbv iota. change (size_t (0 + 0)) with 0.
  change (0 <? 0) with false. cbv iota. change (1 =? 0) with false. cbv iota.
  rewrite Z.sub_0_r, size_t_small by lia.
  apply IH; [exact Hn|lia|exact Hk].
Qed.

(** *** When the kernel makes progress *)

Lemma healthy_progress e : healthy e -> progress e.
Proof.
  intros (_ & _ & Hw) t. destruct (Hw t) as (k & -> & Hk). exact Hk.
Qed.

Lemma sys_write_progress w boff count data :
  progress (w_env w) -> 0 <= count ->
  exists ret errno w1,
    sys_write w boff count data = (ret, errno, w1) /\ w_env w1 = w_env w /\
    ((ret = -1 /\ errno <> EINTR /\ ~ healthy (w_env w)) \/
     (0 <= ret <= count /\ (0 < count -> 0 < ret))).
Proof.
  intros Hp Hc. unfold sys_write. specialize (Hp (w_clock w)).
  destruct (e_write (w_env w) (w_clock w)) as [k|e] eqn:He.
  - eexists _, _, _. split; [reflexivity|]. split; [reflexivity|]. right. lia.
  - eexists _, _, _. split; [reflexivity|]. split; [reflexivity|]. left.
    split; [reflexivity|]. split; [exact Hp|].
    intros (_ & _ & Hw). destruct (Hw (w_clock w)) as (k & Hk & _). congruence.
Qed.

Lemma write_data_loop_returns fuel buf nbytes :
  forall written w,
    progress (w_env w) ->
    0 <= written <= nbytes -> nbytes < SIZE_MOD ->
    (1 <= fuel)%nat -> nbytes - written <= Z.of_nat fuel ->
    exists r w',
      write_data_loop fuel buf nbytes written w = Ret r w' /\
      w_env w' = w_env w /\ (healthy (w_env w) -> r = 1).
Proof.
  induction fuel as [|fuel IH]; intros written w Hp Hr Hn H1 Hf; [lia|].
  cbn [write_data_loop]. rewrite (towrite_chunk nbytes written Hr Hn).
  pose proof (chunk_nonneg nbytes written (proj2 Hr)) as Hc.
  destruct (sys_write_progress w written (chunk nbytes written)
              (slice buf written (chunk nbytes written)) Hp Hc)
    as (ret & errno & w1 & -> & Henv & Hres).
  assert (Hck : chunk nbytes written <= nbytes - written /\
                (written < nbytes -> 0 < chunk nbytes written))
    by (unfold chunk, SSIZE_MAX; lia).
  destruct Hres as [(-> & He & Hbad) | (Hret & Hpos)].
  - change (0 <=? -1) with false. cbv iota.
    destruct (Z.eqb_spec errno EINTR); [contradiction|]. cbn [negb].
    eexists _, _. split; [reflexivity|]. split; [exact Henv|].
    intros Hh. contradiction.
  - replace (0 <=? ret) with true by (symmetry; apply Z.leb_le; lia).
    rewrite size_t_small by lia.
    destruct (Z.ltb_spec (written + ret) nbytes) as [Hlt|Hge].
    + destruct (IH (written + ret) w1) as (r & w' & Hrun & Henv' & Hok);
        [rewrite Henv; exact Hp|lia|exact Hn|lia|lia|].
      exists r, w'. split; [exact Hrun|]. split; [rewrite Henv'; exact Henv|].
      intros Hh. apply Hok. rewrite Henv. exact Hh.
    + eexists _, _. split; [reflexivity|]. split; [exact Henv|reflexivity].
Qed.

Lemma write_data_returns fuel buf nbytes w :
  progress (w_env w) -> 0 <= nbytes < SIZE_MOD ->
  (1 <= fuel)%nat -> nbytes <= Z.of_nat fuel ->
  exists r w',
    write_data fuel buf nbytes w = Ret r w' /\ w_env w' = w_env w /\
    (healthy (w_env w) -> r = 1).
Proof.
  intros Hp Hn H1 Hf. apply write_data_loop_returns; try assumption; lia.
Qed.

Lemma random_loop_returns fuel wfuel :
  forall nbytes w,
    progress (w_env w) -> 0 <= nbytes < SIZE_MOD ->
    chunks SPC_WIPE_BUFSIZE nbytes < Z.of_nat fuel ->
    SPC_WIPE_BUFSIZE <= Z.of_nat wfuel ->
    exists r w',
      random_loop fuel wfuel nbytes w = Ret r w' /\ w_env w' = w_env w /\
      (healthy (w_env w) -> r = 0).
Proof.
  induction fuel as [|fuel IH]; intros nbytes w Hp Hn Hf Hw.
  - pose proof (chunks_nonneg SPC_WIPE_BUFSIZE nbytes ltac:(reflexivity) (proj1 Hn)).
    lia.
  - cbn [random_loop]. destruct (Z.ltb_spec 0 nbytes) as [Hpos|_].
    2:{ eexists _, _. repeat split. }
    assert (Htw : (if SPC_WIPE_BUFSIZE <? nbytes then SPC_WIPE_BUFSIZE else nbytes)
                  = Z.min SPC_WIPE_BUFSIZE nbytes)
      by (destruct (Z.ltb_spec SPC_WIPE_BUFSIZE nbytes); lia).
    rewrite Htw.
    assert (H4 : 0 < SPC_WIPE_BUFSIZE) by reflexivity.
    assert (Henv1 : w_env (snd (spc_rand w (Z.min SPC_WIPE_BUFSIZE nbytes))) = w_env w)
      by reflexivity.
    destruct (spc_rand w (Z.min SPC_WIPE_BUFSIZE nbytes)) as [buf w1].
    cbn [snd] in Henv1.
    destruct (write_data_returns wfuel buf (Z.min SPC_WIPE_BUFSIZE nbytes) w1)
      as (r & w2 & -> & Henv2 & Hok1); [rewrite Henv1; exact Hp|lia|lia|lia|].
    rewrite Henv1 in Hok1.
    destruct (Z.eqb_spec r 0) as [Hr0|Hr0].
    + eexists _, _. split; [reflexivity|]. split; [rewrite Henv2; exact Henv1|].
      intros Hh. specialize (Hok1 Hh). lia.
    + rewrite size_t_small by lia.
      destruct (IH (nbytes - Z.min SPC_WIPE_BUFSIZE nbytes) w2)
        as (r' & w' & Hrun & Henv' & Hok2);
        [rewrite Henv2, Henv1; exact Hp|lia|rewrite chunks_step by lia; lia|exact Hw|].
      exists r', w'. split; [exact Hrun|].
      split; [rewrite Henv', Henv2; exact Henv1|].
      intros Hh. apply Hok2. rewrite Henv2, Henv1. exact Hh.
Qed.

Lemma pattern_loop_returns fuel wfuel buf bufsz :
  forall filesz w,
    progress (w_env w) -> 0 < bufsz -> 0 <= filesz < SIZE_MOD ->
    chunks bufsz filesz < Z.of_nat fuel ->
    (1 <= wfuel)%nat -> Z.min bufsz filesz <= Z.of_nat wfuel ->
    exists r w',
      pattern_loop fuel wfuel buf bufsz filesz w = Ret r w' /\
      w_env w' = w_env w /\ (healthy (w_env w) -> r = 0).
Proof.
  induction fuel as [|fuel IH]; intros filesz w Hp Hb Hn Hf H1 Hw.
  - pose proof (chunks_nonneg bufsz filesz Hb (proj1 Hn)). lia.
  - cbn [pattern_loop]. destruct (Z.ltb_spec 0 filesz) as [Hpos|_].
    2:{ eexists _, _. repeat split. }
    assert (Htw : (if bufsz <? filesz then bufsz else filesz) = Z.min bufsz filesz)
      by (destruct (Z.ltb_spec bufsz filesz); lia).
    rewrite Htw.
    destruct (write_data_returns wfuel buf (Z.min bufsz filesz) w)
      as (r & w1 & -> & Henv1 & Hok1); [exact Hp|lia|exact H1|exact Hw|].
    destruct (Z.eqb_spec r 0) as [Hr0|Hr0].
    + eexists _, _. split; [reflexivity|]. split; [exact Henv1|].
      intros Hh. specialize (Hok1 Hh). lia.
    + rewrite size_t_small by lia.
      destruct (IH (filesz - Z.min bufsz filesz) w1)
        as (r' & w' & Hrun & Henv' & Hok2);
        [rewrite Henv1; exact Hp|exact Hb|lia|rewrite chunks_step by lia; lia
        |exact H1|lia|].
      exists r', w'. split; [exact Hrun|]. split; [rewrite Henv'; exact Henv1|].
      intros Hh. apply Hok2. rewrite Henv1. exact Hh.
Qed.

Lemma sys_lseek_healthy w off :
  healthy (w_env w) -> fst (sys_lseek w off) = 0.
Proof. intros (_ & Hs & _). apply Hs. Qed.

Lemma random_pass_returns fuel nbytes w :
  progress (w_env w) -> 0 <= nbytes < SIZE_MOD ->
  chunks SPC_WIPE_BUFSIZE nbytes < Z.of_nat fuel ->
  SPC_WIPE_BUFSIZE <= Z.of_nat fuel ->
  exists r w',
    random_pass fuel nbytes w = Ret r w' /\ w_env w' = w_env w /\
    (healthy (w_env w) -> r = 0).
Proof.
  intros Hp Hn Hf Hw. unfold random_pass.
  assert (Henv1 : w_env (snd (sys_lseek w 0)) = w_env w) by reflexivity.
  pose proof (sys_lseek_healthy w 0) as Hseek.
  destruct (sys_lseek w 0) as [off w1]. cbn [fst snd] in Henv1, Hseek.
  destruct (Z.eqb_spec off 0) as [Hoff|Hoff]; cbn [negb].
  2:{ eexists _, _. split; [reflexivity|]. split; [exact Henv1|].
      intros Hh. specialize (Hseek Hh). contradiction. }
  destruct (random_loop_returns fuel fuel nbytes w1)
    as (r & w2 & -> & Henv2 & Hok);
    [rewrite Henv1; exact Hp|exact Hn|exact Hf|exact Hw|].
  rewrite Henv1 in Hok.
  destruct (Z.eqb_spec r (-1)) as [Hr|Hr].
  - eexists _, _. split; [reflexivity|]. split; [rewrite Henv2; exact Henv1|].
    intros Hh. specialize (Hok Hh). lia.
  - assert (Henv3 : w_env (snd (sys_fsync w2)) = w_env w2) by reflexivity.
    destruct (sys_fsync w2) as [fr w3]. cbn [snd] in Henv3.
    eexists _, _. split; [reflexivity|].
    split; [rewrite Henv3, Henv2; exact Henv1|reflexivity].
Qed.

Lemma pattern_pass_returns fuel buf bufsz filesz w :
  progress (w_env w) -> 0 <= bufsz -> 0 <= filesz < SIZE_MOD ->
  chunks bufsz filesz < Z.of_nat fuel ->
  (1 <= fuel)%nat -> Z.min bufsz filesz <= Z.of_nat fuel ->
  exists r w',
    pattern_pass fuel buf bufsz filesz w = Ret r w' /\ w_env w' = w_env w /\
    (0 < bufsz -> healthy (w_env w) -> r = 0).
Proof.
  intros Hp Hb Hn Hf H1 Hw. unfold pattern_pass.
  destruct (Z.eqb_spec bufsz 0) as [Hz|Hnz].
  { eexists _, _. split; [reflexivity|]. split; [reflexivity|]. lia. }
  assert (Henv1 : w_env (snd (sys_lseek w 0)) = w_env w) by reflexivity.
  pose proof (sys_lseek_healthy w 0) as Hseek.
  destruct (sys_lseek w 0) as [off w1]. cbn [fst snd] in Henv1, Hseek.
  destruct (Z.eqb_spec off 0) as [Hoff|Hoff]; cbn [negb].
  2:{ eexists _, _. split; [reflexivity|]. split; [exact Henv1|].
      intros _ Hh. specialize (Hseek Hh). contradiction. }
  destruct (pattern_loop_returns fuel fuel buf bufsz filesz w1)
    as (r & w2 & -> & Henv2 & Hok);
    [rewrite Henv1; exact Hp|lia|exact Hn|exact Hf|exact H1|exact Hw|].
  rewrite Henv1 in Hok.
  destruct (Z.eqb_spec r (-1)) as [Hr|Hr].
  - eexists _, _. split; [reflexivity|]. split; [rewrite Henv2; exact Henv1|].
    intros _ Hh. specialize (Hok Hh). lia.
  - assert (Henv3 : w_env (snd (sys_fsync w2)) = w_env w2) by reflexivity.
    destruct (sys_fsync w2) as [fr w3]. cbn [snd] in Henv3.
    eexists _, _. split; [reflexivity|].
    split; [rewrite Henv3, Henv2; exact Henv1|reflexivity].
Qed.


(** ** The whole wipe returns *)

Lemma chunks_4096_le n : 0 <= n -> chunks 4096 n <= chunks 4095 n.
Proof.
  intros Hn. unfold chunks.
  apply Z.div_le_lower_bound; [lia|].
  pose proof (Z.mul_div_le (n + 4096 - 1) 4096 ltac:(lia)).
  pose proof (Z.mod_pos_bound (n + 4096 - 1) 4096 ltac:(lia)).
  pose proof (Z.div_mod (n + 4096 - 1) 4096 ltac:(lia)).
  pose proof (Z.div_pos (n + 4096 - 1) 4096 ltac:(lia) ltac:(lia)).
  lia.
Qed.

Lemma with_buf_returns buf (m : outcome Z) w :
  (exists r w', m = Ret r w' /\ w_env w' = w_env w /\ (healthy (w_env w) -> r = 0)) ->
  exists r buf' w',
    with_buf buf m = Ret (r, buf') w' /\ w_env w' = w_env w /\
    (healthy (w_env w) -> r = 0).
Proof.
  intros (r & w' & -> & Henv & Hok). exists r, buf, w'. cbn [with_buf]. auto.
Qed.

Lemma random_body_returns fuel nbytes pass :
  0 <= nbytes < SIZE_MOD -> enough_fuel nbytes fuel ->
  stage_returns (random_body fuel nbytes pass).
Proof.
  intros Hn [Hf Hw] buf w Hp. unfold random_body. apply with_buf_returns.
  apply random_pass_returns; try assumption.
  pose proof (chunks_4096_le nbytes (proj1 Hn)). unfold SPC_WIPE_BUFSIZE. lia.
Qed.

Lemma single_body_returns fuel nbytes pass :
  0 <= nbytes < SIZE_MOD -> enough_fuel nbytes fuel ->
  stage_returns (single_body fuel nbytes pass).
Proof.
  intros Hn [Hf Hw] buf w Hp. unfold single_body. apply with_buf_returns.
  pose proof (chunks_4096_le nbytes (proj1 Hn)).
  destruct (pattern_pass_returns fuel
              (memset buf (nth (Z.to_nat pass) single_pats x00) SPC_WIPE_BUFSIZE)
              SPC_WIPE_BUFSIZE nbytes w Hp)
    as (r & w' & Hrun & Henv & Hok);
    try (unfold SPC_WIPE_BUFSIZE in *; lia).
  exists r, w'. split; [exact Hrun|]. split; [exact Henv|].
  apply Hok. reflexivity.
Qed.

Lemma triple_body_returns fuel nbytes pass :
  0 <= nbytes < SIZE_MOD -> enough_fuel nbytes fuel ->
  stage_returns (triple_body fuel nbytes 3 pass).
Proof.
  intros Hn [Hf Hw] buf w Hp. unfold triple_body. apply with_buf_returns.
  change (SPC_WIPE_BUFSIZE / 3) with 1365. change (3 * 1365) with 4095.
  destruct (pattern_pass_returns fuel
              (tile_buf buf (nth (Z.to_nat pass) triple_pats []) 3 1365)
              4095 nbytes w Hp)
    as (r & w' & Hrun & Henv & Hok);
    try (unfold SPC_WIPE_BUFSIZE in *; lia).
  exists r, w'. split; [exact Hrun|]. split; [exact Henv|].
  apply Hok. reflexivity.
Qed.

Lemma for_pass_returns body n :
  (forall pass, stage_returns (body pass)) ->
  forall pass, stage_returns (for_pass n pass body).
Proof.
  intros Hbody. induction n as [|n IH]; intros pass buf w Hp.
  - exists 0, buf, w. cbn [for_pass]. auto.
  - cbn [for_pass].
    destruct (Hbody pass buf w Hp) as (r & buf1 & w1 & -> & Henv1 & Hok1).
    destruct (Z.eqb_spec r (-1)) as [Hr|Hr].
    + exists (-1), buf1, w1. split; [reflexivity|]. split; [exact Henv1|].
      intros Hh. specialize (Hok1 Hh). lia.
    + destruct (IH (pass + 1) buf1 w1) as (r2 & buf2 & w2 & Hrun & Henv2 & Hok2);
        [rewrite Henv1; exact Hp|].
      exists r2, buf2, w2. split; [exact Hrun|].
      split; [rewrite Henv2; exact Henv1|].
      intros Hh. apply Hok2. rewrite Henv1. exact Hh.
Qed.

Lemma and_then_returns stage k :
  stage_returns stage -> rest_returns k ->
  rest_returns (fun buf w => and_then (stage buf w) k).
Proof.
  intros Hs Hk buf w Hp. unfold and_then.
  destruct (Hs buf w Hp) as (r & buf1 & w1 & -> & Henv1 & Hok1).
  destruct (Z.eqb_spec r (-1)) as [Hr|Hr].
  - exists (-1), w1. split; [reflexivity|].
    intros Hh. specialize (Hok1 Hh). lia.
  - destruct (Hk buf1 w1) as (r2 & w2 & Hrun & Hok2); [rewrite Henv1; exact Hp|].
    exists r2, w2. split; [exact Hrun|].
    intros Hh. apply Hok2. rewrite Henv1. exact Hh.
Qed.

Lemma wipe_tail_returns fuel nbytes :
  0 <= nbytes < SIZE_MOD -> enough_fuel nbytes fuel ->
  rest_returns
    (fun buf w =>
       check buf, w <- for_pass 4 0 (random_body fuel nbytes) buf w ;;
       check buf, w <- single_body fuel nbytes 5 buf w ;;
       check buf, w <- single_body fuel nbytes 10 buf w ;;
       check buf, w <- for_pass 3 0 (triple_body fuel nbytes 3) buf w ;;
       check buf, w <- for_pass 16 0 (single_body fuel nbytes) buf w ;;
       check buf, w <- for_pass 6 0 (triple_body fuel nbytes 3) buf w ;;
       check buf, w <- for_pass 4 0 (random_body fuel nbytes) buf w ;;
       Ret 0 w).
Proof.
  intros Hn Hf.
  pose proof (fun pass => random_body_returns fuel nbytes pass Hn Hf) as Hr.
  pose proof (fun pass => single_body_returns fuel nbytes pass Hn Hf) as H1.
  pose proof (fun pass => triple_body_returns fuel nbytes pass Hn Hf) as H3.
  apply and_then_returns; [apply for_pass_returns, Hr|].
  apply and_then_returns; [apply H1|].
  apply and_then_returns; [apply H1|].
  apply and_then_returns; [apply for_pass_returns, H3|].
  apply and_then_returns; [apply for_pass_returns, H1|].
  apply and_then_returns; [apply for_pass_returns, H3|].
  apply and_then_returns; [apply for_pass_returns, Hr|].
  intros buf w _. exists 0, w. auto.
Qed.

(** With enough fuel a wipe on a kernel that makes progress returns, and it
    returns 0 on a kernel that never fails. *)
Lemma spc_fd_wipe_returns fuel w :
  progress (w_env w) -> enough_fuel (snapshot w) fuel ->
  exists r w', spc_fd_wipe fuel w = Ret r w' /\ (healthy (w_env w) -> r = 0).
Proof.
  intros Hp Hf. unfold spc_fd_wipe, sys_fstat.
  destruct (e_stat (w_env w) (w_clock w)) eqn:Hst.
  - change (0 =? -1) with false. cbv beta iota zeta.
    destruct (Z.eqb_spec (Z.of_nat (length (file_now w))) 0) as [Hz|Hz].
    + eexists _, _. split; [reflexivity|reflexivity].
    + pose proof (wipe_tail_returns fuel (snapshot w) (size_t_range _) Hf) as Hr.
      refine (Hr _ _ _). exact Hp.
  - change (-1 =? -1) with true. cbv beta iota zeta.
    eexists _, _. split; [reflexivity|].
    intros (Hs & _). rewrite Hs in Hst. discriminate.
Qed.

Lemma spc_fd_wipe_succeeds fuel w :
  healthy (w_env w) -> enough_fuel (snapshot w) fuel ->
  exists w', spc_fd_wipe fuel w = Ret 0 w'.
Proof.
  intros Hh Hf.
  destruct (spc_fd_wipe_returns fuel w (healthy_progress _ Hh) Hf)
    as (r & w' & Hrun & Hok).
  exists w'. rewrite <- (Hok Hh). exact Hrun.
Qed.

Lemma calm_env_healthy : healthy calm_env.
Proof.
  repeat split. intros t. exists SSIZE_MAX. split; reflexivity.
Qed.


(** ** [write_data]: bounds and retries *)

Lemma wd_run_bound buf nbytes written evs r :
  written <= nbytes ->
  wd_run buf nbytes written evs r -> written + nwritten evs <= nbytes.
Proof.
  intros Hle H.
  induction H as [written ret errno Hret Hge | written ret errno evs r Hret Hlt Hrun IH
                 | written errno Hne | written evs r Hlt Hrun IH | written Hge];
    unfold write_at; rewrite ?nwritten_cons_write; change (nwritten []) with 0.
  - unfold chunk in Hret. lia.
  - specialize (IH ltac:(lia)). lia.
  - lia.
  - specialize (IH ltac:(lia)). lia.
  - lia.
Qed.

Lemma slice_length buf off n :
  0 <= off -> 0 <= n -> off + n <= Z.of_nat (length buf) ->
  Z.of_nat (length (slice buf off n)) = n.
Proof.
  intros Ho Hn Hb. unfold slice. rewrite length_firstn, length_skipn. lia.
Qed.

Lemma inside_write_at size buf nbytes written ret errno :
  0 <= written <= nbytes -> nbytes <= size -> nbytes <= Z.of_nat (length buf) ->
  ret <= chunk nbytes written ->
  inside size (write_at buf nbytes written ret errno) = true.
Proof.
  intros Hw Hs Hb Hret.
  pose proof (chunk_nonneg nbytes written (proj2 Hw)) as Hc.
  assert (Hk : chunk nbytes written <= nbytes - written) by (unfold chunk; lia).
  unfold write_at, inside. rewrite slice_length by lia.
  repeat (apply andb_true_iff; split);
    try (apply Z.leb_le; lia). apply Z.eqb_eq. reflexivity.
Qed.

(** Every write of [write_data] reads inside the [nbytes] bytes it was
    given. *)
Lemma wd_run_inside size buf nbytes written evs r :
  0 <= written <= nbytes -> nbytes <= size -> nbytes <= Z.of_nat (length buf) ->
  wd_run buf nbytes written evs r -> forallb (inside size) evs = true.
Proof.
  intros Hw Hs Hb H.
  induction H as [written ret errno Hret Hge | written ret errno evs r Hret Hlt Hrun IH
                 | written errno Hne | written evs r Hlt Hrun IH | written Hge];
    cbn [forallb];
    pose proof (chunk_nonneg nbytes written (proj2 Hw)) as Hc;
    rewrite inside_write_at by (try assumption; lia);
    try reflexivity; apply IH; lia.
Qed.

Lemma inside_covers size ev : inside size ev = true -> covers ev = true.
Proof.
  destruct ev as [| |boff count data ret errno| |data]; try reflexivity.
  cbn [inside covers]. intros H.
  repeat (apply andb_true_iff in H; destruct H as [H ?]).
  apply Z.leb_le. apply Z.eqb_eq in H1. apply Z.leb_le in H0. lia.
Qed.

Lemma forallb_covers size evs :
  forallb (inside size) evs = true -> forallb covers evs = true.
Proof.
  induction evs as [|ev evs IH]; cbn [forallb]; [reflexivity|].
  intros H. apply andb_true_iff in H. destruct H as [H1 H2].
  rewrite (inside_covers _ _ H1), (IH H2). reflexivity.
Qed.

Lemma sys_write_stalled w boff count data :
  stalled (w_env w) -> 0 <= count ->
  exists ret errno w1,
    sys_write w boff count data = (ret, errno, w1) /\ w_env w1 = w_env w /\
    ((ret = 0 /\ errno = 0) \/ (ret = -1 /\ errno = EINTR)).
Proof.
  intros Hs Hc. unfold sys_write. specialize (Hs (w_clock w)).
  destruct (e_write (w_env w) (w_clock w)) as [k|e].
  - eexists _, _, _. split; [reflexivity|]. split; [reflexivity|]. left.
    split; [lia|reflexivity].
  - eexists _, _, _. split; [reflexivity|]. split; [reflexivity|]. right.
    split; [reflexivity|exact Hs].
Qed.

Lemma write_data_loop_stalled fuel buf nbytes :
  forall written w,
    stalled (w_env w) -> 0 <= written < nbytes -> nbytes < SIZE_MOD ->
    write_data_loop fuel buf nbytes written w = OutOfFuel InWriteData.
Proof.
  induction fuel as [|fuel IH]; intros written w Hs Hw Hn; [reflexivity|].
  cbn [write_data_loop]. rewrite (towrite_chunk nbytes written) by lia.
  pose proof (chunk_nonneg nbytes written ltac:(lia)) as Hc.
  destruct (sys_write_stalled w written (chunk nbytes written)
              (slice buf written (chunk nbytes written)) Hs Hc)
    as (ret & errno & w1 & -> & Henv & [(-> & ->) | (-> & ->)]).
  - change (0 <=? 0) with true. cbv iota. rewrite Z.add_0_r, size_t_small by lia.
    replace (written <? nbytes) with true by (symmetry; apply Z.ltb_lt; lia).
    apply IH; [rewrite Henv; exact Hs|lia|exact Hn].
  - change (0 <=? -1) with false. change (negb (EINTR =? EINTR)) with false.
    cbv iota.
    replace (written <? nbytes) with true by (symmetry; apply Z.ltb_lt; lia).
    apply IH; [rewrite Henv; exact Hs|lia|exact Hn].
Qed.

(** ** The chunk loops: bounds, and the bytes of a pass that failed *)


Lemma inside_mono a b ev : a <= b -> inside a ev = true -> inside b ev = true.
Proof.
  intros Hab. destruct ev as [| |boff count data ret errno| |data];
    cbn [inside]; try (intros; reflexivity).
  - intros H. repeat (apply andb_true_iff in H; destruct H as [H ?]).
    repeat (apply andb_true_iff; split); try assumption.
    apply Z.leb_le. apply Z.leb_le in H2. lia.
  - intros H. apply Z.leb_le. apply Z.leb_le in H. lia.
Qed.

Lemma forallb_inside_mono a b evs :
  a <= b -> forallb (inside a) evs = true -> forallb (inside b) evs = true.
Proof.
  intros Hab. induction evs as [|ev evs IH]; cbn [forallb]; [reflexivity|].
  intros H. apply andb_true_iff in H. destruct H as [H1 H2].
  rewrite (inside_mono a b ev Hab H1), (IH H2). reflexivity.
Qed.

Lemma forallb_write_pass evs :
  forallb is_write evs = true -> forallb is_pass_call evs = true.
Proof.
  induction evs as [|ev evs IH]; cbn [forallb]; [reflexivity|].
  intros H. apply andb_true_iff in H. destruct H as [H1 H2].
  rewrite (IH H2). destruct ev; try discriminate. reflexivity.
Qed.

Lemma forallb_io_pass evs :
  forallb is_io evs = true -> forallb is_pass_call evs = true.
Proof.
  induction evs as [|ev evs IH]; cbn [forallb]; [reflexivity|].
  intros H. apply andb_true_iff in H. destruct H as [H1 H2].
  rewrite (IH H2). unfold is_pass_call. rewrite H1. reflexivity.
Qed.

Lemma forallb_pass_no_seek evs :
  forallb is_pass_call evs = true -> no_seek evs = true.
Proof.
  unfold no_seek. induction evs as [|ev evs IH]; cbn [forallb]; [reflexivity|].
  intros H. apply andb_true_iff in H. destruct H as [H1 H2].
  rewrite (IH H2). destruct ev; try discriminate; reflexivity.
Qed.

Lemma firstn_app_exact {A} (l1 l2 : list A) n :
  n = length l1 -> firstn n (l1 ++ l2) = l1.
Proof.
  intros ->. rewrite firstn_app, Nat.sub_diag, firstn_all. cbn [firstn].
  apply app_nil_r.
Qed.

Lemma transferred_length evs :
  forallb covers evs = true ->
  Z.of_nat (length (transferred evs)) = nwritten evs.
Proof.
  induction evs as [|ev evs IH]; [reflexivity|]. cbn [forallb].
  intros H. apply andb_true_iff in H. destruct H as [H1 H2].
  specialize (IH H2).
  destruct ev as [| |boff count data ret errno| |data]; try exact IH.
  rewrite nwritten_cons_write, transferred_cons_write, length_app, length_firstn.
  cbn [covers] in H1. apply Z.leb_le in H1. lia.
Qed.

(** The loop of [random_pass]: every call stays inside the buffer of
    [SPC_WIPE_BUFSIZE] bytes, no more than [nbytes] bytes are written, and
    the bytes written are the bytes drawn, in order, up to where the loop
    stopped. *)
Lemma random_loop_bounded fuel wfuel :
  forall nbytes w r w',
    0 <= nbytes < SIZE_MOD ->
    random_loop fuel wfuel nbytes w = Ret r w' ->
    exists evs,
      w_trace w' = w_trace w ++ evs /\ forallb is_io evs = true /\
      forallb in_buffer evs = true /\ nwritten evs <= nbytes /\
      transferred evs = firstn (Z.to_nat (nwritten evs)) (drawn evs) /\
      ((r = 0 /\ nwritten evs = nbytes) \/ (r = -1 /\ nwritten evs < nbytes)).
Proof.
  induction fuel as [|fuel IH]; intros nbytes w r w' Hn H; [discriminate|].
  cbn [random_loop] in H.
  destruct (Z.ltb_spec 0 nbytes) as [Hpos|Hz].
  2:{ injection H as <- <-. exists []. rewrite app_nil_r.
      repeat split; cbn; lia. }
  set (towrite := if SPC_WIPE_BUFSIZE <? nbytes then SPC_WIPE_BUFSIZE else nbytes) in H.
  assert (Htw : 0 < towrite <= nbytes /\ towrite <= SPC_WIPE_BUFSIZE).
  { subst towrite. unfold SPC_WIPE_BUFSIZE.
    destruct (Z.ltb_spec 4096 nbytes); lia. }
  destruct (spc_rand_spec w towrite ltac:(lia)) as [Hlen Htr1].
  destruct (spc_rand w towrite) as [buf w1]. cbn [fst snd] in Hlen, Htr1.
  destruct (write_data wfuel buf towrite w1) as [rr w2|l] eqn:Hwd; [|discriminate].
  apply write_data_run in Hwd; [|lia].
  destruct Hwd as (evs1 & Htr2 & Hrun).
  pose proof (wd_run_writes _ _ _ _ _ Hrun) as Hwr.
  pose proof (wd_run_inside SPC_WIPE_BUFSIZE buf towrite 0 evs1 rr
                ltac:(lia) ltac:(lia) ltac:(lia) Hrun) as Hin.
  change (forallb in_buffer evs1 = true) in Hin.
  pose proof (wd_run_bound buf towrite 0 evs1 rr ltac:(lia) Hrun) as Hbd.
  pose proof (wd_run_transferred _ _ 0 _ _ ltac:(lia) Hrun) as Ht1.
  pose proof (nwritten_nonneg evs1) as Hnn.
  assert (Hrand : in_buffer (EvRand buf) = true).
  { cbn. apply Z.leb_le. lia. }
  destruct (wd_run_result _ _ _ _ _ Hrun) as [-> | ->].
  - change (1 =? 0) with false in H. cbv iota in H.
    apply IH in H; [|rewrite size_t_small by lia; lia].
    rewrite size_t_small in H by lia.
    destruct H as (evs2 & Htr3 & Hio & Hin2 & Hle & Ht2 & Hres).
    pose proof (wd_run_success _ towrite 0 _ ltac:(lia) Hrun) as Hs.
    pose proof (nwritten_nonneg evs2) as Hnn2.
    exists (EvRand buf :: evs1 ++ evs2).
    split; [|split; [|split; [|split; [|split]]]].
    + rewrite Htr3, Htr2, Htr1, <- !app_assoc. reflexivity.
    + cbn [forallb is_io andb]. rewrite forallb_app, (forallb_write_io _ Hwr), Hio.
      reflexivity.
    + cbn [forallb]. rewrite Hrand, forallb_app, Hin, Hin2. reflexivity.
    + change (nwritten (EvRand buf :: evs1 ++ evs2)) with (nwritten (evs1 ++ evs2)).
      rewrite nwritten_app. lia.
    + change (nwritten (EvRand buf :: evs1 ++ evs2)) with (nwritten (evs1 ++ evs2)).
      change (transferred (EvRand buf :: evs1 ++ evs2))
        with (transferred (evs1 ++ evs2)).
      change (drawn (EvRand buf :: evs1 ++ evs2))
        with (buf ++ drawn (evs1 ++ evs2)).
      rewrite transferred_app, drawn_app, (drawn_writes _ Hwr), nwritten_app.
      cbn [app]. rewrite Ht1, Ht2.
      replace (nwritten evs1) with towrite by lia.
      rewrite slice_all by exact Hlen.
      rewrite firstn_app.
      replace (Z.to_nat (towrite + nwritten evs2) - length buf)%nat
        with (Z.to_nat (nwritten evs2)) by lia.
      rewrite (firstn_all2 (n := Z.to_nat (towrite + nwritten evs2)) buf) by lia.
      reflexivity.
    + change (nwritten (EvRand buf :: evs1 ++ evs2)) with (nwritten (evs1 ++ evs2)).
      rewrite nwritten_app. lia.
  - change (0 =? 0) with true in H. cbv iota in H. injection H as <- <-.
    pose proof (wd_run_failure _ towrite 0 _ ltac:(lia) Hrun) as Hfl.
    exists (EvRand buf :: evs1).
    split; [|split; [|split; [|split; [|split]]]].
    + rewrite Htr2, Htr1, <- !app_assoc. reflexivity.
    + cbn [forallb is_io andb]. apply forallb_write_io, Hwr.
    + cbn [forallb]. rewrite Hrand. exact Hin.
    + change (nwritten (EvRand buf :: evs1)) with (nwritten evs1). lia.
    + change (nwritten (EvRand buf :: evs1)) with (nwritten evs1).
      change (transferred (EvRand buf :: evs1)) with (transferred evs1).
      change (drawn (EvRand buf :: evs1)) with (buf ++ drawn evs1).
      rewrite (drawn_writes _ Hwr), app_nil_r, Ht1. unfold slice.
      cbn [Z.to_nat skipn]. reflexivity.
    + change (nwritten (EvRand buf :: evs1)) with (nwritten evs1).
      right. lia.
Qed.

(** The loop of [pattern_pass], whatever it returns: every write reads
    inside the first [bufsz] bytes of the buffer, no more than [filesz]
    bytes are written, and the byte written at offset [i] is
    [buf[i mod bufsz]]. *)
Lemma pattern_loop_bounded fuel wfuel buf bufsz :
  forall filesz w r w',
    0 < bufsz < SIZE_MOD -> bufsz <= Z.of_nat (length buf) ->
    0 <= filesz < SIZE_MOD ->
    pattern_loop fuel wfuel buf bufsz filesz w = Ret r w' ->
    exists evs,
      w_trace w' = w_trace w ++ evs /\ forallb is_write evs = true /\
      forallb (inside bufsz) evs = true /\ nwritten evs <= filesz /\
      transferred evs = cycle buf bufsz (nwritten evs) /\
      ((r = 0 /\ nwritten evs = filesz) \/ (r = -1 /\ nwritten evs < filesz)).
Proof.
  induction fuel as [|fuel IH]; intros filesz w r w' Hb Hlen Hn H; [discriminate|].
  cbn [pattern_loop] in H.
  destruct (Z.ltb_spec 0 filesz) as [Hpos|Hz].
  2:{ injection H as <- <-. exists []. rewrite app_nil_r.
      repeat split; cbn; lia. }
  set (towrite := if bufsz <? filesz then bufsz else filesz) in H.
  assert (Htw : 0 < towrite <= filesz /\ towrite <= bufsz /\
                (towrite < filesz -> towrite = bufsz)).
  { subst towrite. destruct (Z.ltb_spec bufsz filesz); lia. }
  destruct (write_data wfuel buf towrite w) as [rr w1|l] eqn:Hwd; [|discriminate].
  apply write_data_run in Hwd; [|lia].
  destruct Hwd as (evs1 & Htr1 & Hrun).
  pose proof (wd_run_writes _ _ _ _ _ Hrun) as Hwr.
  pose proof (wd_run_inside bufsz buf towrite 0 evs1 rr
                ltac:(lia) ltac:(lia) ltac:(lia) Hrun) as Hin.
  pose proof (wd_run_transferred _ _ 0 _ _ ltac:(lia) Hrun) as Ht1.
  pose proof (nwritten_nonneg evs1) as Hnn.
  destruct (wd_run_result _ _ _ _ _ Hrun) as [-> | ->].
  - change (1 =? 0) with false in H. cbv iota in H.
    apply IH in H; [|lia|lia|rewrite size_t_small by lia; lia].
    rewrite size_t_small in H by lia.
    destruct H as (evs2 & Htr2 & Hw2 & Hin2 & Hle & Ht2 & Hres).
    pose proof (wd_run_success _ towrite 0 _ ltac:(lia) Hrun) as Hs.
    pose proof (nwritten_nonneg evs2) as Hnn2.
    exists (evs1 ++ evs2). split; [|split; [|split; [|split; [|split]]]].
    + rewrite Htr2, Htr1, <- !app_assoc. reflexivity.
    + rewrite forallb_app, Hwr, Hw2. reflexivity.
    + rewrite forallb_app, Hin, Hin2. reflexivity.
    + rewrite nwritten_app. lia.
    + rewrite transferred_app, nwritten_app, Ht1, Ht2.
      replace (nwritten evs1) with towrite by lia.
      rewrite <- (cycle_small buf bufsz towrite) by lia.
      destruct (Z.eq_dec (nwritten evs2) 0) as [He|Hne].
      * rewrite He, Z.add_0_r. unfold cycle at 2.
        cbn [Z.to_nat seq map]. apply app_nil_r.
      * replace towrite with bufsz by lia. symmetry. apply cycle_step; lia.
    + rewrite nwritten_app. lia.
  - change (0 =? 0) with true in H. cbv iota in H. injection H as <- <-.
    pose proof (wd_run_failure _ towrite 0 _ ltac:(lia) Hrun) as Hfl.
    exists evs1. split; [exact Htr1|]. split; [exact Hwr|]. split; [exact Hin|].
    split; [lia|]. split; [|right; lia].
    rewrite Ht1. symmetry. apply cycle_small; lia.
Qed.

(** ** The two passes, whatever they return *)

Lemma random_pass_bounded fuel nbytes w r w' :
  0 <= nbytes < SIZE_MOD ->
  random_pass fuel nbytes w = Ret r w' ->
  exists off body tail,
    w_trace w' = w_trace w ++ EvLseek 0 off :: body ++ tail /\
    (off <> 0 -> body = [] /\ tail = []) /\
    forallb is_io body = true /\ forallb in_buffer body = true /\
    nwritten body <= nbytes /\
    transferred body = firstn (Z.to_nat (nwritten body)) (drawn body) /\
    (tail = [] \/ exists fr, tail = [EvFsync fr]) /\
    ((r = 0 /\ off = 0 /\ nwritten body = nbytes /\ exists fr, tail = [EvFsync fr]) \/
     (r = -1 /\ tail = [] /\ (off <> 0 \/ nwritten body < nbytes))).
Proof.
  intros Hn H. unfold random_pass in H.
  pose proof (sys_lseek_trace w 0) as Hs.
  destruct (sys_lseek w 0) as [off w1]. cbn [fst snd] in Hs.
  destruct (Z.eqb_spec off 0) as [->|Hoff]; cbn [negb] in H.
  2:{ injection H as <- <-. exists off, [], []. split; [exact Hs|].
      repeat split; try reflexivity; try (cbn; lia).
      - left. reflexivity.
      - right. repeat split. left. exact Hoff. }
  destruct (random_loop fuel fuel nbytes w1) as [rl w2|l] eqn:Hl; [|discriminate].
  apply random_loop_bounded in Hl; [|exact Hn].
  destruct Hl as (body & Htr & Hio & Hin & Hle & Htd & [(-> & Hnw) | (-> & Hnw)]).
  - change (0 =? -1) with false in H. cbv iota in H.
    pose proof (sys_fsync_trace w2) as Hf.
    destruct (sys_fsync w2) as [fr w3]. cbn [fst snd] in Hf.
    injection H as <- <-. exists 0, body, [EvFsync fr].
    split; [rewrite Hf, Htr, Hs, <- !app_assoc; reflexivity|].
    split; [intros Hx; contradiction Hx; reflexivity|].
    repeat (split; [assumption|]).
    split; [right; exists fr; reflexivity|].
    left. repeat split; try assumption. exists fr. reflexivity.
  - change (-1 =? -1) with true in H. cbv iota in H.
    injection H as <- <-. exists 0, body, [].
    split; [rewrite Htr, Hs, app_nil_r, <- !app_assoc; reflexivity|].
    split; [intros Hx; contradiction Hx; reflexivity|].
    repeat (split; [assumption|]).
    split; [left; reflexivity|].
    right. repeat split. right. exact Hnw.
Qed.

Lemma pattern_pass_bounded fuel buf bufsz filesz w r w' :
  0 < bufsz < SIZE_MOD -> bufsz <= Z.of_nat (length buf) ->
  0 <= filesz < SIZE_MOD ->
  pattern_pass fuel buf bufsz filesz w = Ret r w' ->
  exists off body tail,
    w_trace w' = w_trace w ++ EvLseek 0 off :: body ++ tail /\
    (off <> 0 -> body = [] /\ tail = []) /\
    forallb is_write body = true /\ forallb (inside bufsz) body = true /\
    nwritten body <= filesz /\
    transferred body = cycle buf bufsz (nwritten body) /\
    (tail = [] \/ exists fr, tail = [EvFsync fr]) /\
    ((r = 0 /\ off = 0 /\ nwritten body = filesz /\ exists fr, tail = [EvFsync fr]) \/
     (r = -1 /\ tail = [] /\ (off <> 0 \/ nwritten body < filesz))).
Proof.
  intros Hb Hlen Hn H. unfold pattern_pass in H.
  destruct (Z.eqb_spec bufsz 0) as [Hz|_]; [lia|].
  pose proof (sys_lseek_trace w 0) as Hs.
  destruct (sys_lseek w 0) as [off w1]. cbn [fst snd] in Hs.
  destruct (Z.eqb_spec off 0) as [->|Hoff]; cbn [negb] in H.
  2:{ injection H as <- <-. exists off, [], []. split; [exact Hs|].
      repeat split; try reflexivity; try (cbn; lia).
      - left. reflexivity.
      - right. repeat split. left. exact Hoff. }
  destruct (pattern_loop fuel fuel buf bufsz filesz w1) as [rl w2|l] eqn:Hl;
    [|discriminate].
  apply pattern_loop_bounded in Hl; [|exact Hb|exact Hlen|exact Hn].
  destruct Hl as (body & Htr & Hio & Hin & Hle & Htd & [(-> & Hnw) | (-> & Hnw)]).
  - change (0 =? -1) with false in H. cbv iota in H.
    pose proof (sys_fsync_trace w2) as Hf.
    destruct (sys_fsync w2) as [fr w3]. cbn [fst snd] in Hf.
    injection H as <- <-. exists 0, body, [EvFsync fr].
    split; [rewrite Hf, Htr, Hs, <- !app_assoc; reflexivity|].
    split; [intros Hx; contradiction Hx; reflexivity|].
    repeat (split; [assumption|]).
    split; [right; exists fr; reflexivity|].
    left. repeat split; try assumption. exists fr. reflexivity.
  - change (-1 =? -1) with true in H. cbv iota in H.
    injection H as <- <-. exists 0, body, [].
    split; [rewrite Htr, Hs, app_nil_r, <- !app_assoc; reflexivity|].
    split; [intros Hx; contradiction Hx; reflexivity|].
    repeat (split; [assumption|]).
    split; [left; reflexivity|].
    right. repeat split. right. exact Hnw.
Qed.

(** ** Both callers of [write_data] ask for at least one byte *)






(** ** Every pass of [spc_fd_wipe] is bounded *)

Lemma nwritten_fsync_tail body tail :
  tail = [] \/ (exists fr, tail = [EvFsync fr]) ->
  nwritten (body ++ tail) = nwritten body.
Proof.
  intros [-> | (fr & ->)]; rewrite nwritten_app; cbn; lia.
Qed.

Lemma bounded_pass_intro S off body tail :
  (off <> 0 -> body = [] /\ tail = []) ->
  forallb is_pass_call body = true -> forallb in_buffer body = true ->
  nwritten body <= S ->
  tail = [] \/ (exists fr, tail = [EvFsync fr]) ->
  bounded_pass S (EvLseek 0 off :: body ++ tail).
Proof.
  intros Hoff Hpc Hin Hle Htail. exists off, (body ++ tail).
  split; [reflexivity|]. rewrite !forallb_app, Hpc, Hin.
  rewrite (nwritten_fsync_tail body tail Htail).
  split; [|split; [|split; [exact Hle|]]].
  - destruct Htail as [-> | (fr & ->)]; reflexivity.
  - destruct Htail as [-> | (fr & ->)]; reflexivity.
  - intros Hx. destruct (Hoff Hx) as [-> ->]. reflexivity.
Qed.

Lemma random_body_bounded fuel nbytes pass :
  0 <= nbytes < SIZE_MOD ->
  bounded_stage nbytes (random_body fuel nbytes pass).
Proof.
  intros Hn buf w r buf' w' Hlen H. unfold random_body, with_buf in H.
  destruct (random_pass fuel nbytes w) as [r1 w1|l] eqn:Hp; [|discriminate].
  injection H as <- <- <-. split; [exact Hlen|].
  apply random_pass_bounded in Hp; [|exact Hn].
  destruct Hp as (off & body & tail & Htr & Hoff & Hio & Hin & Hle & _ & Htail & _).
  exists [EvLseek 0 off :: body ++ tail]. cbn [concat]. rewrite app_nil_r.
  split; [exact Htr|]. constructor; [|constructor].
  apply bounded_pass_intro; try assumption. apply forallb_io_pass, Hio.
Qed.

Lemma pattern_pass_stage S fuel b bufsz w r w' :
  0 <= S < SIZE_MOD -> 0 < bufsz <= SPC_WIPE_BUFSIZE ->
  bufsz <= Z.of_nat (length b) ->
  pattern_pass fuel b bufsz S w = Ret r w' ->
  exists segs,
    w_trace w' = w_trace w ++ concat segs /\ Forall (bounded_pass S) segs.
Proof.
  intros Hn Hb Hlen Hp.
  apply pattern_pass_bounded in Hp;
    [|unfold SPC_WIPE_BUFSIZE, SIZE_MOD in *; lia|exact Hlen|exact Hn].
  destruct Hp as (off & body & tail & Htr & Hoff & Hio & Hin & Hle & _ & Htail & _).
  exists [EvLseek 0 off :: body ++ tail]. cbn [concat]. rewrite app_nil_r.
  split; [exact Htr|]. constructor; [|constructor].
  apply bounded_pass_intro; try assumption.
  - apply forallb_write_pass, Hio.
  - apply (forallb_inside_mono bufsz); [lia|exact Hin].
Qed.

Lemma single_body_bounded fuel nbytes pass :
  0 <= nbytes < SIZE_MOD ->
  bounded_stage nbytes (single_body fuel nbytes pass).
Proof.
  intros Hn buf w r buf' w' Hlen H. unfold single_body, with_buf in H.
  remember (nth (Z.to_nat pass) single_pats x00) as c eqn:Hc.
  assert (Hb : length (memset buf c SPC_WIPE_BUFSIZE) = length buf)
    by (apply memset_length; unfold SPC_WIPE_BUFSIZE in *; lia).
  remember (memset buf c SPC_WIPE_BUFSIZE) as b eqn:Hb0. clear Hb0.
  destruct (pattern_pass fuel b SPC_WIPE_BUFSIZE nbytes w) as [r1 w1|l] eqn:Hp;
    [|discriminate].
  injection H as <- <- <-. split; [lia|].
  apply (pattern_pass_stage nbytes fuel b SPC_WIPE_BUFSIZE w r1 w1);
    [exact Hn|unfold SPC_WIPE_BUFSIZE; lia|lia|exact Hp].
Qed.

Lemma triple_body_bounded fuel nbytes pass :
  0 <= nbytes < SIZE_MOD -> 0 <= pass < 6 ->
  bounded_stage nbytes (triple_body fuel nbytes 3 pass).
Proof.
  intros Hn Hpass buf w r buf' w' Hlen H. unfold triple_body, with_buf in H.
  pose proof (triple_pats_length pass Hpass) as Hp3.
  remember (nth (Z.to_nat pass) triple_pats []) as p eqn:Hp0. clear Hp0.
  change (SPC_WIPE_BUFSIZE / 3) with 1365 in H.
  change (3 * 1365) with 4095 in H.
  destruct (tile_buf_spec buf p 3 1365) as [Hb _];
    [lia|lia|lia|unfold SPC_WIPE_BUFSIZE in Hlen; lia|].
  remember (tile_buf buf p 3 1365) as b eqn:Hb0. clear Hb0.
  destruct (pattern_pass fuel b 4095 nbytes w) as [r1 w1|l] eqn:Hpp; [|discriminate].
  injection H as <- <- <-. split; [lia|].
  apply (pattern_pass_stage nbytes fuel b 4095 w r1 w1);
    [exact Hn|unfold SPC_WIPE_BUFSIZE; lia|unfold SPC_WIPE_BUFSIZE in Hlen; lia
    |exact Hpp].
Qed.

Lemma for_pass_bounded S body n :
  forall pass,
    (forall i, pass <= i < pass + Z.of_nat n -> bounded_stage S (body i)) ->
    bounded_stage S (for_pass n pass body).
Proof.
  induction n as [|n IH]; intros pass Hbody buf w r buf' w' Hlen H.
  - cbn [for_pass] in H. injection H as <- <- <-. split; [exact Hlen|].
    exists []. cbn [concat]. rewrite app_nil_r. split; [reflexivity|constructor].
  - cbn [for_pass] in H.
    destruct (body pass buf w) as [[r1 buf1] w1|l] eqn:Hb; [|discriminate].
    apply (Hbody pass ltac:(lia)) in Hb; [|exact Hlen].
    destruct Hb as (Hlen1 & segs1 & Htr1 & Hp1).
    destruct (r1 =? -1).
    + injection H as <- <- <-. split; [exact Hlen1|].
      exists segs1. split; assumption.
    + apply IH in H; [|intros i Hi; apply Hbody; lia|exact Hlen1].
      destruct H as (Hlen' & segs2 & Htr2 & Hp2). split; [exact Hlen'|].
      exists (segs1 ++ segs2). split.
      * rewrite Htr2, Htr1, concat_app, <- app_assoc. reflexivity.
      * apply Forall_app. split; assumption.
Qed.

Lemma and_then_bounded S stage k :
  bounded_stage S stage -> bounded_rest S k ->
  bounded_rest S (fun buf w => and_then (stage buf w) k).
Proof.
  intros Hs Hk buf w r w' Hlen H. unfold and_then in H.
  destruct (stage buf w) as [[r1 buf1] w1|l] eqn:Hst; [|discriminate].
  apply Hs in Hst; [|exact Hlen].
  destruct Hst as (Hlen1 & segs1 & Htr1 & Hp1).
  destruct (r1 =? -1).
  - injection H as <- <-. exists segs1. split; assumption.
  - apply Hk in H; [|exact Hlen1]. destruct H as (segs2 & Htr2 & Hp2).
    exists (segs1 ++ segs2). split.
    + rewrite Htr2, Htr1, concat_app, <- app_assoc. reflexivity.
    + apply Forall_app. split; assumption.
Qed.

Lemma wipe_tail_bounded fuel nbytes :
  0 <= nbytes < SIZE_MOD ->
  bounded_rest nbytes
    (fun buf w =>
       check buf, w <- for_pass 4 0 (random_body fuel nbytes) buf w ;;
       check buf, w <- single_body fuel nbytes 5 buf w ;;
       check buf, w <- single_body fuel nbytes 10 buf w ;;
       check buf, w <- for_pass 3 0 (triple_body fuel nbytes 3) buf w ;;
       check buf, w <- for_pass 16 0 (single_body fuel nbytes) buf w ;;
       check buf, w <- for_pass 6 0 (triple_body fuel nbytes 3) buf w ;;
       check buf, w <- for_pass 4 0 (random_body fuel nbytes) buf w ;;
       Ret 0 w).
Proof.
  intros Hn.
  assert (Hr : forall n, bounded_stage nbytes
                           (for_pass n 0 (random_body fuel nbytes))).
  { intros n. apply for_pass_bounded. intros i _. apply random_body_bounded, Hn. }
  assert (H1 : forall i, bounded_stage nbytes (single_body fuel nbytes i)).
  { intros i. apply single_body_bounded, Hn. }
  assert (H3 : forall n, (n <= 6)%nat ->
                         bounded_stage nbytes
                           (for_pass n 0 (triple_body fuel nbytes 3))).
  { intros n Hle. apply for_pass_bounded. intros i Hi.
    apply triple_body_bounded; [exact Hn|lia]. }
  apply and_then_bounded; [apply Hr|].
  apply and_then_bounded; [apply H1|].
  apply and_then_bounded; [apply H1|].
  apply and_then_bounded; [apply H3; lia|].
  apply and_then_bounded; [apply for_pass_bounded; intros i _; apply H1|].
  apply and_then_bounded; [apply H3; lia|].
  apply and_then_bounded; [apply Hr|].
  intros buf w r w' _ H. injection H as <- <-.
  exists []. cbn [concat]. rewrite app_nil_r. split; [reflexivity|constructor].
Qed.

Lemma spc_fd_wipe_bounded fuel w r w' :
  spc_fd_wipe fuel w = Ret r w' ->
  exists rc sz segs,
    new_events w w' = EvFstat rc sz :: concat segs /\
    Forall (bounded_pass (snapshot w)) segs.
Proof.
  intros H. unfold spc_fd_wipe, sys_fstat in H.
  destruct (e_stat (w_env w) (w_clock w)).
  - change (0 =? -1) with false in H. cbv beta iota zeta in H.
    destruct (Z.eqb_spec (Z.of_nat (length (file_now w))) 0) as [Hz|Hnz].
    + injection H as <- <-. exists 0, (Z.of_nat (length (file_now w))), [].
      split; [|constructor]. apply new_events_app. reflexivity.
    + pose proof (wipe_tail_bounded fuel (snapshot w) (size_t_range _)) as Hends.
      unfold snapshot in Hends.
      apply Hends in H; [|apply repeat_buf_length].
      destruct H as (segs & Htr & Hb). cbn [w_trace] in Htr.
      exists 0, (Z.of_nat (length (file_now w))), segs. split; [|exact Hb].
      apply new_events_app. rewrite Htr, <- app_assoc. reflexivity.
  - change (-1 =? -1) with true in H. cbv beta iota zeta in H.
    injection H as <- <-. exists (-1), 0, []. split; [|constructor].
    apply new_events_app. reflexivity.
Qed.

Lemma cut_bounded S segs :
  Forall (bounded_pass S) segs -> cut (concat segs) = ([], segs).
Proof.
  induction 1 as [|seg segs Hseg _ IH]; [reflexivity|].
  destruct Hseg as (off & rest & -> & Hpc & _). cbn [concat].
  rewrite (cut_pass (EvLseek 0 off) rest (concat segs));
    [|reflexivity|apply forallb_pass_no_seek, Hpc|rewrite IH; reflexivity].
  rewrite IH. reflexivity.
Qed.

Lemma spc_fd_wipe_bounded_passes fuel w r w' :
  spc_fd_wipe fuel w = Ret r w' ->
  Forall (bounded_pass (snapshot w)) (passes_of (new_events w w')).
Proof.
  intros H. destruct (spc_fd_wipe_bounded _ _ _ _ H) as (rc & sz & segs & -> & Hb).
  rewrite passes_of_fstat. unfold passes_of. rewrite (cut_bounded _ _ Hb).
  exact Hb.
Qed.

Lemma bounded_pass_in_buffer S seg :
  bounded_pass S seg -> forallb in_buffer seg = true.
Proof.
  intros (off & rest & -> & _ & Hin & _). cbn [forallb]. exact Hin.
Qed.

Lemma forallb_concat {A} (f : A -> bool) (ls : list (list A)) :
  Forall (fun l => forallb f l = true) ls -> forallb f (concat ls) = true.
Proof.
  induction 1 as [|l ls Hl _ IH]; [reflexivity|].
  cbn [concat]. rewrite forallb_app, Hl, IH. reflexivity.
Qed.

Lemma nwritten_concat_le S segs :
  0 <= S -> Forall (fun seg => nwritten seg <= S) segs ->
  nwritten (concat segs) <= Z.of_nat (length segs) * S.
Proof.
  intros HS. induction 1 as [|seg segs Hseg _ IH]; [cbn; lia|].
  cbn [concat length]. rewrite nwritten_app. nia.
Qed.

(** ** The tiling loop *)

(** The bytes of the buffer behind the last copy of the pattern are left
    as they were. *)
Lemma tile_rounds_tail buf pattern patternsz (k : nat) :
  0 < patternsz -> Z.of_nat (length pattern) = patternsz ->
  Z.of_nat k * patternsz <= Z.of_nat (length buf) ->
  forall i, (k * length pattern <= i)%nat ->
    nth i (fold_left
             (fun b i => memcpy b (Z.of_nat i * patternsz) pattern patternsz)
             (seq 0 k) buf) x00 = nth i buf x00.
Proof.
  intros Hp Hlen. induction k as [|k IH]; intros Hk i Hi; [reflexivity|].
  rewrite seq_S, fold_left_app. cbn [fold_left Nat.add].
  destruct (tile_rounds buf pattern patternsz k Hp Hlen ltac:(lia)) as [Hl _].
  cbv zeta in Hl.
  rewrite memcpy_nth by lia.
  replace (i <? Z.to_nat (Z.of_nat k * patternsz))%nat with false
    by (symmetry; apply Nat.ltb_ge; nia).
  replace (i <? Z.to_nat (Z.of_nat k * patternsz + patternsz))%nat with false
    by (symmetry; apply Nat.ltb_ge; nia).
  apply IH; [lia|nia].
Qed.

(** ** Every complete pass writes *)

Lemma nwritten_pos_write evs :
  0 < nwritten evs -> (1 <= count_ev is_write evs)%nat.
Proof.
  induction evs as [|ev evs IH]; [cbn; lia|].
  destruct ev as [| |boff count data ret errno| |data];
    try (intros H; apply IH, H).
  intros _. unfold count_ev. cbn [filter is_write length]. lia.
Qed.

Lemma nwritten_concat_eq S segs :
  Forall (fun seg => nwritten seg = S) segs ->
  nwritten (concat segs) = Z.of_nat (length segs) * S.
Proof.
  induction 1 as [|seg segs Hseg _ IH]; [reflexivity|].
  cbn [concat length]. rewrite nwritten_app, IH, Hseg. lia.
Qed.

Lemma complete_pass_written S d seg :
  complete_pass S d seg -> nwritten seg = S.
Proof.
  intros H. destruct (complete_pass_io _ _ _ H) as (body & fr & -> & _ & Hnw).
  change (nwritten (EvLseek 0 0 :: body ++ [EvFsync fr]))
    with (nwritten (body ++ [EvFsync fr])).
  rewrite nwritten_app. cbn [nwritten fold_right]. lia.
Qed.

Lemma complete_passes_written S ds segs :
  Forall2 (complete_pass S) ds segs ->
  Forall (fun seg => nwritten seg = S) segs.
Proof.
  induction 1 as [|d seg ds segs Hc _ IH]; constructor; [|exact IH].
  apply (complete_pass_written S d seg Hc).
Qed.

Lemma bounded_pass_transferred S seg :
  bounded_pass S seg -> Z.of_nat (length (transferred seg)) = nwritten seg.
Proof.
  intros Hb. apply transferred_length, (forallb_covers SPC_WIPE_BUFSIZE).
  apply (bounded_pass_in_buffer S seg Hb).
Qed.

(** * The claims *)

(** C1: on a non-empty file a wipe that succeeds has run exactly 35 passes
    and they are, in order, the passes of the plan: four random passes, the
    bytes 0x55 and 0xAA, the first three triples, the sixteen bytes 0x00 to
    0xFF, the six triples and four random passes; and on a kernel that never
    fails the wipe does succeed. *)
Theorem wipe_follows_gutmann_plan fuel w :
  file_now w <> [] ->
  (healthy (w_env w) -> enough_fuel (snapshot w) fuel ->
   exists w', spc_fd_wipe fuel w = Ret 0 w') /\
  (forall w',
     spc_fd_wipe fuel w = Ret 0 w' ->
     length (passes_of (new_events w w')) = 35%nat /\
     Forall2 (complete_pass (snapshot w)) gutmann_plan
       (passes_of (new_events w w'))).
Proof.
  intros Hne. split; [apply spc_fd_wipe_succeeds|].
  intros w' H.
  destruct (spc_fd_wipe_passes _ _ _ _ H Hne (wipe_success_stat _ _ _ H))
    as (evs & _ & _ & [(_ & Hall) | (Hr & _)]); [|discriminate].
  split; [|exact Hall].
  destruct (complete_passes_counts _ _ _ Hall) as (Hlen & _). exact Hlen.
Qed.

Lemma wipe_follows_gutmann_plan_witness :
  file_now w_rough3 <> [] /\
  length (passes_of
            (new_events w_rough3 (world_of (spc_fd_wipe 6 w_rough3) w_rough3)))
  = 35%nat.
Proof.
  pose proof rough3_not_empty as Hne. pose proof rough3_run as Hrun.
  split; [exact Hne|].
  exact (proj1 (proj2 (wipe_follows_gutmann_plan 6 w_rough3 Hne) _ Hrun)).
Defined.

(** C2: a pattern pass that runs to its end writes, at every offset [i]
    below the size, the byte [i mod L] of its pattern, for the one-byte
    patterns and for the three-byte patterns alike, however the kernel cuts
    the writes; over 5000 bytes the first triple gives 1666 times the
    pattern and then 0x92, 0x49.  On a kernel that never fails the pass does
    run to its end. *)
Theorem pattern_pass_output fuel nbytes pass buf w :
  0 <= nbytes < SIZE_MOD ->
  Z.of_nat (length buf) = SPC_WIPE_BUFSIZE ->
  (healthy (w_env w) -> enough_fuel nbytes fuel ->
   (exists buf' w', single_body fuel nbytes pass buf w = Ret (0, buf') w') /\
   (exists buf' w', triple_body fuel nbytes 3 pass buf w = Ret (0, buf') w')) /\
  (forall buf' w',
     single_body fuel nbytes pass buf w = Ret (0, buf') w' ->
     Z.of_nat (length (transferred (new_events w w'))) = nbytes /\
     forall i, (i < Z.to_nat nbytes)%nat ->
       nth i (transferred (new_events w w')) x00
       = nth (i mod 1) [nth (Z.to_nat pass) single_pats x00] x00) /\
  (forall buf' w',
     0 <= pass < 6 ->
     triple_body fuel nbytes 3 pass buf w = Ret (0, buf') w' ->
     Z.of_nat (length (transferred (new_events w w'))) = nbytes /\
     (forall i, (i < Z.to_nat nbytes)%nat ->
        nth i (transferred (new_events w w')) x00
        = nth (i mod 3) (nth (Z.to_nat pass) triple_pats []) x00) /\
     (nbytes = 5000 -> pass = 0 ->
      transferred (new_events w w')
      = concat (repeat [x92; x49; x24] 1666) ++ [x92; x49])).
Proof.
  intros Hn Hlen. split; [|split].
  - intros Hh Hf. split.
    + destruct (single_body_returns fuel nbytes pass Hn Hf buf w
                  (healthy_progress _ Hh)) as (r & buf' & w' & Hrun & _ & Hok).
      exists buf', w'. rewrite <- (Hok Hh). exact Hrun.
    + destruct (triple_body_returns fuel nbytes pass Hn Hf buf w
                  (healthy_progress _ Hh)) as (r & buf' & w' & Hrun & _ & Hok).
      exists buf', w'. rewrite <- (Hok Hh). exact Hrun.
  - intros buf' w' H.
    destruct (pattern_stage_output _ _ _ _ _ _ _
                (single_body_runs fuel nbytes pass Hn) Hlen H) as [Ht _].
    rewrite Ht. split; [apply tile_length; lia|].
    intros i Hi. apply (tile_nth [nth (Z.to_nat pass) single_pats x00]), Hi.
  - intros buf' w' Hpass H.
    pose proof (triple_pats_length pass Hpass) as Hl3.
    destruct (pattern_stage_output _ _ _ _ _ _ _
                (triple_body_runs fuel nbytes pass _ Hn eq_refl Hl3) Hlen H)
      as [Ht _].
    rewrite Ht. split; [apply tile_length; lia|]. split.
    + intros i Hi. rewrite tile_nth by exact Hi. rewrite Hl3. reflexivity.
    + intros -> ->. vm_compute. reflexivity.
Qed.

Lemma pattern_pass_output_witness :
  0 <= 5000 < SIZE_MOD /\
  value_of (triple_body 9 5000 3 0 scratch0 w_thousand)
  = Some (0, tile_buf scratch0 [x92; x49; x24] 3 1365) /\
  transferred
    (new_events w_thousand
       (world_of (triple_body 9 5000 3 0 scratch0 w_thousand) w_thousand))
  = concat (repeat [x92; x49; x24] 1666) ++ [x92; x49].
Proof.
  assert (Hn : 0 <= 5000 < SIZE_MOD) by (unfold SIZE_MOD; lia).
  assert (Hrun : triple_body 9 5000 3 0 scratch0 w_thousand
                 = Ret (0, tile_buf scratch0 [x92; x49; x24] 3 1365)
                     (world_of (triple_body 9 5000 3 0 scratch0 w_thousand)
                        w_thousand))
    by (vm_compute; reflexivity).
  split; [exact Hn|]. split; [rewrite Hrun; reflexivity|].
  exact (proj2 (proj2 (proj2 (proj2
           (pattern_pass_output 9 5000 0 scratch0 w_thousand Hn scratch0_length))
           _ _ ltac:(lia) Hrun)) eq_refl eq_refl).
Defined.



(** C4: the size is asked for once, by the first system call; every pass of
    a wipe that succeeds seeks to offset 0 and writes as many bytes as that
    one answer said, whatever the pass writes and whatever other processes
    do to the file meanwhile. *)
Theorem size_is_taken_once fuel w w' :
  file_now w <> [] ->
  spc_fd_wipe fuel w = Ret 0 w' ->
  let size := Z.of_nat (length (file_now w)) in
  hd_error (new_events w w') = Some (EvFstat 0 size) /\
  filter is_fstat (new_events w w') = [EvFstat 0 size] /\
  tl (new_events w w') = concat (passes_of (new_events w w')) /\
  length (passes_of (new_events w w')) = 35%nat /\
  Forall (fun seg =>
            exists body fr,
              seg = EvLseek 0 0 :: body ++ [EvFsync fr] /\
              forallb is_io body = true /\ nwritten body = snapshot w)
         (passes_of (new_events w w')) /\
  (size < SIZE_MOD -> snapshot w = size).
Proof.
  intros Hne H size.
  destruct (spc_fd_wipe_passes _ _ _ _ H Hne (wipe_success_stat _ _ _ H))
    as (evs & Hev & Hcat & [(_ & Hall) | (Hr & _)]); [|discriminate].
  destruct (complete_passes_counts _ _ _ Hall) as (Hlen & _ & _ & Hst).
  rewrite <- Hcat in Hst. fold size in Hev.
  split; [rewrite Hev; reflexivity|].
  split; [rewrite Hev; cbn [filter is_fstat]; rewrite (count_ev_zero _ _ Hst); reflexivity|].
  split; [rewrite Hev at 1; exact Hcat|].
  split; [exact Hlen|]. split.
  - clear - Hall. induction Hall as [|d seg ds segs Hc _ IH]; constructor.
    + apply (complete_pass_io _ _ _ Hc).
    + exact IH.
  - intros Hsz. unfold snapshot. apply size_t_small. subst size. lia.
Qed.

Lemma size_is_taken_once_witness :
  file_now w_rough3 <> [] /\
  filter is_fstat
    (new_events w_rough3 (world_of (spc_fd_wipe 6 w_rough3) w_rough3))
  = [EvFstat 0 3] /\
  length (w_file (world_of (spc_fd_wipe 6 w_rough3) w_rough3)) = 3%nat.
Proof.
  pose proof rough3_not_empty as Hne. pose proof rough3_run as Hrun.
  split; [exact Hne|]. split.
  - exact (proj1 (proj2 (size_is_taken_once 6 w_rough3 _ Hne Hrun))).
  - vm_compute. reflexivity.
Defined.

(** C5: when [fstat] reports size 0 the wipe returns 0 at once, with no
    seek, no write and no flush; on a non-empty file a wipe that succeeds has
    run exactly 35 passes, each with its one seek and its one flush, and
    each of them an overwrite: they are the passes of the plan, every one
    has sought to offset 0 and has written, with at least one write, as
    many bytes as the size taken at the start, 35 times that size in all. *)
Theorem empty_file_is_left_alone fuel w :
  (stat_ok w = true -> file_now w = [] ->
   exists w', spc_fd_wipe fuel w = Ret 0 w' /\ new_events w w' = [EvFstat 0 0]) /\
  (forall w',
     file_now w <> [] -> spc_fd_wipe fuel w = Ret 0 w' ->
     length (passes_of (new_events w w')) = 35%nat /\
     count_ev is_seek (new_events w w') = 35%nat /\
     count_ev is_fsync (new_events w w') = 35%nat /\
     Forall2 (complete_pass (snapshot w)) gutmann_plan
       (passes_of (new_events w w')) /\
     Forall (fun seg =>
               hd_error seg = Some (EvLseek 0 0) /\
               nwritten seg = snapshot w /\
               Z.of_nat (length (transferred seg)) = snapshot w /\
               (0 < snapshot w -> (1 <= count_ev is_write seg)%nat))
       (passes_of (new_events w w')) /\
     nwritten (new_events w w') = 35 * snapshot w /\
     (Z.of_nat (length (file_now w)) < SIZE_MOD -> 0 < snapshot w)).
Proof.
  split.
  - intros Hok He. unfold spc_fd_wipe, sys_fstat. unfold stat_ok in Hok.
    rewrite Hok, He. eexists. split; [reflexivity|].
    apply new_events_app. reflexivity.
  - intros w' Hne H.
    pose proof (spc_fd_wipe_bounded_passes _ _ _ _ H) as Hb.
    destruct (spc_fd_wipe_passes _ _ _ _ H Hne (wipe_success_stat _ _ _ H))
      as (evs & Hev & Hcat & [(_ & Hall) | (Hr & _)]); [|discriminate].
    destruct (complete_passes_counts _ _ _ Hall) as (Hlen & Hsk & Hfs & _).
    pose proof (complete_passes_written _ _ _ Hall) as Hwr.
    rewrite <- Hcat in Hsk, Hfs. split; [exact Hlen|].
    split; [rewrite Hev; exact Hsk|]. split; [rewrite Hev; exact Hfs|].
    split; [exact Hall|]. split; [|split].
    + assert (Hhd : Forall (fun seg => hd_error seg = Some (EvLseek 0 0))
                      (passes_of (new_events w w'))).
      { clear - Hall. induction Hall as [|d seg ds segs Hc _ IH]; constructor;
          [|exact IH].
        destruct (complete_pass_io _ _ _ Hc) as (body & fr & -> & _).
        reflexivity. }
      rewrite Forall_forall in Hb, Hwr, Hhd |- *. intros seg Hin.
      specialize (Hb seg Hin). specialize (Hwr seg Hin).
      split; [exact (Hhd seg Hin)|]. split; [exact Hwr|].
      split; [rewrite (bounded_pass_transferred _ _ Hb); exact Hwr|].
      intros Hpos. apply nwritten_pos_write. lia.
    + rewrite Hev.
      change (nwritten (EvFstat 0 (Z.of_nat (length (file_now w))) :: evs))
        with (nwritten evs).
      rewrite Hcat, (nwritten_concat_eq _ _ Hwr), Hlen. reflexivity.
    + intros Hsz. unfold snapshot. rewrite size_t_small by lia.
      destruct (file_now w); [contradiction|cbn [length]; lia].
Qed.

Lemma empty_file_is_left_alone_witness :
  (exists w', spc_fd_wipe 0 w_empty = Ret 0 w' /\
              new_events w_empty w' = [EvFstat 0 0]) /\
  count_ev is_seek
    (new_events w_calm3 (world_of (spc_fd_wipe 2 w_calm3) w_calm3)) = 35%nat.
Proof.
  split.
  - apply (proj1 (empty_file_is_left_alone 0 w_empty)); reflexivity.
  - pose proof calm3_not_empty as Hne. pose proof calm3_run as Hrun.
    exact (proj1 (proj2 (proj2 (empty_file_is_left_alone 2 w_calm3) _ Hne Hrun))).
Defined.

(** C6: when a pass fails the wipe returns [-1] there and then: the passes
    before it are the passes of the plan in order, each complete, the pass
    that failed is the last one of the trace and the system call that failed
    is the last event, so that no later pass is attempted and nothing is
    written back; the wipe returns 0 only when all 35 passes are complete.
    On a kernel that makes progress the wipe returns one or the other. *)
Theorem first_failure_ends_wipe fuel w :
  stat_ok w = true -> file_now w <> [] ->
  (progress (w_env w) -> enough_fuel (snapshot w) fuel ->
   exists r w', spc_fd_wipe fuel w = Ret r w') /\
  (forall r w',
     spc_fd_wipe fuel w = Ret r w' ->
     (r = 0 /\
      Forall2 (complete_pass (snapshot w)) gutmann_plan
        (passes_of (new_events w w'))) \/
     (r = -1 /\
      exists done seg,
        passes_of (new_events w w') = done ++ [seg] /\
        (length done < 35)%nat /\
        Forall2 (complete_pass (snapshot w)) (firstn (length done) gutmann_plan)
          done /\
        failed_pass seg /\
        tl (new_events w w') = concat done ++ seg /\
        (failure_kind (last_event (new_events w w')) = Some SeekError \/
         failure_kind (last_event (new_events w w')) = Some WriteError))).
Proof.
  intros Hok Hne. split.
  { intros Hp Hf.
    destruct (spc_fd_wipe_returns fuel w Hp Hf) as (r & w' & H & _).
    exists r, w'. exact H. }
  intros r w' H.
  destruct (spc_fd_wipe_passes _ _ _ _ H Hne Hok)
    as (evs & Hev & Hcat & [(Hr & Hall) | (Hr & done & seg & Hpo & Hlen & Hall & Hf)]).
  - left. split; assumption.
  - right. split; [exact Hr|]. exists done, seg.
    split; [exact Hpo|]. split; [exact Hlen|]. split; [exact Hall|].
    split; [exact Hf|].
    assert (Hevs : evs = concat done ++ seg).
    { rewrite Hcat, Hpo, concat_app. cbn [concat]. rewrite app_nil_r. reflexivity. }
    rewrite Hev. cbn [tl]. split; [exact Hevs|].
    pose proof (failed_pass_not_nil _ Hf) as Hseg.
    rewrite last_event_cons by (rewrite Hevs; destruct (concat done); [exact Hseg|discriminate]).
    rewrite Hevs, last_event_app by exact Hseg.
    apply failed_pass_last, Hf.
Qed.

Lemma first_failure_ends_wipe_witness :
  stat_ok w_badwrite = true /\ file_now w_badwrite <> [] /\
  spc_fd_wipe 6 w_badwrite
  = Ret (-1) (world_of (spc_fd_wipe 6 w_badwrite) w_badwrite) /\
  length (passes_of
            (new_events w_badwrite (world_of (spc_fd_wipe 6 w_badwrite) w_badwrite)))
  = 2%nat.
Proof.
  assert (Hok : stat_ok w_badwrite = true) by reflexivity.
  assert (Hne : file_now w_badwrite <> []) by (vm_compute; discriminate).
  assert (Hrun : spc_fd_wipe 6 w_badwrite
                 = Ret (-1) (world_of (spc_fd_wipe 6 w_badwrite) w_badwrite))
    by (vm_compute; reflexivity).
  split; [exact Hok|]. split; [exact Hne|]. split; [exact Hrun|].
  destruct (proj2 (first_failure_ends_wipe 6 w_badwrite Hok Hne) _ _ Hrun)
    as [(Hr & _) | (_ & done & seg & Hpo & _)]; [discriminate|].
  vm_compute. reflexivity.
Defined.




(** C8: what [fsync] returns is never looked at.  Give the kernel any other
    answers to [fsync] and [random_pass], [pattern_pass] and [spc_fd_wipe]
    return what they returned; and a pass whose last system call is its
    flush has returned 0, whatever the flush answered. *)
Theorem flush_result_is_ignored fuel s w nbytes buf bufsz :
  value_of (random_pass fuel nbytes (with_sync s w))
  = value_of (random_pass fuel nbytes w) /\
  value_of (pattern_pass fuel buf bufsz nbytes (with_sync s w))
  = value_of (pattern_pass fuel buf bufsz nbytes w) /\
  value_of (spc_fd_wipe fuel (with_sync s w)) = value_of (spc_fd_wipe fuel w) /\
  (forall r w',
     0 <= nbytes < SIZE_MOD ->
     random_pass fuel nbytes w = Ret r w' ->
     is_fsync (last_event (new_events w w')) = true -> r = 0) /\
  (forall r w',
     0 <= nbytes < SIZE_MOD -> 0 < bufsz < SIZE_MOD ->
     bufsz <= Z.of_nat (length buf) ->
     pattern_pass fuel buf bufsz nbytes w = Ret r w' ->
     is_fsync (last_event (new_events w w')) = true -> r = 0).
Proof.
  pose proof (with_sync_same s w) as HR.
  split; [|split; [|split; [|split]]].
  - apply (sim_value same_but_sync).
    apply random_pass_sim;
      auto using sync_lseek, sync_write, sync_fsync, sync_rand.
  - apply (sim_value same_but_sync).
    apply pattern_pass_sim;
      auto using sync_lseek, sync_write, sync_fsync, sync_rand.
  - apply (sim_value same_but_sync).
    apply spc_fd_wipe_sim;
      auto using sync_lseek, sync_write, sync_fsync, sync_rand;
      apply sync_fstat, HR.
  - intros r w' Hn H Hlast. apply random_pass_spec in H; [|exact Hn].
    destruct H as (seg & Htr & [(-> & _) | (_ & Hf)]); [reflexivity|].
    rewrite (new_events_app _ _ _ Htr), (failed_pass_not_flushed _ Hf) in Hlast.
    discriminate.
  - intros r w' Hn Hb Hlen H Hlast.
    apply pattern_pass_spec in H; [|exact Hb|exact Hlen|exact Hn].
    destruct H as (seg & Htr & [(-> & _) | (_ & Hf)]); [reflexivity|].
    rewrite (new_events_app _ _ _ Htr), (failed_pass_not_flushed _ Hf) in Hlast.
    discriminate.
Qed.

Lemma flush_result_is_ignored_witness :
  e_sync (w_env w_rough3) 0%nat = false /\
  value_of (spc_fd_wipe 6 (with_sync (fun _ => true) w_rough3)) = Some 0 /\
  value_of (spc_fd_wipe 6 w_rough3) = Some 0.
Proof.
  split; [reflexivity|].
  assert (H0 : value_of (spc_fd_wipe 6 w_rough3) = Some 0)
    by (rewrite rough3_run; reflexivity).
  split; [|exact H0].
  rewrite <- H0.
  exact (proj1 (proj2 (proj2
           (flush_result_is_ignored 6 (fun _ => true) w_rough3 0 [] 0)))).
Defined.

(** C9: the bytes in the file play no part.  Two worlds that differ only in
    the bytes of the file, of one size when [fstat] looks, go through the
    same system calls with the same arguments and the same data, get the
    same answers and return the same value; and so do single passes. *)
Theorem file_content_is_never_read fuel w1 w2 :
  same_but_file w1 w2 ->
  length (file_now w1) = length (file_now w2) ->
  value_of (spc_fd_wipe fuel w1) = value_of (spc_fd_wipe fuel w2) /\
  w_trace (world_of (spc_fd_wipe fuel w1) w1)
  = w_trace (world_of (spc_fd_wipe fuel w2) w2) /\
  (forall nbytes,
     sim_outcome same_but_file (random_pass fuel nbytes w1)
       (random_pass fuel nbytes w2)) /\
  (forall buf bufsz filesz,
     sim_outcome same_but_file (pattern_pass fuel buf bufsz filesz w1)
       (pattern_pass fuel buf bufsz filesz w2)).
Proof.
  intros HR Hlen.
  assert (Hsim : sim_outcome same_but_file (spc_fd_wipe fuel w1) (spc_fd_wipe fuel w2)).
  { apply spc_fd_wipe_sim;
      auto using file_lseek, file_write, file_fsync, file_rand;
      apply file_fstat; assumption. }
  split; [apply (sim_value _ _ _ Hsim)|].
  split; [apply (sim_file_trace _ _ _ _ HR Hsim)|]. split.
  - intros nbytes. apply random_pass_sim;
      auto using file_lseek, file_write, file_fsync, file_rand.
  - intros buf bufsz filesz. apply pattern_pass_sim;
      auto using file_lseek, file_write, file_fsync, file_rand.
Qed.

Lemma file_content_is_never_read_witness :
  w_file w_calm3 <> w_file w_calm3' /\
  w_trace (world_of (spc_fd_wipe 2 w_calm3) w_calm3)
  = w_trace (world_of (spc_fd_wipe 2 w_calm3') w_calm3').
Proof.
  split; [discriminate|].
  assert (HR : same_but_file w_calm3 w_calm3') by (repeat split).
  assert (Hlen : length (file_now w_calm3) = length (file_now w_calm3'))
    by reflexivity.
  exact (proj1 (proj2 (file_content_is_never_read 2 w_calm3 w_calm3' HR Hlen))).
Defined.

(** C10: the chunk loops end.  Each round writes
    [min(buffer size, bytes left)], a positive count while bytes are left,
    so a round per chunk and one more is all the loops of [random_pass] and
    [pattern_pass] can use, whatever the kernel does; [pattern_pass] turns a
    buffer of size 0 away before its loop; and when the kernel makes
    progress both passes return. *)
Theorem chunk_loops_terminate fuel wfuel nbytes buf bufsz w :
  0 <= nbytes < SIZE_MOD -> 0 < bufsz ->
  (chunks SPC_WIPE_BUFSIZE nbytes < Z.of_nat fuel ->
   random_loop fuel wfuel nbytes w <> OutOfFuel InChunkLoop) /\
  (chunks bufsz nbytes < Z.of_nat fuel ->
   pattern_loop fuel wfuel buf bufsz nbytes w <> OutOfFuel InChunkLoop) /\
  pattern_pass fuel buf 0 nbytes w = Ret (-1) w /\
  (progress (w_env w) ->
   chunks SPC_WIPE_BUFSIZE nbytes < Z.of_nat fuel ->
   SPC_WIPE_BUFSIZE <= Z.of_nat fuel ->
   exists r w', random_pass fuel nbytes w = Ret r w') /\
  (progress (w_env w) ->
   chunks bufsz nbytes < Z.of_nat fuel ->
   Z.max 1 (Z.min bufsz nbytes) <= Z.of_nat fuel ->
   exists r w', pattern_pass fuel buf bufsz nbytes w = Ret r w').
Proof.
  intros Hn Hb. split; [|split; [|split; [|split]]].
  - intros Hf. apply random_loop_fuel; assumption.
  - intros Hf. apply pattern_loop_fuel; assumption.
  - reflexivity.
  - intros Hp Hf Hw.
    destruct (random_pass_returns fuel nbytes w Hp Hn Hf Hw) as (r & w' & H & _).
    exists r, w'. exact H.
  - intros Hp Hf Hw.
    destruct (pattern_pass_returns fuel buf bufsz nbytes w Hp ltac:(lia) Hn Hf
                ltac:(lia) ltac:(lia)) as (r & w' & H & _).
    exists r, w'. exact H.
Qed.

Lemma chunk_loops_terminate_witness :
  0 <= 5000 < SIZE_MOD /\ 0 < 4095 /\
  chunks 4095 5000 < Z.of_nat 3 /\
  pattern_loop 3 0 scratch0 4095 5000 w_deaf <> OutOfFuel InChunkLoop /\
  pattern_loop 2 9 scratch0 4095 5000 w_calm3 = OutOfFuel InChunkLoop.
Proof.
  assert (Hn : 0 <= 5000 < SIZE_MOD) by (unfold SIZE_MOD; lia).
  assert (Hb : 0 < 4095) by lia.
  assert (Hf : chunks 4095 5000 < Z.of_nat 3) by (vm_compute; reflexivity).
  split; [exact Hn|]. split; [exact Hb|]. split; [exact Hf|]. split.
  - exact (proj1 (proj2 (chunk_loops_terminate 3 0 5000 scratch0 4095 w_deaf Hn Hb))
             Hf).
  - vm_compute. reflexivity.
Defined.

(** * Further properties *)

(** ** The file after the system calls of a trace *)

Lemma overwrite_some file pos d :
  d <> [] ->
  overwrite file pos d
  = firstn pos file ++ repeat x00 (pos - length file) ++ d
      ++ skipn (pos + length d) file.
Proof. destruct d; [contradiction|reflexivity]. Qed.

Lemma overwrite_length_le file pos d :
  (pos + length d <= length file)%nat ->
  length (overwrite file pos d) = length file.
Proof.
  intros H. destruct d as [|a d]; [reflexivity|].
  remember (a :: d) as x eqn:Hx.
  rewrite overwrite_some by (subst x; discriminate).
  rewrite !length_app, length_firstn, repeat_length, length_skipn. lia.
Qed.

Lemma overwrite_app file pos d1 d2 :
  overwrite (overwrite file pos d1) (pos + length d1) d2
  = overwrite file pos (d1 ++ d2).
Proof.
  destruct d1 as [|a d1]; [rewrite Nat.add_0_r; reflexivity|].
  destruct d2 as [|b d2]; [rewrite app_nil_r; reflexivity|].
  remember (a :: d1) as x eqn:Hx. remember (b :: d2) as y eqn:Hy.
  assert (Hx0 : x <> []) by (subst x; discriminate).
  assert (Hy0 : y <> []) by (subst y; discriminate).
  assert (Hxy0 : x ++ y <> []) by (subst x; discriminate).
  rewrite (overwrite_some file pos x Hx0), (overwrite_some _ _ y Hy0),
    (overwrite_some file pos (x ++ y) Hxy0).
  set (pre := firstn pos file ++ repeat x00 (pos - length file)).
  assert (Hpre : length pre = pos).
  { subst pre. rewrite length_app, length_firstn, repeat_length. lia. }
  replace (firstn pos file ++ repeat x00 (pos - length file) ++ x
             ++ skipn (pos + length x) file)
    with ((pre ++ x) ++ skipn (pos + length x) file)
    by (subst pre; rewrite <- !app_assoc; reflexivity).
  replace (firstn pos file ++ repeat x00 (pos - length file) ++ (x ++ y)
             ++ skipn (pos + length (x ++ y)) file)
    with ((pre ++ x) ++ y ++ skipn (pos + length (x ++ y)) file)
    by (subst pre; rewrite <- !app_assoc; reflexivity).
  assert (Hpx : length (pre ++ x) = (pos + length x)%nat)
    by (rewrite length_app, Hpre; reflexivity).
  rewrite <- Hpx.
  remember (pre ++ x) as px eqn:Hpxe.
  remember (skipn (length px) file) as rest eqn:Hrest.
  assert (H1 : firstn (length px) (px ++ rest) = px).
  { replace (length px) with (length px + 0)%nat by lia.
    rewrite firstn_app_2, firstn_O. apply app_nil_r. }
  assert (H2 : (length px - length (px ++ rest) = 0)%nat)
    by (rewrite length_app; lia).
  assert (H3 : skipn (length px + length y) (px ++ rest) = skipn (length y) rest).
  { rewrite skipn_app, skipn_all2 by lia. cbn [app]. f_equal. lia. }
  rewrite H1, H2, H3. cbn [repeat app].
  rewrite Hrest, skipn_skipn, length_app, Hpx.
  replace (length y + (pos + length x))%nat
    with (pos + (length x + length y))%nat by lia.
  reflexivity.
Qed.

Lemma overwrite_zero file d :
  overwrite file 0 d = d ++ skipn (length d) file.
Proof. destruct d; reflexivity. Qed.

Lemma overwrite_start file d :
  (length file <= length d)%nat -> overwrite file 0 d = d.
Proof.
  intros Hl. rewrite overwrite_zero, skipn_all2 by exact Hl. apply app_nil_r.
Qed.

Lemma overwrite_end file d : overwrite file (length file) d = file ++ d.
Proof.
  destruct d as [|a d]; [symmetry; apply app_nil_r|].
  remember (a :: d) as x eqn:Hx.
  rewrite overwrite_some by (subst x; discriminate).
  rewrite firstn_all, Nat.sub_diag, skipn_all2 by lia.
  cbn [repeat app]. rewrite app_nil_r. reflexivity.
Qed.

Lemma replay_app st a b : replay st (a ++ b) = replay (replay st a) b.
Proof. unfold replay. apply fold_left_app. Qed.

(** The writes, draws and flushes of a pass, from offset [pos] on, put
    what went out at [pos] and move the offset past it. *)
Lemma replay_calls body :
  forall file pos,
    0 <= pos ->
    forallb is_pass_call body = true -> forallb covers body = true ->
    replay (file, pos) body
    = (overwrite file (Z.to_nat pos) (transferred body), pos + nwritten body).
Proof.
  induction body as [|ev body IH]; intros file pos Hp Hio Hcv.
  - cbn [replay fold_left transferred flat_map nwritten fold_right overwrite].
    rewrite Z.add_0_r. reflexivity.
  - cbn [forallb] in Hio, Hcv.
    apply andb_true_iff in Hio. destruct Hio as [Hio1 Hio].
    apply andb_true_iff in Hcv. destruct Hcv as [Hcv1 Hcv].
    destruct ev as [| |boff count data ret errno|fr|data]; try discriminate.
    + change (replay (file, pos) (EvWrite boff count data ret errno :: body))
        with (replay (apply_event (file, pos) (EvWrite boff count data ret errno)) body).
      rewrite nwritten_cons_write, transferred_cons_write.
      cbn [apply_event fst snd covers] in *. apply Z.leb_le in Hcv1.
      destruct (Z.leb_spec 0 ret) as [Hr|Hr].
      * assert (Hlen : length (firstn (Z.to_nat ret) data) = Z.to_nat ret)
          by (rewrite length_firstn; lia).
        rewrite IH; [|lia|assumption|assumption].
        replace (Z.to_nat (pos + ret))
          with (Z.to_nat pos + length (firstn (Z.to_nat ret) data))%nat by lia.
        rewrite overwrite_app. f_equal. lia.
      * rewrite IH by assumption.
        replace (Z.to_nat ret) with 0%nat by lia. cbn [firstn app].
        f_equal. lia.
    + change (replay (file, pos) (EvFsync fr :: body)) with (replay (file, pos) body).
      rewrite IH by assumption. reflexivity.
    + change (replay (file, pos) (EvRand data :: body)) with (replay (file, pos) body).
      rewrite IH by assumption. reflexivity.
Qed.

Lemma transferred_seek off ret rest :
  transferred (EvLseek off ret :: rest) = transferred rest.
Proof. reflexivity. Qed.

Lemma nwritten_seek off ret rest :
  nwritten (EvLseek off ret :: rest) = nwritten rest.
Proof. reflexivity. Qed.

(** A pass puts what it wrote at the start of the file, and leaves the
    offset behind it. *)
Lemma replay_pass off rest file pos :
  forallb is_pass_call rest = true -> forallb covers rest = true ->
  (off <> 0 -> rest = []) ->
  fst (replay (file, pos) (EvLseek 0 off :: rest))
  = overwrite file 0 (transferred rest) /\
  (off = 0 -> snd (replay (file, pos) (EvLseek 0 off :: rest)) = nwritten rest).
Proof.
  intros Hpc Hcv Hoff.
  change (replay (file, pos) (EvLseek 0 off :: rest))
    with (replay (file, if 0 <=? off then off else pos) rest).
  destruct (Z.eq_dec off 0) as [->|Hne].
  - change (0 <=? 0) with true. cbv iota.
    rewrite (replay_calls rest file 0 ltac:(lia) Hpc Hcv).
    split; [reflexivity|]. intros _. reflexivity.
  - rewrite (Hoff Hne). split; [reflexivity|]. intros Hx. contradiction.
Qed.

Lemma replay_bounded_pass S seg file pos :
  bounded_pass S seg ->
  fst (replay (file, pos) seg) = overwrite file 0 (transferred seg) /\
  Z.of_nat (length (transferred seg)) = nwritten seg /\
  nwritten seg <= S.
Proof.
  intros (off & rest & -> & Hpc & Hin & Hle & Hoff).
  assert (Hcv : forallb covers rest = true)
    by (apply (forallb_covers SPC_WIPE_BUFSIZE), Hin).
  rewrite transferred_seek, nwritten_seek.
  split; [|split; [apply transferred_length, Hcv|exact Hle]].
  apply (replay_pass off rest file pos Hpc Hcv Hoff).
Qed.

Lemma replay_bounded_length S segs :
  Forall (bounded_pass S) segs ->
  forall file pos,
    Z.of_nat (length file) = S ->
    length (fst (replay (file, pos) (concat segs))) = length file.
Proof.
  induction 1 as [|seg segs Hseg _ IH]; intros file pos Hlen; [reflexivity|].
  cbn [concat]. rewrite replay_app.
  destruct (replay_bounded_pass S seg file pos Hseg) as (Hf & Hl & Hle).
  destruct (replay (file, pos) seg) as [file1 pos1] eqn:Hr. cbn [fst] in Hf.
  assert (Hlen1 : length file1 = length file)
    by (rewrite Hf; apply overwrite_length_le; lia).
  rewrite IH by lia. exact Hlen1.
Qed.

(** *** Every call keeps the file in step with the trace *)

Lemma new_events_snoc w0 w w1 ev :
  (length (w_trace w0) <= length (w_trace w))%nat ->
  w_trace w1 = w_trace w ++ [ev] ->
  new_events w0 w1 = new_events w0 w ++ [ev] /\
  (length (w_trace w0) <= length (w_trace w1))%nat.
Proof.
  intros Hle Htr. unfold new_events. rewrite Htr, skipn_app, length_app.
  replace (length (w_trace w0) - length (w_trace w))%nat with 0%nat by lia.
  cbn [skipn length]. split; [reflexivity|lia].
Qed.

Lemma new_events_refl w : new_events w w = [].
Proof. unfold new_events. apply skipn_all. Qed.

Lemma replayed_step w0 w w1 ev :
  replayed w0 w ->
  w_env w1 = w_env w ->
  w_trace w1 = w_trace w ++ [ev] ->
  (w_file w1, w_pos w1) = apply_event (w_file w, w_pos w) ev ->
  replayed w0 w1.
Proof.
  intros (Hq & Ha & Hle & Hst) Henv Htr Hev.
  destruct (new_events_snoc w0 w w1 ev Hle Htr) as [Hne Hle1].
  split; [rewrite Henv; exact Hq|]. split; [rewrite Henv; exact Ha|].
  split; [exact Hle1|].
  rewrite Hne, replay_app, <- Hst. exact Hev.
Qed.

Lemma replayed_refl w :
  quiet (w_env w) -> e_append (w_env w) = false -> replayed w w.
Proof.
  intros Hq Ha. split; [exact Hq|]. split; [exact Ha|]. split; [lia|].
  rewrite new_events_refl. reflexivity.
Qed.

Lemma watched_lseek w0 w1 w2 off :
  watched w0 w1 w2 ->
  fst (sys_lseek w1 off) = fst (sys_lseek w2 off) /\
  watched w0 (snd (sys_lseek w1 off)) (snd (sys_lseek w2 off)).
Proof.
  intros [<- Hr]. split; [reflexivity|]. split; [reflexivity|].
  apply (replayed_step w0 w1 _ (EvLseek off (fst (sys_lseek w1 off))) Hr);
    try reflexivity.
  unfold sys_lseek, file_now. cbn [fst snd w_file w_pos apply_event].
  rewrite (proj1 Hr). reflexivity.
Qed.

Lemma watched_write w0 w1 w2 boff count data :
  watched w0 w1 w2 ->
  fst (sys_write w1 boff count data) = fst (sys_write w2 boff count data) /\
  watched w0 (snd (sys_write w1 boff count data))
    (snd (sys_write w2 boff count data)).
Proof.
  intros [<- Hr]. split; [reflexivity|]. split; [reflexivity|].
  unfold sys_write, file_now, landing.
  rewrite (proj1 Hr), (proj1 (proj2 Hr)). cbn [andb].
  destruct (e_write (w_env w1) (w_clock w1)) as [k|e]; cbn [snd].
  - apply (replayed_step w0 w1 _
             (EvWrite boff count data (Z.max 0 (Z.min k count)) 0) Hr);
      try reflexivity.
    cbn [w_file w_pos apply_event fst snd].
    replace (0 <=? Z.max 0 (Z.min k count)) with true
      by (symmetry; apply Z.leb_le; lia).
    reflexivity.
  - apply (replayed_step w0 w1 _ (EvWrite boff count data (-1) e) Hr);
      reflexivity.
Qed.

Lemma watched_fsync w0 w1 w2 :
  watched w0 w1 w2 -> watched w0 (snd (sys_fsync w1)) (snd (sys_fsync w2)).
Proof.
  intros [<- Hr]. split; [reflexivity|].
  apply (replayed_step w0 w1 _ (EvFsync (fst (sys_fsync w1))) Hr);
    try reflexivity.
  unfold sys_fsync, file_now. cbn [fst snd w_file w_pos apply_event].
  rewrite (proj1 Hr). reflexivity.
Qed.

Lemma watched_rand w0 w1 w2 n :
  watched w0 w1 w2 ->
  fst (spc_rand w1 n) = fst (spc_rand w2 n) /\
  watched w0 (snd (spc_rand w1 n)) (snd (spc_rand w2 n)).
Proof.
  intros [<- Hr]. split; [reflexivity|]. split; [reflexivity|].
  apply (replayed_step w0 w1 _ (EvRand (fst (spc_rand w1 n))) Hr); reflexivity.
Qed.

Lemma watched_fstat w0 w :
  replayed w0 w -> watched w0 (snd (sys_fstat w)) (snd (sys_fstat w)).
Proof.
  intros Hr. split; [reflexivity|].
  apply (replayed_step w0 w _
           (EvFstat (fst (fst (sys_fstat w))) (snd (fst (sys_fstat w)))) Hr);
    try reflexivity.
  unfold sys_fstat, file_now. cbn [fst snd w_file w_pos apply_event].
  rewrite (proj1 Hr). reflexivity.
Qed.

Lemma watched_refl w :
  quiet (w_env w) -> e_append (w_env w) = false -> watched w w w.
Proof. intros Hq Ha. split; [reflexivity|apply replayed_refl; assumption]. Qed.

Lemma watched_ret {A} w0 (o : outcome A) a w' :
  sim_outcome (watched w0) o o -> o = Ret a w' ->
  (w_file w', w_pos w') = replay (w_file w0, w_pos w0) (new_events w0 w').
Proof. intros H ->. cbn [sim_outcome] in H. apply H. Qed.

(** When no other process touches the file and the descriptor is not in
    append mode, the file and the offset that [write_data], a pass or a
    wipe leaves are those its system calls make of the ones it found. *)
Lemma write_data_replayed fuel buf nbytes w r w' :
  quiet (w_env w) -> e_append (w_env w) = false ->
  write_data fuel buf nbytes w = Ret r w' ->
  (w_file w', w_pos w') = replay (w_file w, w_pos w) (new_events w w').
Proof.
  intros Hq Ha H. refine (watched_ret w _ r w' _ H).
  apply write_data_sim; auto using watched_write, watched_refl.
Qed.

Lemma random_pass_replayed fuel nbytes w r w' :
  quiet (w_env w) -> e_append (w_env w) = false ->
  random_pass fuel nbytes w = Ret r w' ->
  (w_file w', w_pos w') = replay (w_file w, w_pos w) (new_events w w').
Proof.
  intros Hq Ha H. refine (watched_ret w _ r w' _ H).
  apply random_pass_sim;
    auto using watched_lseek, watched_write, watched_fsync, watched_rand,
      watched_refl.
Qed.

Lemma pattern_pass_replayed fuel buf bufsz filesz w r w' :
  quiet (w_env w) -> e_append (w_env w) = false ->
  pattern_pass fuel buf bufsz filesz w = Ret r w' ->
  (w_file w', w_pos w') = replay (w_file w, w_pos w) (new_events w w').
Proof.
  intros Hq Ha H. refine (watched_ret w _ r w' _ H).
  apply pattern_pass_sim;
    auto using watched_lseek, watched_write, watched_fsync, watched_refl.
Qed.

Lemma spc_fd_wipe_replayed fuel w r w' :
  quiet (w_env w) -> e_append (w_env w) = false ->
  spc_fd_wipe fuel w = Ret r w' ->
  (w_file w', w_pos w') = replay (w_file w, w_pos w) (new_events w w').
Proof.
  intros Hq Ha H. refine (watched_ret w _ r w' _ H).
  apply spc_fd_wipe_sim;
    auto using watched_lseek, watched_write, watched_fsync, watched_rand.
  apply watched_fstat, replayed_refl; assumption.
Qed.

(** *** A descriptor in append mode *)

Lemma appended_step w0 w w1 ev :
  appended w0 w ->
  w_env w1 = w_env w ->
  w_trace w1 = w_trace w ++ [ev] ->
  w_file w1 = w_file w ++ transferred [ev] ->
  appended w0 w1.
Proof.
  intros (Hq & Ha & Hle & Hst) Henv Htr Hev.
  destruct (new_events_snoc w0 w w1 ev Hle Htr) as [Hne Hle1].
  split; [rewrite Henv; exact Hq|]. split; [rewrite Henv; exact Ha|].
  split; [exact Hle1|].
  rewrite Hne, transferred_app, Hev, Hst, <- app_assoc. reflexivity.
Qed.

Lemma appended_refl w :
  quiet (w_env w) -> e_append (w_env w) = true -> appended w w.
Proof.
  intros Hq Ha. split; [exact Hq|]. split; [exact Ha|]. split; [lia|].
  rewrite new_events_refl. symmetry. apply app_nil_r.
Qed.

Lemma trailed_lseek w0 w1 w2 off :
  trailed w0 w1 w2 ->
  fst (sys_lseek w1 off) = fst (sys_lseek w2 off) /\
  trailed w0 (snd (sys_lseek w1 off)) (snd (sys_lseek w2 off)).
Proof.
  intros [<- Hr]. split; [reflexivity|]. split; [reflexivity|].
  apply (appended_step w0 w1 _ (EvLseek off (fst (sys_lseek w1 off))) Hr);
    try reflexivity.
  unfold sys_lseek, file_now. cbn [fst snd w_file transferred flat_map].
  rewrite (proj1 Hr), app_nil_r. reflexivity.
Qed.

Lemma trailed_write w0 w1 w2 boff count data :
  trailed w0 w1 w2 ->
  fst (sys_write w1 boff count data) = fst (sys_write w2 boff count data) /\
  trailed w0 (snd (sys_write w1 boff count data))
    (snd (sys_write w2 boff count data)).
Proof.
  intros [<- Hr]. split; [reflexivity|]. split; [reflexivity|].
  unfold sys_write, file_now, landing.
  rewrite (proj1 Hr), (proj1 (proj2 Hr)). cbn [andb].
  destruct (e_write (w_env w1) (w_clock w1)) as [k|e]; cbn [snd].
  - apply (appended_step w0 w1 _
             (EvWrite boff count data (Z.max 0 (Z.min k count)) 0) Hr);
      try reflexivity.
    cbn [w_file transferred flat_map]. rewrite app_nil_r.
    destruct (Z.ltb_spec 0 (Z.max 0 (Z.min k count))) as [Hpos|Hz].
    + rewrite Nat2Z.id. apply overwrite_end.
    + replace (Z.max 0 (Z.min k count)) with 0 by lia.
      cbn [Z.to_nat firstn overwrite]. symmetry. apply app_nil_r.
  - apply (appended_step w0 w1 _ (EvWrite boff count data (-1) e) Hr);
      try reflexivity.
    cbn [w_file transferred flat_map Z.to_nat firstn app].
    symmetry. apply app_nil_r.
Qed.

Lemma trailed_fsync w0 w1 w2 :
  trailed w0 w1 w2 -> trailed w0 (snd (sys_fsync w1)) (snd (sys_fsync w2)).
Proof.
  intros [<- Hr]. split; [reflexivity|].
  apply (appended_step w0 w1 _ (EvFsync (fst (sys_fsync w1))) Hr);
    try reflexivity.
  unfold sys_fsync, file_now. cbn [fst snd w_file transferred flat_map].
  rewrite (proj1 Hr), app_nil_r. reflexivity.
Qed.

Lemma trailed_rand w0 w1 w2 n :
  trailed w0 w1 w2 ->
  fst (spc_rand w1 n) = fst (spc_rand w2 n) /\
  trailed w0 (snd (spc_rand w1 n)) (snd (spc_rand w2 n)).
Proof.
  intros [<- Hr]. split; [reflexivity|]. split; [reflexivity|].
  apply (appended_step w0 w1 _ (EvRand (fst (spc_rand w1 n))) Hr);
    try reflexivity.
  cbn [spc_rand snd w_file transferred flat_map]. symmetry. apply app_nil_r.
Qed.

Lemma trailed_fstat w0 w :
  appended w0 w -> trailed w0 (snd (sys_fstat w)) (snd (sys_fstat w)).
Proof.
  intros Hr. split; [reflexivity|].
  apply (appended_step w0 w _
           (EvFstat (fst (fst (sys_fstat w))) (snd (fst (sys_fstat w)))) Hr);
    try reflexivity.
  unfold sys_fstat, file_now. cbn [fst snd w_file transferred flat_map].
  rewrite (proj1 Hr), app_nil_r. reflexivity.
Qed.

Lemma trailed_refl w :
  quiet (w_env w) -> e_append (w_env w) = true -> trailed w w w.
Proof. intros Hq Ha. split; [reflexivity|apply appended_refl; assumption]. Qed.

Lemma trailed_ret {A} w0 (o : outcome A) a w' :
  sim_outcome (trailed w0) o o -> o = Ret a w' ->
  w_file w' = w_file w0 ++ transferred (new_events w0 w').
Proof. intros H ->. cbn [sim_outcome] in H. apply H. Qed.

(** ** The random source behind the draws *)

Lemma stream_app e from a b :
  stream e from (a + b) = stream e from a ++ stream e (from + a) b.
Proof. unfold stream. rewrite seq_app, map_app. reflexivity. Qed.

Lemma stream_length e from n : length (stream e from n) = n.
Proof. unfold stream. rewrite length_map, length_seq. reflexivity. Qed.

Lemma spc_rand_stream w n :
  fst (spc_rand w n) = stream (w_env w) (w_rng w) (Z.to_nat n).
Proof.
  unfold spc_rand, stream. cbn [fst].
  rewrite (seq_shift_add (w_rng w)), map_map. apply map_ext.
  intros i. f_equal. lia.
Qed.

Lemma metered_refl w : metered w w.
Proof.
  split; [reflexivity|]. split; [lia|]. split; [lia|].
  rewrite new_events_refl, Nat.sub_diag. reflexivity.
Qed.

Lemma metered_step w0 w w1 ev :
  metered w0 w ->
  w_env w1 = w_env w -> w_rng w1 = w_rng w ->
  w_trace w1 = w_trace w ++ [ev] ->
  drawn [ev] = [] ->
  metered w0 w1.
Proof.
  intros (He & Hr & Hle & Hd) Henv Hrng Htr Hev.
  destruct (new_events_snoc w0 w w1 ev Hle Htr) as [Hne Hle1].
  split; [rewrite Henv; exact He|]. split; [lia|]. split; [exact Hle1|].
  rewrite Hne, drawn_app, Hev, app_nil_r, Hrng. exact Hd.
Qed.

Lemma gauged_lseek w0 w1 w2 off :
  gauged w0 w1 w2 ->
  fst (sys_lseek w1 off) = fst (sys_lseek w2 off) /\
  gauged w0 (snd (sys_lseek w1 off)) (snd (sys_lseek w2 off)).
Proof.
  intros [<- Hm]. split; [reflexivity|]. split; [reflexivity|].
  apply (metered_step w0 w1 _ (EvLseek off (fst (sys_lseek w1 off))) Hm);
    reflexivity.
Qed.

Lemma gauged_write w0 w1 w2 boff count data :
  gauged w0 w1 w2 ->
  fst (sys_write w1 boff count data) = fst (sys_write w2 boff count data) /\
  gauged w0 (snd (sys_write w1 boff count data))
    (snd (sys_write w2 boff count data)).
Proof.
  intros [<- Hm]. split; [reflexivity|]. split; [reflexivity|].
  unfold sys_write.
  destruct (e_write (w_env w1) (w_clock w1)) as [k|e]; cbn [snd].
  - apply (metered_step w0 w1 _
             (EvWrite boff count data (Z.max 0 (Z.min k count)) 0) Hm);
      reflexivity.
  - apply (metered_step w0 w1 _ (EvWrite boff count data (-1) e) Hm);
      reflexivity.
Qed.

Lemma gauged_fsync w0 w1 w2 :
  gauged w0 w1 w2 -> gauged w0 (snd (sys_fsync w1)) (snd (sys_fsync w2)).
Proof.
  intros [<- Hm]. split; [reflexivity|].
  apply (metered_step w0 w1 _ (EvFsync (fst (sys_fsync w1))) Hm); reflexivity.
Qed.

Lemma gauged_rand w0 w1 w2 n :
  gauged w0 w1 w2 ->
  fst (spc_rand w1 n) = fst (spc_rand w2 n) /\
  gauged w0 (snd (spc_rand w1 n)) (snd (spc_rand w2 n)).
Proof.
  intros [<- Hm]. split; [reflexivity|]. split; [reflexivity|].
  destruct Hm as (He & Hr & Hle & Hd).
  pose proof (spc_rand_stream w1 n) as Hs.
  assert (Htr : w_trace (snd (spc_rand w1 n))
                = w_trace w1 ++ [EvRand (fst (spc_rand w1 n))]) by reflexivity.
  destruct (new_events_snoc w0 w1 _ _ Hle Htr) as [Hne Hle1].
  split; [exact He|]. split; [cbn; lia|]. split; [exact Hle1|].
  rewrite Hne, drawn_app, Hd, Hs, He.
  change (drawn [EvRand (stream (w_env w0) (w_rng w1) (Z.to_nat n))])
    with (stream (w_env w0) (w_rng w1) (Z.to_nat n) ++ []).
  rewrite app_nil_r.
  change (w_rng (snd (spc_rand w1 n))) with (w_rng w1 + Z.to_nat n)%nat.
  replace (w_rng w1 + Z.to_nat n - w_rng w0)%nat
    with ((w_rng w1 - w_rng w0) + Z.to_nat n)%nat by lia.
  rewrite stream_app. do 2 f_equal. lia.
Qed.

Lemma gauged_fstat w0 w :
  metered w0 w -> gauged w0 (snd (sys_fstat w)) (snd (sys_fstat w)).
Proof.
  intros Hm. split; [reflexivity|].
  apply (metered_step w0 w _
           (EvFstat (fst (fst (sys_fstat w))) (snd (fst (sys_fstat w)))) Hm);
    reflexivity.
Qed.

Lemma gauged_refl w : gauged w w w.
Proof. split; [reflexivity|apply metered_refl]. Qed.

Lemma gauged_ret {A} w0 (o : outcome A) a w' :
  sim_outcome (gauged w0) o o -> o = Ret a w' -> metered w0 w'.
Proof. intros H ->. cbn [sim_outcome] in H. apply H. Qed.

Lemma random_pass_metered fuel nbytes w r w' :
  random_pass fuel nbytes w = Ret r w' -> metered w w'.
Proof.
  intros H. refine (gauged_ret w _ r w' _ H).
  apply random_pass_sim;
    auto using gauged_lseek, gauged_write, gauged_fsync, gauged_rand,
      gauged_refl.
Qed.

Lemma spc_fd_wipe_metered fuel w r w' :
  spc_fd_wipe fuel w = Ret r w' -> metered w w'.
Proof.
  intros H. refine (gauged_ret w _ r w' _ H).
  apply spc_fd_wipe_sim;
    auto using gauged_lseek, gauged_write, gauged_fsync, gauged_rand.
  apply gauged_fstat, metered_refl.
Qed.

(** *** What the passes of a plan draw *)

Lemma drawn_pass body fr :
  drawn (EvLseek 0 0 :: body ++ [EvFsync fr]) = drawn body.
Proof.
  change (drawn (EvLseek 0 0 :: body ++ [EvFsync fr]))
    with (drawn (body ++ [EvFsync fr])).
  rewrite drawn_app. apply app_nil_r.
Qed.

Lemma forallb_covers_pass body fr :
  forallb covers (EvLseek 0 0 :: body ++ [EvFsync fr]) = true ->
  forallb covers body = true.
Proof.
  cbn [forallb covers andb]. rewrite forallb_app. intros H.
  apply andb_true_iff in H. apply H.
Qed.

Lemma complete_pass_drawn S d seg :
  complete_pass S d seg -> forallb covers seg = true ->
  transferred seg = (if is_random d then drawn seg else transferred seg) /\
  Z.of_nat (length (transferred seg)) = S /\
  length (drawn seg) = if is_random d then Z.to_nat S else 0%nat.
Proof.
  intros (body & fr & -> & Hnw & Hd) Hcv.
  apply forallb_covers_pass in Hcv.
  pose proof (transferred_length body Hcv) as Hl.
  rewrite transferred_pass, drawn_pass.
  destruct d as [|p]; cbn [is_random].
  - destruct Hd as [_ Htd]. split; [exact Htd|]. split; [lia|].
    rewrite <- Htd. lia.
  - destruct Hd as [Hwr _]. split; [reflexivity|]. split; [lia|].
    rewrite (drawn_writes _ Hwr). reflexivity.
Qed.

Lemma complete_passes_drawn S ds segs :
  Forall2 (complete_pass S) ds segs ->
  Forall (fun seg => forallb covers seg = true) segs ->
  length (drawn (concat segs))
  = (length (filter is_random ds) * Z.to_nat S)%nat.
Proof.
  induction 1 as [|d seg ds segs Hc Hall IH]; intros Hcv; [reflexivity|].
  inversion Hcv as [|? ? Hcv1 Hcv2]; subst.
  destruct (complete_pass_drawn S d seg Hc Hcv1) as (_ & _ & Hl).
  cbn [concat filter]. rewrite drawn_app, length_app, (IH Hcv2), Hl.
  destruct (is_random d); cbn [length]; lia.
Qed.

Lemma bounded_passes_cover S segs :
  Forall (bounded_pass S) segs ->
  Forall (fun seg => forallb covers seg = true) segs.
Proof.
  intros H. eapply Forall_impl; [|exact H]. intros seg Hseg.
  apply (forallb_covers SPC_WIPE_BUFSIZE), (bounded_pass_in_buffer S), Hseg.
Qed.

Lemma snoc_eq_length {A} (l1 l2 : list A) a b :
  length l1 = length l2 -> l1 ++ a = l2 ++ b -> l1 = l2 /\ a = b.
Proof.
  revert l2. induction l1 as [|x l1 IH]; intros [|y l2] Hl H;
    try discriminate.
  - split; [reflexivity|exact H].
  - cbn [app] in H. injection H as -> H. cbn [length] in Hl.
    destruct (IH l2 ltac:(lia) H) as [-> ->]. split; reflexivity.
Qed.

(** ** [write_data], the passes and the tiling loop *)

Lemma calm_env_quiet : quiet calm_env.
Proof. intros t file. reflexivity. Qed.

Lemma badwrite_env_quiet : quiet badwrite_env.
Proof. intros t file. reflexivity. Qed.

Lemma eintr_env_stalled : stalled eintr_env.
Proof. intros t. reflexivity. Qed.

Lemma append_env_quiet : quiet append_env.
Proof. intros t file. reflexivity. Qed.

Lemma write_data_trailed fuel buf nbytes w r w' :
  quiet (w_env w) -> e_append (w_env w) = true ->
  write_data fuel buf nbytes w = Ret r w' ->
  w_file w' = w_file w ++ transferred (new_events w w').
Proof.
  intros Hq Ha H. refine (trailed_ret w _ r w' _ H).
  apply write_data_sim; auto using trailed_write, trailed_refl.
Qed.

Lemma random_pass_trailed fuel nbytes w r w' :
  quiet (w_env w) -> e_append (w_env w) = true ->
  random_pass fuel nbytes w = Ret r w' ->
  w_file w' = w_file w ++ transferred (new_events w w').
Proof.
  intros Hq Ha H. refine (trailed_ret w _ r w' _ H).
  apply random_pass_sim;
    auto using trailed_lseek, trailed_write, trailed_fsync, trailed_rand,
      trailed_refl.
Qed.

Lemma pattern_pass_trailed fuel buf bufsz filesz w r w' :
  quiet (w_env w) -> e_append (w_env w) = true ->
  pattern_pass fuel buf bufsz filesz w = Ret r w' ->
  w_file w' = w_file w ++ transferred (new_events w w').
Proof.
  intros Hq Ha H. refine (trailed_ret w _ r w' _ H).
  apply pattern_pass_sim;
    auto using trailed_lseek, trailed_write, trailed_fsync, trailed_refl.
Qed.

Lemma spc_fd_wipe_trailed fuel w r w' :
  quiet (w_env w) -> e_append (w_env w) = true ->
  spc_fd_wipe fuel w = Ret r w' ->
  w_file w' = w_file w ++ transferred (new_events w w').
Proof.
  intros Hq Ha H. refine (trailed_ret w _ r w' _ H).
  apply spc_fd_wipe_sim;
    auto using trailed_lseek, trailed_write, trailed_fsync, trailed_rand.
  apply trailed_fstat, appended_refl; assumption.
Qed.

(** [write_data] on a file no other process touches: whatever it returns,
    the [n] bytes the kernel took are the first [n] bytes of the buffer;
    [n] never exceeds [nbytes], and it is [nbytes] when the result is 1.
    On a descriptor that is not in append mode these bytes are in the file
    from the old offset on, the rest of the file is as it was, and the
    offset has moved by [n]; on a descriptor opened with [O_APPEND] they
    follow the old content, none of which is touched. *)
Theorem write_data_file_effect fuel buf nbytes w r w' :
  quiet (w_env w) ->
  0 <= nbytes < SIZE_MOD -> nbytes <= Z.of_nat (length buf) ->
  0 <= w_pos w ->
  write_data fuel buf nbytes w = Ret r w' ->
  nwritten (new_events w w') <= nbytes /\
  (r = 1 -> nwritten (new_events w w') = nbytes) /\
  (e_append (w_env w) = false ->
   w_file w' = overwrite (w_file w) (Z.to_nat (w_pos w))
                 (firstn (Z.to_nat (nwritten (new_events w w'))) buf) /\
   w_pos w' = w_pos w + nwritten (new_events w w')) /\
  (e_append (w_env w) = true ->
   w_file w'
   = w_file w ++ firstn (Z.to_nat (nwritten (new_events w w'))) buf).
Proof.
  intros Hq Hn Hb Hp H.
  pose proof (write_data_replayed fuel buf nbytes w r w' Hq) as Hrep.
  pose proof (write_data_trailed fuel buf nbytes w r w' Hq) as Happ.
  destruct (write_data_run _ _ _ _ _ _ Hn H) as (evs & Htr & Hrun).
  rewrite (new_events_app _ _ _ Htr) in *.
  pose proof (wd_run_bound buf nbytes 0 evs r ltac:(lia) Hrun) as Hbd.
  pose proof (wd_run_inside nbytes buf nbytes 0 evs r
                ltac:(lia) ltac:(lia) Hb Hrun) as Hin.
  pose proof (wd_run_writes _ _ _ _ _ Hrun) as Hwr.
  pose proof (wd_run_transferred _ _ 0 _ _ ltac:(lia) Hrun) as Ht.
  change (slice buf 0 (nwritten evs))
    with (firstn (Z.to_nat (nwritten evs)) buf) in Ht.
  split; [lia|]. split; [|split].
  - intros ->. pose proof (wd_run_success _ nbytes 0 _ ltac:(lia) Hrun). lia.
  - intros Ha. specialize (Hrep Ha H).
    rewrite (replay_calls evs (w_file w) (w_pos w)) in Hrep;
      [|lia|apply forallb_write_pass, Hwr|apply (forallb_covers nbytes), Hin].
    injection Hrep as Hf Hpos. rewrite Hf, Ht. split; [reflexivity|exact Hpos].
  - intros Ha. rewrite (Happ Ha H), Ht. reflexivity.
Qed.

Lemma write_data_file_effect_witness :
  w_file (world_of (write_data 4 [x01; x02; x03] 3 w_badwrite) w_badwrite)
  = [x01; x02; x03] /\
  w_file (world_of (write_data 4 [x01; x02; x03] 3 w_append3) w_append3)
  = [x41; x42; x43; x01; x02; x03].
Proof.
  assert (Hrun : write_data 4 [x01; x02; x03] 3 w_badwrite
                 = Ret 1 (world_of (write_data 4 [x01; x02; x03] 3 w_badwrite)
                            w_badwrite))
    by (vm_compute; reflexivity).
  assert (Hrun2 : write_data 4 [x01; x02; x03] 3 w_append3
                  = Ret 1 (world_of (write_data 4 [x01; x02; x03] 3 w_append3)
                             w_append3))
    by (vm_compute; reflexivity).
  pose proof (write_data_file_effect 4 [x01; x02; x03] 3 w_badwrite 1 _
                badwrite_env_quiet ltac:(vm_compute; split; [discriminate|reflexivity])
                ltac:(vm_compute; discriminate)
                ltac:(vm_compute; discriminate) Hrun)
    as (_ & _ & Hf & _).
  pose proof (write_data_file_effect 4 [x01; x02; x03] 3 w_append3 1 _
                append_env_quiet ltac:(vm_compute; split; [discriminate|reflexivity])
                ltac:(vm_compute; discriminate)
                ltac:(vm_compute; discriminate) Hrun2)
    as (_ & _ & _ & Hg).
  split; [rewrite (proj1 (Hf eq_refl))|rewrite (Hg eq_refl)];
    vm_compute; reflexivity.
Defined.

(** [write_data] has no limit on its retries: while the kernel interrupts
    every write or takes no byte, a request for at least one byte never
    returns, whatever the fuel. *)
Theorem stalled_write_data_never_returns fuel buf nbytes w :
  stalled (w_env w) -> 0 < nbytes < SIZE_MOD ->
  write_data fuel buf nbytes w = OutOfFuel InWriteData.
Proof.
  intros Hs Hn. unfold write_data. apply write_data_loop_stalled; [exact Hs|lia|lia].
Qed.

Lemma stalled_write_data_never_returns_witness :
  write_data 1000 [x01; x02; x03] 3 w_eintr = OutOfFuel InWriteData.
Proof.
  apply (stalled_write_data_never_returns 1000 [x01; x02; x03] 3 w_eintr
           eintr_env_stalled).
  vm_compute. split; reflexivity.
Defined.

(** A request for no bytes still issues one [write], of count 0, the loop
    being entered before its test; the result is 1 whatever the kernel
    answers, an interrupt included, unless the write fails with an error
    other than [EINTR]. *)
Theorem write_data_zero_request fuel buf w :
  exists ret errno w',
    write_data (S fuel) buf 0 w
    = Ret (if (ret <? 0) && negb (errno =? EINTR) then 0 else 1) w' /\
    new_events w w' = [EvWrite 0 0 [] ret errno] /\
    (ret = 0 \/ ret = -1).
Proof.
  unfold write_data. cbn [write_data_loop].
  change (size_t (0 - 0)) with 0. change (SSIZE_MAX <? 0) with false. cbv iota.
  change (slice buf 0 0) with (@nil byte).
  unfold sys_write. destruct (e_write (w_env w) (w_clock w)) as [k|e].
  - replace (Z.max 0 (Z.min k 0)) with 0 by lia.
    eexists 0, 0, _. split; [reflexivity|]. split; [|left; reflexivity].
    apply new_events_app. reflexivity.
  - change (0 <=? -1) with false. cbv iota.
    eexists (-1), e, _. split; [|split; [|right; reflexivity]].
    + change (-1 <? 0) with true. cbn [andb].
      destruct (negb (e =? EINTR)); reflexivity.
    + destruct (negb (e =? EINTR)); apply new_events_app; reflexivity.
Qed.

Lemma cycle_length buf bufsz n : 0 <= n -> Z.of_nat (length (cycle buf bufsz n)) = n.
Proof. intros Hn. unfold cycle. rewrite length_map, length_seq. lia. Qed.

Lemma cycle_nth buf bufsz n i :
  (i < Z.to_nat n)%nat ->
  nth i (cycle buf bufsz n) x00 = nth (i mod Z.to_nat bufsz) buf x00.
Proof.
  intros Hi. unfold cycle.
  rewrite (nth_indep _ x00 ((fun i => nth (i mod Z.to_nat bufsz) buf x00) 0%nat))
    by (rewrite length_map, length_seq; exact Hi).
  rewrite (map_nth (fun i => nth (i mod Z.to_nat bufsz) buf x00)), seq_nth by exact Hi.
  reflexivity.
Qed.

(** [pattern_pass] with any buffer and any [bufsz] within it, whatever it
    returns: the byte written at offset [i] is [buf[i mod bufsz]], up to
    the [n] bytes the kernel took; every write reads inside the first
    [bufsz] bytes of the buffer; [n] never exceeds [filesz], and on a
    request for at least one byte the result is 0 exactly when [n] is
    [filesz].  On a file no other process touches, behind a descriptor
    that is not in append mode, these [n] bytes are at the start of the
    file and the rest of the file is as it was; behind a descriptor opened
    with [O_APPEND] they follow the old content, none of which is
    overwritten, although the pass has sought to offset 0 and may return
    0. *)
Theorem pattern_pass_effect fuel buf bufsz filesz w r w' :
  0 < bufsz < SIZE_MOD -> bufsz <= Z.of_nat (length buf) ->
  0 <= filesz < SIZE_MOD ->
  pattern_pass fuel buf bufsz filesz w = Ret r w' ->
  let n := nwritten (new_events w w') in
  0 <= n <= filesz /\ (r = 0 -> n = filesz) /\
  (0 < filesz -> n = filesz -> r = 0) /\
  Z.of_nat (length (transferred (new_events w w'))) = n /\
  (forall i, (i < Z.to_nat n)%nat ->
     nth i (transferred (new_events w w')) x00
     = nth (i mod Z.to_nat bufsz) buf x00) /\
  forallb (inside bufsz) (new_events w w') = true /\
  (quiet (w_env w) -> e_append (w_env w) = false ->
   w_file w' = transferred (new_events w w')
                 ++ skipn (Z.to_nat n) (w_file w)) /\
  (quiet (w_env w) -> e_append (w_env w) = true ->
   w_file w' = w_file w ++ transferred (new_events w w')).
Proof.
  intros Hb Hlen Hn H n.
  pose proof (pattern_pass_replayed fuel buf bufsz filesz w r w') as Hrep.
  pose proof (pattern_pass_trailed fuel buf bufsz filesz w r w') as Happ.
  destruct (pattern_pass_bounded _ _ _ _ _ _ _ Hb Hlen Hn H)
    as (off & body & tail & Htr & Hoff & Hwr & Hin & Hle & Htd & Htail & Hres).
  subst n. rewrite (new_events_app _ _ _ Htr) in *.
  assert (Hnw : nwritten (EvLseek 0 off :: body ++ tail) = nwritten body)
    by (rewrite nwritten_seek; apply nwritten_fsync_tail, Htail).
  assert (Htf : transferred (EvLseek 0 off :: body ++ tail) = transferred body).
  { rewrite transferred_seek, transferred_app.
    destruct Htail as [-> | (fr & ->)]; apply app_nil_r. }
  assert (Hcv : forallb covers body = true)
    by (apply (forallb_covers bufsz), Hin).
  pose proof (transferred_length body Hcv) as Htl.
  pose proof (nwritten_nonneg body) as Hnn.
  rewrite Hnw, Htf.
  split; [lia|].
  split; [|split; [|split; [exact Htl|split; [|split; [|split]]]]].
  - intros ->. destruct Hres as [(_ & _ & Hx & _) | (Hx & _)];
      [exact Hx|discriminate].
  - intros Hpos He.
    destruct Hres as [(-> & _) | (_ & _ & [Ho | Hlt])]; [reflexivity| |lia].
    destruct (Hoff Ho) as [-> _]. cbn in He. lia.
  - intros i Hi. rewrite Htd. apply cycle_nth, Hi.
  - cbn [forallb inside andb]. rewrite forallb_app, Hin.
    destruct Htail as [-> | (fr & ->)]; reflexivity.
  - intros Hq Ha. specialize (Hrep Hq Ha H).
    assert (Hpc : forallb is_pass_call (body ++ tail) = true).
    { rewrite forallb_app, (forallb_write_pass _ Hwr).
      destruct Htail as [-> | (fr & ->)]; reflexivity. }
    assert (Hcv2 : forallb covers (body ++ tail) = true).
    { rewrite forallb_app, Hcv. destruct Htail as [-> | (fr & ->)]; reflexivity. }
    destruct (replay_pass off (body ++ tail) (w_file w) (w_pos w) Hpc Hcv2)
      as (Hf & _).
    { intros Ho. destruct (Hoff Ho) as [-> ->]. reflexivity. }
    rewrite <- Hrep in Hf. cbn [fst] in Hf.
    rewrite transferred_seek in Htf. rewrite Hf, Htf, overwrite_zero.
    do 2 f_equal. lia.
  - intros Hq Ha. rewrite (Happ Hq Ha H), Htf. reflexivity.
Qed.

Lemma pattern_pass_effect_witness :
  w_file (world_of (pattern_pass 3 [x0a; x0b; x0c; x0d] 3 5 w_seven) w_seven)
  = [x0a; x0b; x0c; x0a; x0b; x46; x47].
Proof.
  assert (Hrun : pattern_pass 3 [x0a; x0b; x0c; x0d] 3 5 w_seven
                 = Ret 0 (world_of (pattern_pass 3 [x0a; x0b; x0c; x0d] 3 5 w_seven)
                            w_seven))
    by (vm_compute; reflexivity).
  pose proof (pattern_pass_effect 3 [x0a; x0b; x0c; x0d] 3 5 w_seven 0 _
                ltac:(vm_compute; split; reflexivity)
                ltac:(vm_compute; discriminate)
                ltac:(vm_compute; split; [discriminate|reflexivity]) Hrun) as H.
  cbv zeta in H. destruct H as (_ & _ & _ & _ & _ & _ & Hf & _).
  rewrite (Hf badwrite_env_quiet eq_refl). vm_compute. reflexivity.
Defined.

Lemma stream_firstn e from n m :
  (n <= m)%nat -> firstn n (stream e from m) = stream e from n.
Proof.
  intros H. replace m with (n + (m - n))%nat by lia.
  rewrite stream_app. apply firstn_app_exact. rewrite stream_length. reflexivity.
Qed.

(** [random_pass], whatever it returns: the bytes drawn are the next bytes
    of the random source, none skipped and none drawn twice, never more
    than [SPC_WIPE_BUFSIZE] at a time; the [n] bytes written are the first
    [n] of them, in order, from inside the buffer; [n] never exceeds
    [nbytes], on a request for at least one byte the result is 0 exactly
    when [n] is [nbytes], and then exactly [nbytes] bytes were drawn.  On a
    file no other process touches, behind a descriptor that is not in
    append mode, the [n] bytes are at the start of the file and the rest of
    the file is as it was; behind a descriptor opened with [O_APPEND] they
    follow the old content, none of which is overwritten. *)
Theorem random_pass_effect fuel nbytes w r w' :
  0 <= nbytes < SIZE_MOD ->
  random_pass fuel nbytes w = Ret r w' ->
  let n := nwritten (new_events w w') in
  0 <= n <= nbytes /\ (r = 0 -> n = nbytes) /\
  (0 < nbytes -> n = nbytes -> r = 0) /\
  forallb in_buffer (new_events w w') = true /\
  drawn (new_events w w')
  = stream (w_env w) (w_rng w) (w_rng w' - w_rng w) /\
  (Z.to_nat n <= w_rng w' - w_rng w)%nat /\
  (r = 0 -> w_rng w' = (w_rng w + Z.to_nat nbytes)%nat) /\
  transferred (new_events w w') = stream (w_env w) (w_rng w) (Z.to_nat n) /\
  (quiet (w_env w) -> e_append (w_env w) = false ->
   w_file w' = stream (w_env w) (w_rng w) (Z.to_nat n)
                 ++ skipn (Z.to_nat n) (w_file w)) /\
  (quiet (w_env w) -> e_append (w_env w) = true ->
   w_file w' = w_file w ++ stream (w_env w) (w_rng w) (Z.to_nat n)).
Proof.
  intros Hn H n.
  pose proof (random_pass_replayed fuel nbytes w r w') as Hrep.
  pose proof (random_pass_trailed fuel nbytes w r w') as Happ.
  destruct (random_pass_metered _ _ _ _ _ H) as (_ & Hrng & _ & Hdr).
  destruct (random_pass_bounded _ _ _ _ _ Hn H)
    as (off & body & tail & Htr & Hoff & Hio & Hin & Hle & Htd & Htail & Hres).
  subst n. rewrite (new_events_app _ _ _ Htr) in *.
  assert (Hnw : nwritten (EvLseek 0 off :: body ++ tail) = nwritten body)
    by (rewrite nwritten_seek; apply nwritten_fsync_tail, Htail).
  assert (Htf : transferred (EvLseek 0 off :: body ++ tail) = transferred body).
  { rewrite transferred_seek, transferred_app.
    destruct Htail as [-> | (fr & ->)]; apply app_nil_r. }
  assert (Hdf : drawn (EvLseek 0 off :: body ++ tail) = drawn body).
  { change (drawn (EvLseek 0 off :: body ++ tail)) with (drawn (body ++ tail)).
    rewrite drawn_app. destruct Htail as [-> | (fr & ->)]; apply app_nil_r. }
  assert (Hcv : forallb covers body = true)
    by (apply (forallb_covers SPC_WIPE_BUFSIZE), Hin).
  pose proof (transferred_length body Hcv) as Htl.
  pose proof (nwritten_nonneg body) as Hnn.
  rewrite Hdf in Hdr.
  assert (Hdl : length (drawn body) = (w_rng w' - w_rng w)%nat)
    by (rewrite Hdr; apply stream_length).
  assert (Hnd : (Z.to_nat (nwritten body) <= w_rng w' - w_rng w)%nat).
  { rewrite <- Hdl. rewrite Htd in Htl. rewrite length_firstn in Htl. lia. }
  assert (Hts : transferred body
                = stream (w_env w) (w_rng w) (Z.to_nat (nwritten body)))
    by (rewrite Htd, Hdr; apply stream_firstn, Hnd).
  rewrite Hnw, Htf, Hdf.
  split; [lia|]. split; [|split; [|split; [|split; [exact Hdr|split;
    [exact Hnd|split; [|split; [exact Hts|split]]]]]]].
  - intros ->. destruct Hres as [(_ & _ & Hx & _) | (Hx & _)];
      [exact Hx|discriminate].
  - intros Hpos He.
    destruct Hres as [(-> & _) | (_ & _ & [Ho | Hlt])]; [reflexivity| |lia].
    destruct (Hoff Ho) as [-> _]. cbn in He. lia.
  - cbn [forallb in_buffer inside andb]. rewrite forallb_app.
    change (forallb in_buffer body = true) in Hin. rewrite Hin.
    destruct Htail as [-> | (fr & ->)]; reflexivity.
  - intros ->.
    destruct (random_pass_spec _ _ _ _ _ Hn H) as (seg & Htr2 & Hseg).
    rewrite Htr in Htr2. apply app_inv_head in Htr2. subst seg.
    destruct Hseg as [(_ & Hc) | (Hx & _)]; [|discriminate].
    destruct (complete_pass_drawn nbytes Random _ Hc) as (_ & _ & Hl).
    { cbn [forallb covers andb]. rewrite forallb_app, Hcv.
      destruct Htail as [-> | (fr & ->)]; reflexivity. }
    rewrite Hdf in Hl. cbn [is_random] in Hl. lia.
  - intros Hq Ha. specialize (Hrep Hq Ha H).
    assert (Hpc : forallb is_pass_call (body ++ tail) = true).
    { rewrite forallb_app, (forallb_io_pass _ Hio).
      destruct Htail as [-> | (fr & ->)]; reflexivity. }
    assert (Hcv2 : forallb covers (body ++ tail) = true).
    { rewrite forallb_app, Hcv. destruct Htail as [-> | (fr & ->)]; reflexivity. }
    destruct (replay_pass off (body ++ tail) (w_file w) (w_pos w) Hpc Hcv2)
      as (Hf & _).
    { intros Ho. destruct (Hoff Ho) as [-> ->]. reflexivity. }
    rewrite <- Hrep in Hf. cbn [fst] in Hf.
    rewrite transferred_seek in Htf. rewrite Hf, Htf, overwrite_zero, Hts.
    rewrite stream_length. reflexivity.
  - intros Hq Ha. rewrite (Happ Hq Ha H), Htf, Hts. reflexivity.
Qed.

Lemma random_pass_effect_witness :
  w_file (world_of (random_pass 3 5 w_seven) w_seven)
  = [x3c; xc3; x3c; xc3; x3c; x46; x47] /\
  w_rng (world_of (random_pass 3 5 w_seven) w_seven) = 5%nat.
Proof.
  assert (Hrun : random_pass 3 5 w_seven
                 = Ret 0 (world_of (random_pass 3 5 w_seven) w_seven))
    by (vm_compute; reflexivity).
  pose proof (random_pass_effect 3 5 w_seven 0 _
                ltac:(vm_compute; split; [discriminate|reflexivity]) Hrun) as H.
  cbv zeta in H. destruct H as (_ & _ & _ & _ & _ & _ & Hr & _ & Hf & _).
  split; [rewrite (Hf badwrite_env_quiet eq_refl)|rewrite (Hr eq_refl)];
    vm_compute; reflexivity.
Defined.

(** The tiling loop of [spc_fd_wipe] copies the pattern [count] times to
    the front of the buffer and touches nothing else: the buffer keeps its
    length, the byte [i] below [count * patternsz] is the byte [i mod
    patternsz] of the pattern, and every byte from there on is what it was.
    With a pattern of 3 bytes and [SPC_WIPE_BUFSIZE / 3] copies the last
    byte of the buffer is not written. *)
Theorem tile_buf_frame buf pattern patternsz count :
  0 < patternsz -> Z.of_nat (length pattern) = patternsz -> 0 <= count ->
  count * patternsz <= Z.of_nat (length buf) ->
  length (tile_buf buf pattern patternsz count) = length buf /\
  (forall i,
     nth i (tile_buf buf pattern patternsz count) x00
     = if (i <? Z.to_nat (count * patternsz))%nat
       then nth (i mod length pattern) pattern x00
       else nth i buf x00) /\
  (patternsz = 3 -> count = SPC_WIPE_BUFSIZE / patternsz ->
   nth 4095 (tile_buf buf pattern patternsz count) x00 = nth 4095 buf x00).
Proof.
  intros Hp Hlen Hc Hb.
  destruct (tile_buf_spec buf pattern patternsz count Hp Hlen Hc Hb) as [Hl Hn].
  assert (Hall : forall i,
    nth i (tile_buf buf pattern patternsz count) x00
    = if (i <? Z.to_nat (count * patternsz))%nat
      then nth (i mod length pattern) pattern x00
      else nth i buf x00).
  { intros i. destruct (Nat.ltb_spec i (Z.to_nat (count * patternsz))) as [Hi|Hi].
    - apply Hn. rewrite Z.mul_comm. exact Hi.
    - unfold tile_buf.
      apply (tile_rounds_tail buf pattern patternsz (Z.to_nat count) Hp Hlen);
        [lia|nia]. }
  split; [exact Hl|]. split; [exact Hall|].
  intros -> ->. rewrite Hall. reflexivity.
Qed.

Lemma tile_buf_frame_witness :
  tile_buf [x01; x02; x03; x04; x05; x06; x07; x08] [xaa; xbb; xcc] 3 2
  = [xaa; xbb; xcc; xaa; xbb; xcc; x07; x08] /\
  nth 4095 (tile_buf scratch0 [x92; x49; x24] 3 1365) x00 = x00.
Proof.
  split; [vm_compute; reflexivity|].
  rewrite (proj2 (proj2 (tile_buf_frame scratch0 [x92; x49; x24] 3 1365
                           ltac:(lia) ltac:(reflexivity) ltac:(lia)
                           ltac:(vm_compute; discriminate)))
             eq_refl eq_refl).
  vm_compute. reflexivity.
Defined.

(** ** The whole wipe *)

Lemma replay_fstat st rc sz evs :
  replay st (EvFstat rc sz :: evs) = replay st evs.
Proof. reflexivity. Qed.

Lemma nwritten_fstat rc sz evs : nwritten (EvFstat rc sz :: evs) = nwritten evs.
Proof. reflexivity. Qed.

Lemma drawn_fstat rc sz evs : drawn (EvFstat rc sz :: evs) = drawn evs.
Proof. reflexivity. Qed.

Lemma quiet_snapshot w :
  quiet (w_env w) -> Z.of_nat (length (w_file w)) < SIZE_MOD ->
  file_now w = w_file w /\ snapshot w = Z.of_nat (length (w_file w)).
Proof.
  intros Hq Hsz. assert (Hnow : file_now w = w_file w) by apply Hq.
  split; [exact Hnow|]. unfold snapshot. rewrite Hnow. apply size_t_small. lia.
Qed.

Lemma replay_complete_pass S d seg file pos :
  complete_pass S d seg -> forallb covers seg = true ->
  Z.of_nat (length file) <= S ->
  replay (file, pos) seg = (transferred seg, S).
Proof.
  intros Hc Hcv Hlen.
  destruct (complete_pass_io _ _ _ Hc) as (body & fr & -> & Hio & Hnw).
  pose proof (forallb_covers_pass _ _ Hcv) as Hcb.
  pose proof (transferred_length body Hcb) as Htl.
  assert (Hpc : forallb is_pass_call (body ++ [EvFsync fr]) = true)
    by (rewrite forallb_app, (forallb_io_pass _ Hio); reflexivity).
  assert (Hcv2 : forallb covers (body ++ [EvFsync fr]) = true)
    by (rewrite forallb_app, Hcb; reflexivity).
  destruct (replay_pass 0 (body ++ [EvFsync fr]) file pos Hpc Hcv2) as (Hf & Hp).
  { intros Hx. contradiction Hx. reflexivity. }
  specialize (Hp eq_refl).
  destruct (replay (file, pos) (EvLseek 0 0 :: body ++ [EvFsync fr]))
    as [f1 p1]. cbn [fst snd] in Hf, Hp.
  rewrite Hf, Hp, transferred_pass, transferred_app, nwritten_app.
  cbn [transferred flat_map nwritten fold_right]. rewrite app_nil_r, Z.add_0_r.
  rewrite overwrite_start by lia. rewrite Hnw. reflexivity.
Qed.

Lemma Forall_app_last {A} (P : A -> Prop) l a :
  Forall P (l ++ [a]) -> Forall P l /\ P a.
Proof.
  intros H. apply Forall_app in H. destruct H as [H1 H2].
  split; [exact H1|]. inversion H2. assumption.
Qed.

(** Memory safety of a wipe, whatever the kernel and the other processes
    do and whatever the wipe returns: every [write] reads
    [buf[boff .. boff+count)] with [0 <= boff], [0 <= count] and
    [boff + count <= SPC_WIPE_BUFSIZE], the data handed over is all of
    these [count] bytes, the kernel's answer is no more than [count], and
    [spc_rand] is never asked for more than [SPC_WIPE_BUFSIZE] bytes. *)
Theorem wipe_stays_in_buffer fuel w r w' :
  spc_fd_wipe fuel w = Ret r w' ->
  forallb in_buffer (new_events w w') = true /\
  (forall boff count data ret errno,
     In (EvWrite boff count data ret errno) (new_events w w') ->
     0 <= boff /\ 0 <= count /\ boff + count <= SPC_WIPE_BUFSIZE /\
     Z.of_nat (length data) = count /\ ret <= count) /\
  (forall data,
     In (EvRand data) (new_events w w') ->
     Z.of_nat (length data) <= SPC_WIPE_BUFSIZE).
Proof.
  intros H.
  assert (Hall : forallb in_buffer (new_events w w') = true).
  { destruct (spc_fd_wipe_bounded _ _ _ _ H) as (rc & sz & segs & -> & Hb).
    cbn [forallb in_buffer inside andb]. apply forallb_concat.
    eapply Forall_impl; [|exact Hb].
    intros seg Hseg. apply (bounded_pass_in_buffer _ _ Hseg). }
  split; [exact Hall|]. rewrite forallb_forall in Hall. split.
  - intros boff count data ret errno Hin. specialize (Hall _ Hin).
    cbn [in_buffer inside] in Hall.
    repeat (apply andb_true_iff in Hall; destruct Hall as [Hall ?]).
    apply Z.leb_le in Hall. apply Z.leb_le in H3. apply Z.leb_le in H2.
    apply Z.eqb_eq in H1. apply Z.leb_le in H0. lia.
  - intros data Hin. specialize (Hall _ Hin). cbn [in_buffer inside] in Hall.
    apply Z.leb_le in Hall. exact Hall.
Qed.

Lemma wipe_stays_in_buffer_witness :
  forallb in_buffer
    (new_events w_rough3 (world_of (spc_fd_wipe 6 w_rough3) w_rough3)) = true.
Proof. exact (proj1 (wipe_stays_in_buffer 6 w_rough3 0 _ rough3_run)). Defined.

(** No pass of a wipe, complete or not, writes more bytes than the size
    taken at the start; every seek is to offset 0, and a pass whose seek
    does not answer 0 issues no other call.  So a wipe runs at most 35
    passes and never writes more than 35 times that size, whatever it
    returns. *)
Theorem passes_are_bounded fuel w r w' :
  spc_fd_wipe fuel w = Ret r w' ->
  Forall (bounded_pass (snapshot w)) (passes_of (new_events w w')) /\
  (length (passes_of (new_events w w')) <= 35)%nat /\
  nwritten (new_events w w') <= 35 * snapshot w.
Proof.
  intros H.
  pose proof (spc_fd_wipe_bounded_passes _ _ _ _ H) as Hb.
  split; [exact Hb|].
  assert (Hlen : (length (passes_of (new_events w w')) <= 35)%nat).
  { destruct (spc_fd_wipe_run _ _ _ _ H)
      as [(_ & _ & ->) | [(_ & _ & _ & ->) | (Hst & Hne & _)]];
      [cbn; lia|cbn; lia|].
    destruct (spc_fd_wipe_passes _ _ _ _ H Hne Hst)
      as (evs & _ & _ & [(_ & Hall) | (_ & done & seg & -> & Hd & _)]).
    - apply Forall2_length in Hall. rewrite <- Hall. cbn. lia.
    - rewrite length_app. cbn [length]. lia. }
  split; [exact Hlen|].
  destruct (spc_fd_wipe_bounded _ _ _ _ H) as (rc & sz & segs & Hev & Hb2).
  rewrite Hev in Hlen, Hb |- *. rewrite passes_of_fstat in Hlen.
  unfold passes_of in Hlen. rewrite (cut_bounded _ _ Hb2) in Hlen.
  cbn [snd] in Hlen. rewrite nwritten_fstat.
  pose proof (size_t_range (Z.of_nat (length (file_now w)))) as Hs.
  fold (snapshot w) in Hs.
  assert (Hle : nwritten (concat segs) <= Z.of_nat (length segs) * snapshot w).
  { apply nwritten_concat_le; [lia|].
    eapply Forall_impl; [|exact Hb2].
    intros seg (off & rest & -> & _ & _ & Hn & _). rewrite nwritten_seek. exact Hn. }
  nia.
Qed.

Lemma passes_are_bounded_witness :
  nwritten (new_events w_badwrite (world_of (spc_fd_wipe 6 w_badwrite) w_badwrite))
  <= 35 * snapshot w_badwrite.
Proof.
  assert (Hrun : spc_fd_wipe 6 w_badwrite
                 = Ret (-1) (world_of (spc_fd_wipe 6 w_badwrite) w_badwrite))
    by (vm_compute; reflexivity).
  exact (proj2 (proj2 (passes_are_bounded 6 w_badwrite (-1) _ Hrun))).
Defined.

Lemma wipe_transferred_length fuel w r w' :
  spc_fd_wipe fuel w = Ret r w' ->
  Z.of_nat (length (transferred (new_events w w'))) = nwritten (new_events w w').
Proof.
  intros H. apply transferred_length.
  destruct (spc_fd_wipe_bounded _ _ _ _ H) as (rc & sz & segs & -> & Hb).
  cbn [forallb covers andb]. apply forallb_concat.
  apply (bounded_passes_cover _ _ Hb).
Qed.

(** On a file no other process touches, behind a descriptor that is not in
    append mode, a wipe never changes the length of the file, whatever it
    returns: a failure in the middle of a pass leaves a file of the size
    it had.  Behind a descriptor opened with [O_APPEND] the file grows by
    every byte the wipe writes. *)
Theorem wipe_keeps_length fuel w r w' :
  quiet (w_env w) -> Z.of_nat (length (w_file w)) < SIZE_MOD ->
  spc_fd_wipe fuel w = Ret r w' ->
  (e_append (w_env w) = false -> length (w_file w') = length (w_file w)) /\
  (e_append (w_env w) = true ->
   Z.of_nat (length (w_file w'))
   = Z.of_nat (length (w_file w)) + nwritten (new_events w w')).
Proof.
  intros Hq Hsz H. split.
  - intros Ha.
    pose proof (spc_fd_wipe_replayed _ _ _ _ Hq Ha H) as Hrep.
    destruct (quiet_snapshot w Hq Hsz) as [_ HS].
    destruct (spc_fd_wipe_bounded _ _ _ _ H) as (rc & sz & segs & Hev & Hb).
    rewrite Hev, replay_fstat in Hrep.
    pose proof (replay_bounded_length _ _ Hb (w_file w) (w_pos w)
                  ltac:(symmetry; exact HS)) as Hl.
    rewrite <- Hrep in Hl. exact Hl.
  - intros Ha. rewrite (spc_fd_wipe_trailed _ _ _ _ Hq Ha H), length_app.
    pose proof (wipe_transferred_length _ _ _ _ H). lia.
Qed.

Lemma wipe_keeps_length_witness :
  length (w_file (world_of (spc_fd_wipe 6 w_badwrite) w_badwrite)) = 3%nat.
Proof.
  assert (Hrun : spc_fd_wipe 6 w_badwrite
                 = Ret (-1) (world_of (spc_fd_wipe 6 w_badwrite) w_badwrite))
    by (vm_compute; reflexivity).
  exact (proj1 (wipe_keeps_length 6 w_badwrite (-1) _ badwrite_env_quiet
                  ltac:(vm_compute; reflexivity) Hrun) eq_refl).
Defined.

Lemma draws_consecutive_aux fuel w w' :
  spc_fd_wipe fuel w = Ret 0 w' ->
  drawn (new_events w w')
  = stream (w_env w) (w_rng w) (w_rng w' - w_rng w) /\
  w_rng w' = (w_rng w + 8 * Z.to_nat (snapshot w))%nat.
Proof.
  intros H.
  destruct (spc_fd_wipe_metered _ _ _ _ H) as (He & Hr & _ & Hd).
  split; [exact Hd|].
  assert (Hl : length (drawn (new_events w w')) = (w_rng w' - w_rng w)%nat)
    by (rewrite Hd; apply stream_length).
  destruct (spc_fd_wipe_run _ _ _ _ H)
    as [(_ & Hx & _) | [(_ & Hnil & _ & Hev) | (Hst & Hne & _)]];
    [discriminate| |].
  - rewrite Hev in Hl. cbn in Hl. unfold snapshot. rewrite Hnil.
    change (Z.to_nat (size_t (Z.of_nat (length (@nil byte))))) with 0%nat. lia.
  - destruct (spc_fd_wipe_passes _ _ _ _ H Hne Hst)
      as (evs & Hev & Hcat & [(_ & Hall) | (Hx & _)]); [|discriminate].
    pose proof (spc_fd_wipe_bounded_passes _ _ _ _ H) as Hb.
    pose proof (complete_passes_drawn _ _ _ Hall (bounded_passes_cover _ _ Hb))
      as Hdl.
    rewrite <- Hcat in Hdl. rewrite Hev, drawn_fstat in Hl.
    rewrite Hl in Hdl.
    change (length (filter is_random gutmann_plan)) with 8%nat in Hdl. lia.
Qed.

(** The random source is read in order: whatever a wipe returns, the bytes
    it has drawn are the next bytes of the source, none skipped and none
    drawn twice, and the source has moved by their number; a wipe that
    succeeds has drawn exactly 8 times the size taken at the start, one
    size for each of its eight random passes. *)
Theorem draws_are_consecutive fuel w r w' :
  spc_fd_wipe fuel w = Ret r w' ->
  w_env w' = w_env w /\
  (w_rng w <= w_rng w')%nat /\
  drawn (new_events w w')
  = stream (w_env w) (w_rng w) (w_rng w' - w_rng w) /\
  (r = 0 -> w_rng w' = (w_rng w + 8 * Z.to_nat (snapshot w))%nat).
Proof.
  intros H.
  destruct (spc_fd_wipe_metered _ _ _ _ H) as (He & Hr & _ & Hd).
  split; [exact He|]. split; [exact Hr|]. split; [exact Hd|].
  intros ->. apply (draws_consecutive_aux fuel w w' H).
Qed.

Lemma draws_are_consecutive_witness :
  w_rng (world_of (spc_fd_wipe 6 w_rough3) w_rough3) = 24%nat.
Proof.
  rewrite (proj2 (proj2 (proj2 (draws_are_consecutive 6 w_rough3 0 _ rough3_run)))
             eq_refl).
  vm_compute. reflexivity.
Defined.

(** ** What a wipe leaves in the file *)

Lemma gutmann_plan_last : gutmann_plan = firstn 34 gutmann_plan ++ [Random].
Proof. reflexivity. Qed.

Lemma Forall2_snoc_inv {A B} (P : A -> B -> Prop) l1 a l2 :
  Forall2 P (l1 ++ [a]) l2 ->
  exists l2' b, l2 = l2' ++ [b] /\ Forall2 P l1 l2' /\ P a b.
Proof.
  intros H. apply Forall2_app_inv_l in H.
  destruct H as (l2' & lb & H1 & H2 & ->).
  inversion H2 as [|? b ? lb' Hab Hnil]; subst. inversion Hnil; subst.
  exists l2', b. auto.
Qed.

(** The last pass of a wipe that succeeds: what it drew is what it wrote,
    and that is what the file holds. *)
Lemma wipe_last_pass fuel w w' :
  quiet (w_env w) -> e_append (w_env w) = false -> w_file w <> [] ->
  Z.of_nat (length (w_file w)) < SIZE_MOD ->
  spc_fd_wipe fuel w = Ret 0 w' ->
  exists seg,
    (w_file w', w_pos w') = (transferred seg, Z.of_nat (length (w_file w))) /\
    transferred seg = drawn seg /\
    drawn seg
    = stream (w_env w) (w_rng w + 7 * length (w_file w)) (length (w_file w)) /\
    w_rng w' = (w_rng w + 8 * length (w_file w))%nat.
Proof.
  intros Hq Ha Hne Hsz H.
  pose proof (spc_fd_wipe_replayed _ _ _ _ Hq Ha H) as Hrep.
  destruct (quiet_snapshot w Hq Hsz) as [Hnow HS].
  assert (Hne' : file_now w <> []) by (rewrite Hnow; exact Hne).
  destruct (draws_consecutive_aux fuel w w' H) as (Hd & Hrng).
  rewrite HS, Nat2Z.id in Hrng.
  destruct (spc_fd_wipe_passes _ _ _ _ H Hne' (wipe_success_stat _ _ _ H))
    as (evs & Hev & Hcat & [(_ & Hall) | (Hr & _)]); [|discriminate].
  pose proof (spc_fd_wipe_bounded_passes _ _ _ _ H) as Hb.
  remember (passes_of (new_events w w')) as segs eqn:Hsegs. clear Hsegs.
  rewrite gutmann_plan_last in Hall.
  apply Forall2_snoc_inv in Hall.
  destruct Hall as (segs1 & seg & -> & Hall1 & Hlast).
  apply Forall_app_last in Hb. destruct Hb as [Hb1 Hblast].
  pose proof (bounded_passes_cover _ _ Hb1) as Hcv1.
  assert (Hcvl : forallb covers seg = true)
    by (apply (forallb_covers SPC_WIPE_BUFSIZE),
          (bounded_pass_in_buffer (snapshot w)), Hblast).
  pose proof (complete_passes_drawn _ _ _ Hall1 Hcv1) as Hdl1.
  change (length (filter is_random (firstn 34 gutmann_plan))) with 7%nat in Hdl1.
  destruct (complete_pass_drawn _ _ _ Hlast Hcvl) as (Htd & Htl & Hdl).
  cbn [is_random] in Htd, Hdl. rewrite HS, Nat2Z.id in Hdl1, Hdl.
  rewrite Hev, drawn_fstat, Hcat, concat_app in Hd.
  cbn [concat] in Hd. rewrite app_nil_r, drawn_app in Hd.
  rewrite Hrng in Hd.
  replace (w_rng w + 8 * length (w_file w) - w_rng w)%nat
    with (7 * length (w_file w) + length (w_file w))%nat in Hd by lia.
  rewrite stream_app in Hd.
  apply snoc_eq_length in Hd; [|rewrite stream_length; exact Hdl1].
  destruct Hd as [_ Hdlast].
  rewrite Hev, replay_fstat, Hcat, concat_app, replay_app in Hrep.
  cbn [concat] in Hrep. rewrite app_nil_r in Hrep.
  pose proof (replay_bounded_length _ _ Hb1 (w_file w) (w_pos w)
                ltac:(symmetry; exact HS)) as Hl1.
  destruct (replay (w_file w, w_pos w) (concat segs1)) as [f1 p1].
  cbn [fst] in Hl1.
  rewrite (replay_complete_pass _ _ _ f1 p1 Hlast Hcvl) in Hrep by lia.
  exists seg. rewrite Hrep, HS. auto.
Qed.

(** When no other process touches a non-empty file and the descriptor is
    not in append mode, a wipe that succeeds leaves in the file the bytes
    of its last random pass and nothing else: with [S] the size of the
    file, the file is the [S] bytes of the random source that follow the
    [7 * S] bytes the seven random passes before it have drawn; no byte
    the file held before is left, the file has the size it had, the offset
    is at its end and the source has moved by [8 * S]. *)
Theorem wipe_leaves_random_bytes fuel w w' :
  quiet (w_env w) -> e_append (w_env w) = false -> w_file w <> [] ->
  Z.of_nat (length (w_file w)) < SIZE_MOD ->
  spc_fd_wipe fuel w = Ret 0 w' ->
  w_file w'
  = stream (w_env w) (w_rng w + 7 * length (w_file w)) (length (w_file w)) /\
  w_pos w' = Z.of_nat (length (w_file w)) /\
  w_rng w' = (w_rng w + 8 * length (w_file w))%nat.
Proof.
  intros Hq Ha Hne Hsz H.
  destruct (wipe_last_pass fuel w w' Hq Ha Hne Hsz H)
    as (seg & Hst & Htd & Hdr & Hrng).
  injection Hst as Hf Hp.
  split; [|split; [exact Hp|exact Hrng]].
  rewrite Hf, Htd. exact Hdr.
Qed.

Lemma wipe_leaves_random_bytes_witness :
  w_file (world_of (spc_fd_wipe 2 w_calm3) w_calm3) = [xc3; x3c; xc3].
Proof.
  rewrite (proj1 (wipe_leaves_random_bytes 2 w_calm3 _ calm_env_quiet eq_refl
                    ltac:(discriminate) ltac:(vm_compute; reflexivity) calm3_run)).
  vm_compute. reflexivity.
Defined.

(** On a kernel that never fails, with no other process at the file, a
    descriptor that is not in append mode and fuel for the loops, a wipe of
    a non-empty file returns 0 and leaves the file filled with random
    bytes, of the size it had. *)
Theorem wipe_succeeds_and_randomizes fuel w :
  healthy (w_env w) -> quiet (w_env w) -> e_append (w_env w) = false ->
  w_file w <> [] ->
  Z.of_nat (length (w_file w)) < SIZE_MOD ->
  enough_fuel (Z.of_nat (length (w_file w))) fuel ->
  exists w',
    spc_fd_wipe fuel w = Ret 0 w' /\
    length (w_file w') = length (w_file w) /\
    forall i, (i < length (w_file w))%nat ->
      nth i (w_file w') x00
      = e_rand (w_env w) (w_rng w + 7 * length (w_file w) + i).
Proof.
  intros Hh Hq Ha Hne Hsz Hf.
  destruct (quiet_snapshot w Hq Hsz) as [_ HS].
  destruct (spc_fd_wipe_succeeds fuel w Hh ltac:(rewrite HS; exact Hf))
    as (w' & Hrun).
  exists w'. split; [exact Hrun|].
  destruct (wipe_last_pass fuel w w' Hq Ha Hne Hsz Hrun)
    as (seg & Hst & Htd & Hdr & _).
  injection Hst as Hfile _. rewrite Hfile, Htd, Hdr.
  split; [apply stream_length|].
  intros i Hi. unfold stream.
  rewrite (nth_indep _ x00 (e_rand (w_env w) 0))
    by (rewrite length_map, length_seq; exact Hi).
  rewrite map_nth, seq_nth by exact Hi. reflexivity.
Qed.

Lemma wipe_succeeds_and_randomizes_witness :
  exists w',
    spc_fd_wipe 4096 w_calm3 = Ret 0 w' /\
    length (w_file w') = 3%nat /\
    forall i, (i < 3)%nat ->
      nth i (w_file w') x00 = e_rand calm_env (0 + 7 * 3 + i).
Proof.
  exact (wipe_succeeds_and_randomizes 4096 w_calm3 calm_env_healthy
           calm_env_quiet eq_refl ltac:(discriminate)
           ltac:(vm_compute; reflexivity)
           ltac:(split; vm_compute; [reflexivity|discriminate])).
Defined.

(** ** A descriptor opened with [O_APPEND] *)

Lemma wipe_success_written fuel w w' :
  spc_fd_wipe fuel w = Ret 0 w' ->
  nwritten (new_events w w') = 35 * snapshot w.
Proof.
  intros H.
  destruct (spc_fd_wipe_run _ _ _ _ H)
    as [(_ & Hx & _) | [(_ & Hnil & _ & Hev) | (Hst & Hne & _)]];
    [discriminate| |].
  - rewrite Hev. unfold snapshot. rewrite Hnil. reflexivity.
  - destruct (spc_fd_wipe_passes _ _ _ _ H Hne Hst)
      as (evs & Hev & Hcat & [(_ & Hall) | (Hx & _)]); [|discriminate].
    pose proof (complete_passes_written _ _ _ Hall) as Hwr.
    apply Forall2_length in Hall. rewrite Hev, nwritten_fstat, Hcat.
    rewrite (nwritten_concat_eq _ _ Hwr), <- Hall. reflexivity.
Qed.

(** A wipe through a descriptor opened with [O_APPEND] erases nothing.
    The seek of every pass to offset 0 succeeds, but every write lands at
    the end of the file: when no other process touches the file, whatever
    the wipe returns, the old content is still there, byte for byte,
    followed by all the bytes the passes wrote; a wipe that returns 0 has
    left a file 36 times the size it had.  And on a kernel that never
    fails the wipe does return 0. *)
Theorem append_mode_defeats_wipe fuel w :
  quiet (w_env w) -> e_append (w_env w) = true ->
  (healthy (w_env w) -> enough_fuel (snapshot w) fuel ->
   exists w', spc_fd_wipe fuel w = Ret 0 w') /\
  (forall r w',
     spc_fd_wipe fuel w = Ret r w' ->
     w_file w' = w_file w ++ transferred (new_events w w') /\
     firstn (length (w_file w)) (w_file w') = w_file w /\
     (r = 0 -> Z.of_nat (length (w_file w)) < SIZE_MOD ->
      length (w_file w') = (36 * length (w_file w))%nat)).
Proof.
  intros Hq Ha. split; [apply spc_fd_wipe_succeeds|].
  intros r w' H.
  pose proof (spc_fd_wipe_trailed _ _ _ _ Hq Ha H) as Hf.
  split; [exact Hf|]. split.
  - rewrite Hf. apply firstn_app_exact. reflexivity.
  - intros -> Hsz. destruct (quiet_snapshot w Hq Hsz) as [_ HS].
    pose proof (wipe_transferred_length _ _ _ _ H) as Hl.
    rewrite (wipe_success_written _ _ _ H), HS in Hl.
    rewrite Hf, length_app. lia.
Qed.

Lemma append_mode_defeats_wipe_witness :
  spc_fd_wipe 2 w_append3
  = Ret 0 (world_of (spc_fd_wipe 2 w_append3) w_append3) /\
  firstn 3 (w_file (world_of (spc_fd_wipe 2 w_append3) w_append3))
  = [x41; x42; x43] /\
  length (w_file (world_of (spc_fd_wipe 2 w_append3) w_append3)) = 108%nat.
Proof.
  assert (Hrun : spc_fd_wipe 2 w_append3
                 = Ret 0 (world_of (spc_fd_wipe 2 w_append3) w_append3))
    by (vm_compute; reflexivity).
  destruct (proj2 (append_mode_defeats_wipe 2 w_append3 append_env_quiet eq_refl)
              0 _ Hrun) as (_ & Hold & Hlen).
  split; [exact Hrun|]. split; [exact Hold|].
  exact (Hlen eq_refl ltac:(vm_compute; reflexivity)).
Defined.

(** ** A kernel that stalls *)

Lemma random_loop_stalled fuel wfuel nbytes w :
  stalled (w_env w) -> 0 < nbytes < SIZE_MOD ->
  random_loop (S fuel) wfuel nbytes w = OutOfFuel InWriteData.
Proof.
  intros Hs Hn. cbn [random_loop].
  replace (0 <? nbytes) with true by (symmetry; apply Z.ltb_lt; lia).
  set (towrite := if SPC_WIPE_BUFSIZE <? nbytes then SPC_WIPE_BUFSIZE else nbytes).
  assert (Htw : 0 < towrite < SIZE_MOD).
  { subst towrite. unfold SPC_WIPE_BUFSIZE, SIZE_MOD in *.
    destruct (Z.ltb_spec 4096 nbytes); lia. }
  unfold spc_rand. cbv zeta. unfold write_data.
  rewrite write_data_loop_stalled; [reflexivity|exact Hs|lia|lia].
Qed.

Lemma random_pass_stalled fuel nbytes w :
  stalled (w_env w) -> e_seek (w_env w) (w_clock w) = 0 ->
  0 < nbytes < SIZE_MOD ->
  random_pass (S fuel) nbytes w = OutOfFuel InWriteData.
Proof.
  intros Hs Hk Hn. unfold random_pass, sys_lseek. cbv zeta. rewrite Hk.
  change (negb (0 =? 0)) with false. cbv iota.
  rewrite random_loop_stalled; [reflexivity|exact Hs|exact Hn].
Qed.

Lemma for_pass_out n pass body buf w l :
  body pass buf w = OutOfFuel l ->
  for_pass (S n) pass body buf w = OutOfFuel l.
Proof. intros H. cbn [for_pass]. rewrite H. reflexivity. Qed.

(** A wipe has no limit on retries either: on a non-empty file, when
    [fstat] and the first seek succeed and the kernel then interrupts every
    write or takes no byte, the wipe never returns, it stays in the loop of
    [write_data] in its first pass, whatever the fuel. *)
Theorem stalled_wipe_never_returns fuel w :
  stalled (w_env w) -> stat_ok w = true -> file_now w <> [] ->
  Z.of_nat (length (file_now w)) < SIZE_MOD ->
  e_seek (w_env w) (S (w_clock w)) = 0 ->
  spc_fd_wipe (S fuel) w = OutOfFuel InWriteData.
Proof.
  intros Hs Hst Hne Hsz Hk. unfold stat_ok in Hst.
  unfold spc_fd_wipe, sys_fstat. rewrite Hst.
  change (0 =? -1) with false. cbv beta iota zeta.
  destruct (Z.eqb_spec (Z.of_nat (length (file_now w))) 0) as [Hz|Hnz].
  { destruct (file_now w); [contradiction|cbn [length] in Hz; lia]. }
  rewrite size_t_small by lia.
  match goal with
  | |- and_then (for_pass 4 0 ?body ?buf ?w1) _ = _ =>
      rewrite (for_pass_out 3 0 body buf w1 InWriteData)
  end; [reflexivity|].
  unfold random_body. rewrite random_pass_stalled; [reflexivity|exact Hs|exact Hk|lia].
Qed.

Lemma stalled_wipe_never_returns_witness :
  spc_fd_wipe 5 w_eintr = OutOfFuel InWriteData.
Proof.
  exact (stalled_wipe_never_returns 4 w_eintr eintr_env_stalled eq_refl
           ltac:(discriminate) ltac:(vm_compute; reflexivity) eq_refl).
Defined.

(** ** Flushes *)

Lemma failed_pass_counts seg :
  failed_pass seg ->
  count_ev is_seek seg = 1%nat /\ count_ev is_fsync seg = 0%nat.
Proof.
  intros [(ret & _ & ->) | (body & -> & Hio & _)]; [split; reflexivity|].
  unfold count_ev. cbn [filter is_seek is_fsync].
  rewrite !(filter_io_none _ body) by
    (try exact Hio; intros [] Hev; try discriminate; reflexivity).
  split; reflexivity.
Qed.

(** Only a pass that ran to its end is flushed: a wipe that succeeds has
    flushed as often as it has sought, once in each pass, and a wipe that
    fails after [fstat] has sought once more than it has flushed, the pass
    that failed being left without a flush. *)
Theorem flushes_follow_complete_passes fuel w r w' :
  spc_fd_wipe fuel w = Ret r w' ->
  count_ev is_seek (new_events w w') = length (passes_of (new_events w w')) /\
  (r = 0 ->
   count_ev is_fsync (new_events w w') = count_ev is_seek (new_events w w')) /\
  (r = -1 -> stat_ok w = true ->
   count_ev is_seek (new_events w w')
   = S (count_ev is_fsync (new_events w w'))).
Proof.
  intros H.
  destruct (spc_fd_wipe_run _ _ _ _ H)
    as [(Hst & -> & ->) | [(_ & _ & -> & ->) | (Hst & Hne & _)]].
  - split; [reflexivity|]. split; [discriminate|].
    intros _ Hx. rewrite Hx in Hst. discriminate.
  - split; [reflexivity|]. split; [reflexivity|discriminate].
  - destruct (spc_fd_wipe_passes _ _ _ _ H Hne Hst)
      as (evs & Hev & Hcat & [(-> & Hall) | (-> & done & seg & Hp & _ & Hall & Hf)]).
    + destruct (complete_passes_counts _ _ _ Hall) as (Hl & Hs & Hy & _).
      rewrite <- Hcat in Hs, Hy.
      assert (Cs : count_ev is_seek (new_events w w') = count_ev is_seek evs)
        by (rewrite Hev; reflexivity).
      assert (Cy : count_ev is_fsync (new_events w w') = count_ev is_fsync evs)
        by (rewrite Hev; reflexivity).
      rewrite Cs, Cy, Hs, Hy, Hl.
      split; [reflexivity|]. split; [reflexivity|discriminate].
    + destruct (complete_passes_counts _ _ _ Hall) as (Hl & Hs & Hy & _).
      destruct (failed_pass_counts _ Hf) as (Fs & Fy).
      assert (Cs : count_ev is_seek (new_events w w') = count_ev is_seek evs)
        by (rewrite Hev; reflexivity).
      assert (Cy : count_ev is_fsync (new_events w w') = count_ev is_fsync evs)
        by (rewrite Hev; reflexivity).
      rewrite Hp in Hcat |- *. rewrite concat_app in Hcat. cbn [concat] in Hcat.
      rewrite app_nil_r in Hcat. rewrite <- Hl in Hs, Hy.
      rewrite Cs, Cy, Hcat, !count_ev_app, Hs, Hy, Fs, Fy, length_app.
      cbn [length]. split; [reflexivity|]. split; [discriminate|].
      intros _ _. lia.
Qed.

Lemma flushes_follow_complete_passes_witness :
  count_ev is_seek
    (new_events w_badwrite (world_of (spc_fd_wipe 6 w_badwrite) w_badwrite))
  = S (count_ev is_fsync
         (new_events w_badwrite (world_of (spc_fd_wipe 6 w_badwrite) w_badwrite))).
Proof.
  assert (Hrun : spc_fd_wipe 6 w_badwrite
                 = Ret (-1) (world_of (spc_fd_wipe 6 w_badwrite) w_badwrite))
    by (vm_compute; reflexivity).
  exact (proj2 (proj2 (flushes_follow_complete_passes 6 w_badwrite (-1) _ Hrun))
           eq_refl eq_refl).
Defined.
